(** * A verified model of the HTTP relay of [proxy_server.py]

    The relay is one request handler class, [ProxyHandler], over Python's
    [http.server], [json] and [urllib.request].  The development has five
    layers:

    - [Py]: Python strings, byte strings, values and exceptions, and the
      builtins the handler calls ([int], [str] of an exception, subscripting);
    - [Codec]: the byte/text codecs ([bytes.decode], [str.encode]);
    - [Json]: [json.loads] and [json.dumps];
    - [Http]: what [BaseHTTPRequestHandler] gives a handler (request headers,
      the [rfile] stream, [send_response], [send_header], [end_headers],
      [wfile.write]) as a state and exception monad;
    - [Proxy]: the handler itself, method by method.

    The library layers follow CPython 3.11: the C scanner of [_json], the
    codecs of [unicodeobject.c], [PyLong_FromString], the buffered reader
    of [_io] and the constructor of [urllib.request.Request], with the
    messages these give.  Left abstract, as fields of [world], are the
    network (what [urlopen] answers for a given outbound request), two
    interpreter limits, whether a byte string of a given size can be
    allocated, and three library functions: [str] of a float or of a
    non-empty list or dict, [str.isprintable] above Latin-1, and what
    [urlparse] makes of an address that has a scheme.

    Four things are taken for granted.  The request stream ends (a [read]
    past what the client sent returns what is there).  Writing to the
    client does not fail.  The fetch returns: [urlopen] and [read] give a
    result or raise, they do not block for ever.  Memory suffices for the
    data that is there (the request body, the body fetched, the texts made
    of them); the one allocation that can fail is that of
    [rfile.read(n)], whose size the client names without sending as
    much. *)

From Stdlib Require Import NArith ZArith List Bool Lia.
From Stdlib Require Import Strings.String Strings.Ascii Strings.Byte.
From Stdlib Require Import DecimalString.
From Stdlib Require DecimalN DecimalFacts.
Import ListNotations.

Set Implicit Arguments.
Set Warnings "-register-all".

(* ===================================================================== *)
(** * Python data *)
(* ===================================================================== *)

Module Py.

(** A Python [str] is a sequence of code points; a [bytes] object is a
    sequence of octets. *)
Definition str := list N.
Definition bytes := list byte.

(** ASCII literals of the source, as [str] and as [bytes]. *)
Definition lit (s : string) : str := map Byte.to_N (list_byte_of_string s).
Definition blit (s : string) : bytes := list_byte_of_string s.

Definition str_eqb (a b : str) : bool :=
  if list_eq_dec N.eq_dec a b then true else false.

(** [a <= c <= b] on code points. *)
Definition between (a b c : N) : bool := (a <=? c)%N && (c <=? b)%N.

(** ** Number formatting *)

(** ["%d" % n]. *)
Definition dec (n : N) : str := lit (NilZero.string_of_uint (N.to_uint n)).

Definition hexdigit (d : N) : N :=
  if (d <? 10)%N then (48 + d)%N else (87 + d)%N.

(** ["%02x" % b] for an octet. *)
Definition hex2 (b : N) : str := [hexdigit (b / 16); hexdigit (b mod 16)].

(** ["%04x" % c] for a 16-bit unit. *)
Definition hex4 (c : N) : str :=
  [hexdigit (c / 4096 mod 16); hexdigit (c / 256 mod 16);
   hexdigit (c / 16 mod 16); hexdigit (c mod 16)].

(** ** [repr] of a string made of Latin-1 characters

    [unicode_repr]: single quotes unless the string has a single quote and
    no double quote; backslash, the quote, tab, newline and carriage return
    are escaped, other non-printable characters are written [\xNN]. *)
Definition printable_latin1 (c : N) : bool :=
  between 32 126 c || (between 161 255 c && negb (c =? 173)%N).

Definition repr_quote (s : str) : N :=
  if existsb (N.eqb 39) s && negb (existsb (N.eqb 34) s) then 34%N else 39%N.

Definition repr_char (q c : N) : str :=
  if (c =? q)%N || (c =? 92)%N then [92%N; c]
  else if (c =? 9)%N then lit "\t"
  else if (c =? 10)%N then lit "\n"
  else if (c =? 13)%N then lit "\r"
  else if printable_latin1 c then [c]
  else lit "\x" ++ hex2 c.

Definition repr (s : str) : str :=
  let q := repr_quote s in
  [q] ++ flat_map (repr_char q) s ++ [q].

(** ["%08x" % c]. *)
Definition hex8 (c : N) : str :=
  [hexdigit (c / 268435456 mod 16); hexdigit (c / 16777216 mod 16);
   hexdigit (c / 1048576 mod 16); hexdigit (c / 65536 mod 16)] ++ hex4 c.

(** [repr] of any string.  [isprintable] is [Py_UNICODE_ISPRINTABLE] above
    Latin-1, where a character that is not printable is written [\uNNNN]
    or [\UNNNNNNNN]. *)
Definition repr_char_any (isprintable : N -> bool) (q c : N) : str :=
  if (c <? 256)%N then repr_char q c
  else if isprintable c then [c]
  else if (c <? 65536)%N then lit "\u" ++ hex4 c
  else lit "\U" ++ hex8 c.

Definition repr_any (isprintable : N -> bool) (s : str) : str :=
  let q := repr_quote s in
  [q] ++ flat_map (repr_char_any isprintable q) s ++ [q].

(** ** Exceptions

    Every constructor is a subclass of [Exception]; [exn_str] is [str(e)].
    [OtherException] stands for any exception class the network layer may
    raise that has no constructor of its own, with its [str] as argument. *)
Inductive json_msg :=
| ExpectingValue
| ExpectingPropertyName
| ExpectingColon
| ExpectingComma
| UnterminatedString
| InvalidControlCharacter
| InvalidEscape
| InvalidUnicodeEscape
| ExtraData.

Inductive exn :=
| TypeError (msg : str)
| ValueError (msg : str)
| OverflowError (msg : str)
| MemoryError
| KeyError (key : str)
| RecursionError (msg : str)
| JSONDecodeError (msg : json_msg) (doc : str) (pos : nat)
| UnicodeDecodeError (encoding : str) (object : bytes) (start stop : nat)
                     (reason : str)
| UnicodeEncodeError (encoding : str) (object : str) (start stop : nat)
                     (reason : str)
| URLError (reason : str)
| HTTPError (code : N) (msg : str)
| OtherException (description : str).

Definition json_msg_str (m : json_msg) : str :=
  match m with
  | ExpectingValue => lit "Expecting value"
  | ExpectingPropertyName =>
      lit "Expecting property name enclosed in double quotes"
  | ExpectingColon => lit "Expecting ':' delimiter"
  | ExpectingComma => lit "Expecting ',' delimiter"
  | UnterminatedString => lit "Unterminated string starting at"
  | InvalidControlCharacter => lit "Invalid control character at"
  | InvalidEscape => lit "Invalid \escape"
  | InvalidUnicodeEscape => lit "Invalid \uXXXX escape"
  | ExtraData => lit "Extra data"
  end.

(** [JSONDecodeError.__init__]: the line is one more than the number of
    newlines before [pos]; the column counts from the last newline. *)
Definition lineno (doc : str) (pos : nat) : N :=
  N.of_nat (count_occ N.eq_dec (firstn pos doc) 10%N) + 1.

Fixpoint since_newline (rev_prefix : str) : N :=
  match rev_prefix with
  | [] => 0
  | c :: r => if (c =? 10)%N then 0%N else (1 + since_newline r)%N
  end.

Definition colno (doc : str) (pos : nat) : N :=
  since_newline (rev (firstn pos doc)) + 1.

Definition exn_str (e : exn) : str :=
  match e with
  | TypeError m | ValueError m | OverflowError m | RecursionError m => m
  | MemoryError => []
  | KeyError k => repr k
  | JSONDecodeError m doc pos =>
      json_msg_str m ++ lit ": line " ++ dec (lineno doc pos)
        ++ lit " column " ++ dec (colno doc pos)
        ++ lit " (char " ++ dec (N.of_nat pos) ++ lit ")"
  | UnicodeDecodeError enc obj a b r =>
      if Nat.eqb b (S a) then
        lit "'" ++ enc ++ lit "' codec can't decode byte 0x"
          ++ hex2 (Byte.to_N (nth a obj x00))
          ++ lit " in position " ++ dec (N.of_nat a) ++ lit ": " ++ r
      else
        lit "'" ++ enc ++ lit "' codec can't decode bytes in position "
          ++ dec (N.of_nat a) ++ lit "-" ++ dec (N.of_nat (b - 1))
          ++ lit ": " ++ r
  | UnicodeEncodeError enc obj a b r =>
      if Nat.eqb b (S a) then
        lit "'" ++ enc ++ lit "' codec can't encode character '\u"
          ++ hex4 (nth a obj 0%N)
          ++ lit "' in position " ++ dec (N.of_nat a) ++ lit ": " ++ r
      else
        lit "'" ++ enc ++ lit "' codec can't encode characters in position "
          ++ dec (N.of_nat a) ++ lit "-" ++ dec (N.of_nat (b - 1))
          ++ lit ": " ++ r
  | URLError r => lit "<urlopen error " ++ r ++ lit ">"
  | HTTPError c m => lit "HTTP Error " ++ dec c ++ lit ": " ++ m
  | OtherException d => d
  end.

(** The outcome of a call that may raise. *)
Inductive result (A : Type) :=
| Ok (a : A)
| Raise (e : exn).
Arguments Raise {A} e.

Definition rbind {A B} (r : result A) (k : A -> result B) : result B :=
  match r with
  | Ok a => k a
  | Raise e => Raise e
  end.

(** ** Values

    What [json.loads] can return.  A number keeps the text it was read from:
    the handler never computes with one.  A [dict] keeps its keys in
    insertion order, each key once. *)
Inductive value :=
| VNone
| VBool (b : bool)
| VInt (lexeme : str)
| VFloat (lexeme : str)
| VStr (s : str)
| VList (items : list value)
| VDict (items : list (str * value)).

(** [d[k] = v] on a [dict]: an existing key keeps its place. *)
Fixpoint dict_set (d : list (str * value)) (k : str) (v : value)
  : list (str * value) :=
  match d with
  | [] => [(k, v)]
  | (k', v') :: r =>
      if str_eqb k' k then (k', v) :: r else (k', v') :: dict_set r k v
  end.

Fixpoint dict_get (d : list (str * value)) (k : str) : option value :=
  match d with
  | [] => None
  | (k', v') :: r => if str_eqb k' k then Some v' else dict_get r k
  end.

(** [obj[key]] for a [str] key. *)
Definition getitem (obj : value) (key : str) : result value :=
  match obj with
  | VDict d =>
      match dict_get d key with
      | Some v => Ok v
      | None => Raise (KeyError key)
      end
  | VList _ =>
      Raise (TypeError (lit "list indices must be integers or slices, not str"))
  | VStr _ =>
      Raise (TypeError (lit "string indices must be integers, not 'str'"))
  | VInt _ => Raise (TypeError (lit "'int' object is not subscriptable"))
  | VFloat _ => Raise (TypeError (lit "'float' object is not subscriptable"))
  | VBool _ => Raise (TypeError (lit "'bool' object is not subscriptable"))
  | VNone => Raise (TypeError (lit "'NoneType' object is not subscriptable"))
  end.

(** ** [int(x)] for [x] a header value: [None] or a Latin-1 [str]

    [PyLong_FromUnicodeObject] with base 10: non-ASCII white space becomes a
    blank, then [PyLong_FromString] skips leading white space, takes one
    optional sign, then digits with single underscores between them, skips
    trailing white space and must be at the end. *)
Definition is_space (c : N) : bool := between 9 13 c || (c =? 32)%N.
Definition is_digit (c : N) : bool := between 48 57 c.

Definition to_ascii_space (c : N) : N :=
  if (c =? 133)%N || (c =? 160)%N then 32%N else c.

Fixpoint skip_space (s : str) : str :=
  match s with
  | c :: r => if is_space c then skip_space r else s
  | [] => []
  end.

(** The digit scan of [long_from_non_binary_base]: the value and the number
    of digits read so far, the previous character, the rest.  [None] is a
    doubled underscore. *)
Fixpoint scan_digits (acc : Z) (ndigits : N) (prev_us : bool) (s : str)
  : option (Z * N * bool * str) :=
  match s with
  | c :: r =>
      if is_digit c then
        scan_digits (10 * acc + Z.of_N (c - 48)) (ndigits + 1) false r
      else if (c =? 95)%N then
        if prev_us then None else scan_digits acc ndigits true r
      else Some (acc, ndigits, prev_us, s)
  | [] => Some (acc, ndigits, prev_us, s)
  end.

Definition invalid_literal (x : str) : exn :=
  ValueError (lit "invalid literal for int() with base 10: "
                ++ firstn 200 (repr x)).

Definition digits_limit_error (limit ndigits : N) : exn :=
  ValueError (lit "Exceeds the limit (" ++ dec limit
    ++ lit " digits) for integer string conversion: value has "
    ++ dec ndigits
    ++ lit " digits; use sys.set_int_max_str_digits() to increase the limit").

(** [max_str_digits] is [sys.get_int_max_str_digits()]; 0 is no limit. *)
Definition int_of_str (max_str_digits : N) (x : str) : result Z :=
  let s := skip_space (map to_ascii_space x) in
  let '(neg, s) :=
    match s with
    | 43%N :: r => (false, r)
    | 45%N :: r => (true, r)
    | _ => (false, s)
    end in
  match s with
  | 95%N :: _ => Raise (invalid_literal x)
  | _ =>
      match scan_digits 0 0 false s with
      | None => Raise (invalid_literal x)
      | Some (v, nd, prev_us, rest) =>
          if prev_us then Raise (invalid_literal x)
          else if (640 <? nd)%N && (0 <? max_str_digits)%N
                  && (max_str_digits <? nd)%N
          then Raise (digits_limit_error max_str_digits nd)
          else if (nd =? 0)%N then Raise (invalid_literal x)
          else
            match skip_space rest with
            | [] => Ok (if neg then (- v)%Z else v)
            | _ :: _ => Raise (invalid_literal x)
            end
      end
  end.

Definition int (max_str_digits : N) (x : option str) : result Z :=
  match x with
  | None =>
      Raise (TypeError (lit
        "int() argument must be a string, a bytes-like object or a real number, not 'NoneType'"))
  | Some s => int_of_str max_str_digits s
  end.

End Py.

(* ===================================================================== *)
(** * Codecs *)
(* ===================================================================== *)

Module Codec.
Import Py.

Definition byte_of (n : N) : byte :=
  match Byte.of_N (n mod 256) with
  | Some b => b
  | None => x00
  end.

Definition is_cont (c : N) : bool := between 128 191 c.
Definition is_surrogate (c : N) : bool := between 55296 57343 c.
Definition is_high_surrogate (c : N) : bool := between 55296 56319 c.
Definition is_low_surrogate (c : N) : bool := between 56320 57343 c.

(** A code point that UTF-8 can carry: below 0x110000 and no surrogate. *)
Definition is_scalar (c : N) : bool := (c <? 1114112)%N && negb (is_surrogate c).

Definition decode_error (enc : string) (obj : bytes) (start stop : nat)
  (reason : string) : exn :=
  UnicodeDecodeError (lit enc) obj start stop (lit reason).

Definition cons_ok (c : N) (r : result str) : result str :=
  rbind r (fun s => Ok (c :: s)).

(** A text of scalar values. *)
Definition scalar_text (s : str) : Prop :=
  Forall (fun c => is_scalar c = true) s.

(** A codec call that returns, or raises [UnicodeDecodeError]. *)
Definition decode_result (r : result str) : Prop :=
  match r with
  | Ok _ => True
  | Raise (UnicodeDecodeError _ _ _ _ _) => True
  | Raise _ => False
  end.

(** ** UTF-8

    [utf8_decode] of CPython's [stringlib/codecs.h], one character per
    round, with the error positions of [unicode_decode_utf8].  [sp] is the
    error handler: [false] for ['strict'], [true] for ['surrogatepass'],
    which lets the three-byte form of a surrogate through. *)
Fixpoint utf8_decode_from (sp : bool) (obj : bytes) (pos : nat) (s : bytes)
  : result str :=
  let bad_start := Raise (decode_error "utf-8" obj pos (S pos) "invalid start byte") in
  let bad_cont k :=
    Raise (decode_error "utf-8" obj pos (pos + k) "invalid continuation byte") in
  let short :=
    Raise (decode_error "utf-8" obj pos (List.length obj) "unexpected end of data") in
  match s with
  | [] => Ok []
  | b0 :: r0 =>
      let c0 := Byte.to_N b0 in
      if (c0 <? 128)%N then cons_ok c0 (utf8_decode_from sp obj (S pos) r0)
      else if (c0 <? 194)%N then bad_start
      else if (c0 <? 224)%N then
        match r0 with
        | [] => short
        | b1 :: r1 =>
            let c1 := Byte.to_N b1 in
            if is_cont c1 then
              cons_ok ((c0 - 192) * 64 + (c1 - 128))
                      (utf8_decode_from sp obj (pos + 2) r1)
            else bad_cont 1%nat
        end
      else if (c0 <? 240)%N then
        match r0 with
        | [] => short
        | b1 :: r1 =>
            let c1 := Byte.to_N b1 in
            if negb (is_cont c1)
               || (if (c1 <? 160)%N then (c0 =? 224)%N else (c0 =? 237)%N)
            then
              match r1 with
              | b2 :: r2 =>
                  let c2 := Byte.to_N b2 in
                  if sp && (c0 =? 237)%N && between 160 191 c1 && is_cont c2
                  then
                    cons_ok (53248 + (c1 - 128) * 64 + (c2 - 128))
                            (utf8_decode_from sp obj (pos + 3) r2)
                  else bad_cont 1%nat
              | [] => bad_cont 1%nat
              end
            else
              match r1 with
              | [] => short
              | b2 :: r2 =>
                  let c2 := Byte.to_N b2 in
                  if is_cont c2 then
                    cons_ok ((c0 - 224) * 4096 + (c1 - 128) * 64 + (c2 - 128))
                            (utf8_decode_from sp obj (pos + 3) r2)
                  else bad_cont 2%nat
              end
        end
      else if (c0 <? 245)%N then
        match r0 with
        | [] => short
        | b1 :: r1 =>
            let c1 := Byte.to_N b1 in
            if negb (is_cont c1)
               || (if (c1 <? 144)%N then (c0 =? 240)%N else (c0 =? 244)%N)
            then bad_cont 1%nat
            else
              match r1 with
              | [] => short
              | b2 :: r2 =>
                  let c2 := Byte.to_N b2 in
                  if negb (is_cont c2) then bad_cont 2%nat
                  else
                    match r2 with
                    | [] => short
                    | b3 :: r3 =>
                        let c3 := Byte.to_N b3 in
                        if is_cont c3 then
                          cons_ok ((c0 - 240) * 262144 + (c1 - 128) * 4096
                                   + (c2 - 128) * 64 + (c3 - 128))
                                  (utf8_decode_from sp obj (pos + 4) r3)
                        else bad_cont 3%nat
                    end
              end
        end
      else bad_start
  end.

(** [b.decode('utf-8')]. *)
Definition utf8_decode (b : bytes) : result str :=
  utf8_decode_from false b 0 b.

(** [b.decode('utf-8', 'surrogatepass')]. *)
Definition utf8_decode_surrogatepass (b : bytes) : result str :=
  utf8_decode_from true b 0 b.

(** The length of the run of surrogates at the head of [s]. *)
Fixpoint surrogate_run (s : str) : nat :=
  match s with
  | c :: r => if is_surrogate c then S (surrogate_run r) else 0%nat
  | [] => 0%nat
  end.

(** [s.encode('utf-8')]: a surrogate cannot be encoded. *)
Fixpoint utf8_encode_from (obj : str) (pos : nat) (s : str) : result bytes :=
  match s with
  | [] => Ok []
  | c :: r =>
      let rest := utf8_encode_from obj (S pos) r in
      let emit (l : list N) := rbind rest (fun t => Ok (map byte_of l ++ t)) in
      if (c <? 128)%N then emit [c]
      else if (c <? 2048)%N then emit [192 + c / 64; 128 + c mod 64]%N
      else if is_surrogate c then
        Raise (UnicodeEncodeError (lit "utf-8") obj pos (pos + surrogate_run s)
                 (lit "surrogates not allowed"))
      else if (c <? 65536)%N then
        emit [224 + c / 4096; 128 + c / 64 mod 64; 128 + c mod 64]%N
      else
        emit [240 + c / 262144; 128 + c / 4096 mod 64; 128 + c / 64 mod 64;
              128 + c mod 64]%N
  end.

Definition utf8_encode (s : str) : result bytes := utf8_encode_from s 0 s.

(** ** UTF-16 and UTF-32 with ['surrogatepass']

    [json.loads] decodes a body it detects as UTF-16 or UTF-32 with this
    error handler: a lone surrogate unit is kept as a code point. *)
Definition unit16 (le : bool) (b0 b1 : byte) : N :=
  if le then (Byte.to_N b0 + 256 * Byte.to_N b1)%N
  else (256 * Byte.to_N b0 + Byte.to_N b1)%N.

Fixpoint utf16_units (le : bool) (enc : string) (obj : bytes) (pos : nat)
  (s : bytes) : result (list N) :=
  match s with
  | [] => Ok []
  | [_] => Raise (decode_error enc obj pos (List.length obj) "truncated data")
  | b0 :: b1 :: r =>
      cons_ok (unit16 le b0 b1) (utf16_units le enc obj (pos + 2) r)
  end.

Fixpoint join_surrogates (u : list N) : str :=
  match u with
  | [] => []
  | hi :: r =>
      match r with
      | lo :: r' =>
          if is_high_surrogate hi && is_low_surrogate lo
          then (65536 + (hi - 55296) * 1024 + (lo - 56320))%N
                 :: join_surrogates r'
          else hi :: join_surrogates r
      | [] => [hi]
      end
  end.

Definition utf16_decode_from (le : bool) (enc : string) (obj : bytes)
  (pos : nat) (s : bytes) : result str :=
  rbind (utf16_units le enc obj pos s) (fun u => Ok (join_surrogates u)).

Definition unit32 (le : bool) (b0 b1 b2 b3 : byte) : N :=
  if le then
    (Byte.to_N b0 + 256 * Byte.to_N b1 + 65536 * Byte.to_N b2
     + 16777216 * Byte.to_N b3)%N
  else
    (16777216 * Byte.to_N b0 + 65536 * Byte.to_N b1 + 256 * Byte.to_N b2
     + Byte.to_N b3)%N.

Fixpoint utf32_decode_from (le : bool) (enc : string) (obj : bytes)
  (pos : nat) (s : bytes) : result str :=
  match s with
  | [] => Ok []
  | b0 :: b1 :: b2 :: b3 :: r =>
      let c := unit32 le b0 b1 b2 b3 in
      if (c <? 1114112)%N then
        cons_ok c (utf32_decode_from le enc obj (pos + 4) r)
      else
        Raise (decode_error enc obj pos (pos + 4)
                 "code point not in range(0x110000)")
  | _ => Raise (decode_error enc obj pos (List.length obj) "truncated data")
  end.

End Codec.

(* ===================================================================== *)
(** * The [json] module *)
(* ===================================================================== *)

Module Json.
Import Py Codec.

Definition chr (a : ascii) : N := N_of_ascii a.

Definition is_chr (a : ascii) (c : N) : bool := (c =? chr a)%N.

(** The double quote. *)
Definition is_quote (c : N) : bool := (c =? 34)%N.

(** What a scanner routine returns: the value with the index and the text
    after it, an exception, [StopIteration(idx)], or [Exhausted] when the
    bound on the number of rounds is used up (which [loads] never meets). *)
Inductive scan (A : Type) :=
| Found (a : A) (pos : nat) (rest : str)
| Error (e : exn)
| StopIteration (pos : nat)
| Exhausted.
Arguments Error {A} e.
Arguments StopIteration {A} pos.
Arguments Exhausted {A}.

Definition errmsg {A} (m : json_msg) (doc : str) (pos : nat) : scan A :=
  Error (JSONDecodeError m doc pos).

(** [IS_WHITESPACE]. *)
Definition is_whitespace (c : N) : bool :=
  is_chr " " c || (c =? 9)%N || (c =? 10)%N || (c =? 13)%N.

Fixpoint skip_ws (pos : nat) (s : str) : nat * str :=
  match s with
  | c :: r => if is_whitespace c then skip_ws (S pos) r else (pos, s)
  | [] => (pos, s)
  end.

Fixpoint strip_prefix (p s : str) : option str :=
  match p, s with
  | [], _ => Some s
  | a :: p', b :: s' => if (a =? b)%N then strip_prefix p' s' else None
  | _ :: _, [] => None
  end.

(** ** Strings: [scanstring_unicode] *)

Definition hexval (c : N) : option N :=
  if between 48 57 c then Some (c - 48)%N
  else if between 97 102 c then Some (c - 87)%N
  else if between 65 70 c then Some (c - 55)%N
  else None.

Definition hex4val (h1 h2 h3 h4 : N) : option N :=
  match hexval h1, hexval h2, hexval h3, hexval h4 with
  | Some a, Some b, Some c, Some d => Some (((a * 16 + b) * 16 + c) * 16 + d)%N
  | _, _, _, _ => None
  end.

Definition unescape (c : N) : option N :=
  if is_quote c || is_chr "\" c || is_chr "/" c then Some c
  else if is_chr "b" c then Some 8%N
  else if is_chr "f" c then Some 12%N
  else if is_chr "n" c then Some 10%N
  else if is_chr "r" c then Some 13%N
  else if is_chr "t" c then Some 9%N
  else None.

(** [begin] is the index of the opening quote, [pos] the index of the head
    of [s], [acc] the characters read so far, last first. *)
Fixpoint scanstring (doc : str) (begin pos : nat) (s : str) (acc : str)
  : scan str :=
  match s with
  | [] => errmsg UnterminatedString doc begin
  | c :: r =>
      if is_quote c then Found (rev acc) (S pos) r
      else if is_chr "\" c then
        match r with
        | [] => errmsg UnterminatedString doc begin
        | e :: r1 =>
            if negb (is_chr "u" e) then
              match unescape e with
              | Some x => scanstring doc begin (pos + 2) r1 (x :: acc)
              | None => errmsg InvalidEscape doc pos
              end
            else
              match r1 with
              | h1 :: h2 :: h3 :: h4 :: ((_ :: _) as r5) =>
                  match hex4val h1 h2 h3 h4 with
                  | None => errmsg InvalidUnicodeEscape doc (S pos)
                  | Some u =>
                      match r5 with
                      | b :: v :: g1 :: g2 :: g3 :: g4 :: ((_ :: _) as r11) =>
                          if is_high_surrogate u && is_chr "\" b
                             && is_chr "u" v
                          then
                            match hex4val g1 g2 g3 g4 with
                            | None => errmsg InvalidUnicodeEscape doc (pos + 7)
                            | Some u2 =>
                                if is_low_surrogate u2 then
                                  scanstring doc begin (pos + 12) r11
                                    ((65536 + (u - 55296) * 1024
                                      + (u2 - 56320))%N :: acc)
                                else scanstring doc begin (pos + 6) r5 (u :: acc)
                            end
                          else scanstring doc begin (pos + 6) r5 (u :: acc)
                      | _ => scanstring doc begin (pos + 6) r5 (u :: acc)
                      end
                  end
              | _ => errmsg InvalidUnicodeEscape doc (S pos)
              end
        end
      else if (c <=? 31)%N then errmsg InvalidControlCharacter doc pos
      else scanstring doc begin (S pos) r (c :: acc)
  end.

(** ** Numbers: [_match_number_unicode] *)

Fixpoint span_digits (s : str) : str * str :=
  match s with
  | c :: r =>
      if is_digit c then let '(d, t) := span_digits r in (c :: d, t)
      else ([], s)
  | [] => ([], [])
  end.

(** The integer part after the optional sign: one [0], or a non-zero digit
    and the digits after it. *)
Definition match_integer (s : str) : option (str * str) :=
  match s with
  | c :: r =>
      if is_chr "0" c then Some ([c], r)
      else if between 49 57 c then
        let '(d, t) := span_digits r in Some (c :: d, t)
      else None
  | [] => None
  end.

Definition match_fraction (s : str) : str * str :=
  match s with
  | dot :: ((d :: _) as r) =>
      if is_chr "." dot && is_digit d then
        let '(ds, t) := span_digits r in (dot :: ds, t)
      else ([], s)
  | _ => ([], s)
  end.

Definition match_exponent (s : str) : str * str :=
  match s with
  | e :: r =>
      if is_chr "e" e || is_chr "E" e then
        let '(sign, r') :=
          match r with
          | sg :: ((_ :: _) as r1) =>
              if is_chr "-" sg || is_chr "+" sg then ([sg], r1) else ([], r)
          | _ => ([], r)
          end in
        match span_digits r' with
        | ([], _) => ([], s)
        | (ds, t) => (e :: sign ++ ds, t)
        end
      else ([], s)
  | [] => ([], s)
  end.

(** The text of the number, whether it is a float, and what follows. *)
Definition match_number (s : str) : option (str * bool * str) :=
  let '(sign, s1) :=
    match s with
    | c :: r => if is_chr "-" c then ([c], r) else ([], s)
    | [] => ([], s)
    end in
  match match_integer s1 with
  | None => None
  | Some (int_part, s2) =>
      let '(frac, s3) := match_fraction s2 in
      let '(exp, s4) := match_exponent s3 in
      Some (sign ++ int_part ++ frac ++ exp,
            negb (Nat.eqb (List.length frac + List.length exp) 0), s4)
  end.

(** [PyLong_FromString] on the text of an integer: only the limit on the
    number of digits can fail. *)
Definition parse_int (max_str_digits : N) (lexeme : str) : result value :=
  let nd := N.of_nat (List.length (filter is_digit lexeme)) in
  if (640 <? nd)%N && (0 <? max_str_digits)%N && (max_str_digits <? nd)%N
  then Raise (digits_limit_error max_str_digits nd)
  else Ok (VInt lexeme).

(** ** Values: [scan_once_unicode], [_parse_object_unicode],
    [_parse_array_unicode]

    [depth] is how many more nested containers the interpreter's recursion
    limit allows; [fuel] bounds the number of rounds. *)
Section Scanner.
Variable max_str_digits : N.
Variable doc : str.

Definition recursion_error (what : string) : exn :=
  RecursionError
    (lit "maximum recursion depth exceeded while decoding a JSON "
       ++ lit what ++ lit " from a unicode string").

Definition constant (name : string) (v : value) (pos : nat) (s : str)
  : option (scan value) :=
  match strip_prefix (lit name) s with
  | Some rest => Some (Found v (pos + String.length name) rest)
  | None => None
  end.

Definition scan_number (pos : nat) (s : str) : scan value :=
  match match_number s with
  | None => StopIteration pos
  | Some (lexeme, is_float, rest) =>
      let pos' := (pos + List.length lexeme)%nat in
      if is_float then Found (VFloat lexeme) pos' rest
      else
        match parse_int max_str_digits lexeme with
        | Ok v => Found v pos' rest
        | Raise e => Error e
        end
  end.

Definition scan_atom (pos : nat) (s : str) : scan value :=
  let named :=
    match s with
    | c :: _ =>
        if is_chr "n" c then constant "null" VNone pos s
        else if is_chr "t" c then constant "true" (VBool true) pos s
        else if is_chr "f" c then constant "false" (VBool false) pos s
        else if is_chr "N" c then constant "NaN" (VFloat (lit "NaN")) pos s
        else if is_chr "I" c then
          constant "Infinity" (VFloat (lit "Infinity")) pos s
        else if is_chr "-" c then
          constant "-Infinity" (VFloat (lit "-Infinity")) pos s
        else None
    | [] => None
    end in
  match named with
  | Some r => r
  | None => scan_number pos s
  end.

Fixpoint scan_once (fuel depth : nat) (pos : nat) (s : str) {struct fuel}
  : scan value :=
  match fuel with
  | O => Exhausted
  | S fuel' =>
      match s with
      | [] => StopIteration pos
      | c :: r =>
          if is_quote c then
            match scanstring doc pos (S pos) r [] with
            | Found x pos' rest => Found (VStr x) pos' rest
            | Error e => Error e
            | StopIteration p => StopIteration p
            | Exhausted => Exhausted
            end
          else if is_chr "{" c then
            match depth with
            | O => Error (recursion_error "object")
            | S depth' =>
                let '(pos1, s1) := skip_ws (S pos) r in
                match s1 with
                | [] => object_loop fuel' depth' pos1 s1 []
                | c1 :: r1 =>
                    if is_chr "}" c1 then Found (VDict []) (S pos1) r1
                    else object_loop fuel' depth' pos1 s1 []
                end
            end
          else if is_chr "[" c then
            match depth with
            | O => Error (recursion_error "array")
            | S depth' =>
                let '(pos1, s1) := skip_ws (S pos) r in
                match s1 with
                | [] => array_loop fuel' depth' pos1 s1 []
                | c1 :: r1 =>
                    if is_chr "]" c1 then Found (VList []) (S pos1) r1
                    else array_loop fuel' depth' pos1 s1 []
                end
            end
          else scan_atom pos s
      end
  end

with object_loop (fuel depth : nat) (pos : nat) (s : str)
                 (acc : list (str * value)) {struct fuel} : scan value :=
  match fuel with
  | O => Exhausted
  | S fuel' =>
      match s with
      | [] => errmsg ExpectingPropertyName doc pos
      | q :: r =>
          if negb (is_quote q) then errmsg ExpectingPropertyName doc pos
          else
            match scanstring doc pos (S pos) r [] with
            | Error e => Error e
            | StopIteration p => StopIteration p
            | Exhausted => Exhausted
            | Found key pos1 s1 =>
                let '(pos2, s2) := skip_ws pos1 s1 in
                match s2 with
                | [] => errmsg ExpectingColon doc pos2
                | colon :: r2 =>
                    if negb (is_chr ":" colon) then
                      errmsg ExpectingColon doc pos2
                    else
                      let '(pos3, s3) := skip_ws (S pos2) r2 in
                      match scan_once fuel' depth pos3 s3 with
                      | Error e => Error e
                      | StopIteration p => StopIteration p
                      | Exhausted => Exhausted
                      | Found v pos4 s4 =>
                          let acc' := dict_set acc key v in
                          let '(pos5, s5) := skip_ws pos4 s4 in
                          match s5 with
                          | [] => errmsg ExpectingComma doc pos5
                          | d :: r5 =>
                              if is_chr "}" d then
                                Found (VDict acc') (S pos5) r5
                              else if is_chr "," d then
                                let '(pos6, s6) := skip_ws (S pos5) r5 in
                                object_loop fuel' depth pos6 s6 acc'
                              else errmsg ExpectingComma doc pos5
                          end
                      end
                end
            end
      end
  end

with array_loop (fuel depth : nat) (pos : nat) (s : str) (acc : list value)
                {struct fuel} : scan value :=
  match fuel with
  | O => Exhausted
  | S fuel' =>
      match scan_once fuel' depth pos s with
      | Error e => Error e
      | StopIteration p => StopIteration p
      | Exhausted => Exhausted
      | Found v pos1 s1 =>
          let acc' := acc ++ [v] in
          let '(pos2, s2) := skip_ws pos1 s1 in
          match s2 with
          | [] => errmsg ExpectingComma doc pos2
          | d :: r2 =>
              if is_chr "]" d then Found (VList acc') (S pos2) r2
              else if is_chr "," d then
                let '(pos3, s3) := skip_ws (S pos2) r2 in
                array_loop fuel' depth pos3 s3 acc'
              else errmsg ExpectingComma doc pos2
          end
      end
  end.

End Scanner.

(** What every scanner routine keeps, for a text of [n] characters: a value
    found leaves less text, an exception has a description, and the bound on
    the rounds is not met. *)
Definition scan_ok {A} (n : nat) (r : scan A) : Prop :=
  match r with
  | Found _ _ rest => (List.length rest < n)%nat
  | Error e => exn_str e <> []
  | StopIteration _ => True
  | Exhausted => False
  end.

(** ** Text from bytes: [detect_encoding] and [bytes.decode] *)

Inductive encoding :=
| UTF8 | UTF8_SIG | UTF16 | UTF16_LE | UTF16_BE | UTF32 | UTF32_LE | UTF32_BE.

Definition detect_encoding (b : bytes) : encoding :=
  match map Byte.to_N (firstn 4 b) with
  | [0; 0; 254; 255]%N | [255; 254; 0; 0]%N => UTF32
  | 254%N :: 255%N :: _ | 255%N :: 254%N :: _ => UTF16
  | 239%N :: 187%N :: 191%N :: _ => UTF8_SIG
  | [b0; b1; b2; b3] =>
      if (b0 =? 0)%N then if (b1 =? 0)%N then UTF32_BE else UTF16_BE
      else if (b1 =? 0)%N then
        if (b2 =? 0)%N && (b3 =? 0)%N then UTF32_LE else UTF16_LE
      else UTF8
  | [b0; b1] =>
      if Nat.eqb (List.length b) 2 then
        if (b0 =? 0)%N then UTF16_BE
        else if (b1 =? 0)%N then UTF16_LE
        else UTF8
      else UTF8
  | _ => UTF8
  end.

(** [b.decode(enc, 'surrogatepass')].  The codecs [utf-16] and [utf-32] are
    only chosen for a body that starts with their byte order mark, which
    they consume. *)
Definition decode (enc : encoding) (b : bytes) : result str :=
  match enc with
  | UTF8 => utf8_decode_surrogatepass b
  | UTF8_SIG => utf8_decode_surrogatepass (skipn 3 b)
  | UTF16_LE => utf16_decode_from true "utf-16-le" b 0 b
  | UTF16_BE => utf16_decode_from false "utf-16-be" b 0 b
  | UTF16 =>
      match b with
      | b0 :: _ =>
          if (Byte.to_N b0 =? 255)%N
          then utf16_decode_from true "utf-16-le" b 2 (skipn 2 b)
          else utf16_decode_from false "utf-16-be" b 2 (skipn 2 b)
      | [] => Ok []
      end
  | UTF32_LE => utf32_decode_from true "utf-32-le" b 0 b
  | UTF32_BE => utf32_decode_from false "utf-32-be" b 0 b
  | UTF32 =>
      match b with
      | b0 :: _ =>
          if (Byte.to_N b0 =? 255)%N
          then utf32_decode_from true "utf-32-le" b 4 (skipn 4 b)
          else utf32_decode_from false "utf-32-be" b 4 (skipn 4 b)
      | [] => Ok []
      end
  end.

(** ** [json.loads] on a [bytes] object

    [JSONDecoder.decode]: white space, one value, white space, end. *)
Definition decode_document (max_str_digits : N) (depth : nat) (s : str)
  : result value :=
  let '(pos0, s0) := skip_ws 0 s in
  match scan_once max_str_digits s (S (2 * List.length s0)) depth pos0 s0 with
  | Found v pos1 s1 =>
      match skip_ws pos1 s1 with
      | (_, []) => Ok v
      | (pos2, _ :: _) => Raise (JSONDecodeError ExtraData s pos2)
      end
  | Error e => Raise e
  | StopIteration p => Raise (JSONDecodeError ExpectingValue s p)
  | Exhausted => Raise (recursion_error "value")
  end.

Definition loads (max_str_digits : N) (depth : nat) (b : bytes)
  : result value :=
  rbind (decode (detect_encoding b) b) (decode_document max_str_digits depth).

(** ** [json.dumps] on a [dict] from [str] to [str]

    [ascii_escape_unicode]: printable ASCII but the backslash and the double
    quote stays; the rest is escaped, above the basic plane as a surrogate
    pair. *)
Definition u_escape (c : N) : str := lit "\u" ++ hex4 c.

Definition escape_char (c : N) : str :=
  if between 32 126 c && negb (is_chr "\" c) && negb (is_quote c) then [c]
  else if is_chr "\" c || is_quote c then [chr "\"; c]
  else if (c =? 8)%N then lit "\b"
  else if (c =? 12)%N then lit "\f"
  else if (c =? 10)%N then lit "\n"
  else if (c =? 13)%N then lit "\r"
  else if (c =? 9)%N then lit "\t"
  else if (65536 <=? c)%N then
    u_escape (55296 + (c - 65536) / 1024) ++ u_escape (56320 + (c - 65536) mod 1024)
  else u_escape c.

Definition encode_basestring_ascii (s : str) : str :=
  [34%N] ++ flat_map escape_char s ++ [34%N].

Fixpoint join_items (items : list (str * str)) : str :=
  match items with
  | [] => []
  | [(k, v)] =>
      encode_basestring_ascii k ++ lit ": " ++ encode_basestring_ascii v
  | (k, v) :: r =>
      encode_basestring_ascii k ++ lit ": " ++ encode_basestring_ascii v
        ++ lit ", " ++ join_items r
  end.

Definition dumps (items : list (str * str)) : str :=
  lit "{" ++ join_items items ++ lit "}".

End Json.

(* ===================================================================== *)
(** * What [http.server] and [urllib.request] give the handler *)
(* ===================================================================== *)

Module Http.
Import Py.

(** The parsed request line and headers of the inbound request ([self.command],
    [self.path], [self.headers]).  Header values are Latin-1 text. *)
Record request := {
  command : str;
  path : str;
  headers : list (str * str)
}.

(** [urllib.request.Request(url, headers=...)], by its two arguments: the
    [url] as the handler passes it on (the object keeps its text without
    the wrapping that [unwrap] removes) and the headers the handler
    sets. *)
Record Request := {
  full_url : value;
  request_headers : list (str * str)
}.

(** The object [urlopen] returns: [read()] gives the body or raises. *)
Record HTTPResponse := {
  read : result bytes
}.

(** The surroundings of one run.  The network: what [urlopen] answers.
    Two interpreter limits: [sys.get_int_max_str_digits()] and the number
    of nested JSON containers the recursion limit leaves.  The memory:
    whether a byte string of [n] bytes can be allocated.  Three library
    functions that are not modelled: [str(v)] for [v] a float or a
    non-empty list or dict (it can raise [RecursionError]),
    [str.isprintable] for a character above Latin-1, and [request_host] of
    [urllib.request], which calls [urlparse] on the full address and so
    can raise [ValueError] (brackets that do not match in the host, a host
    that is refused after NFKC normalisation). *)
Record world := {
  urlopen : Request -> result HTTPResponse;
  max_str_digits : N;
  recursion_depth : nat;
  can_allocate : N -> bool;
  str_of : value -> result str;
  isprintable : N -> bool;
  request_host : str -> result str
}.

(** What the handler does to the connection, in order.  [SendResponse] is
    the status line (with it the library writes its [Server] and [Date]
    headers and logs the request: neither is recorded), [SendHeader] one
    header line, [EndHeaders] the blank line that ends the headers, [Write]
    a piece of the body. *)
Inductive event :=
| SendResponse (code : N)
| SendHeader (keyword value : str)
| EndHeaders
| Write (data : bytes).

(** The state a handler method runs in: the unread part of the request
    stream (up to its end), what was sent so far, and the outbound requests
    opened so far. *)
Record state := {
  rfile : bytes;
  sent : list event;
  opened : list Request
}.

(** A method body: it returns or raises, and leaves a state either way. *)
Definition M (A : Type) := state -> result A * state.

Definition ret {A} (a : A) : M A := fun st => (Ok a, st).

Definition bind {A B} (m : M A) (k : A -> M B) : M B :=
  fun st =>
    match m st with
    | (Ok a, st') => k a st'
    | (Raise e, st') => (Raise e, st')
    end.

Definition lift {A} (r : result A) : M A := fun st => (r, st).

(** [try: m  except Exception as e: h e]. *)
Definition try_except {A} (m : M A) (h : exn -> M A) : M A :=
  fun st =>
    match m st with
    | (Ok a, st') => (Ok a, st')
    | (Raise e, st') => h e st'
    end.

(** State updates: more events sent, one more outbound request, the stream
    read [k] bytes further. *)
Definition add_sent (evs : list event) (st : state) : state :=
  {| rfile := rfile st; sent := sent st ++ evs; opened := opened st |}.

Definition add_opened (req : Request) (st : state) : state :=
  {| rfile := rfile st; sent := sent st; opened := opened st ++ [req] |}.

Definition advance (k : nat) (st : state) : state :=
  {| rfile := skipn k (rfile st); sent := sent st; opened := opened st |}.

Definition emit (e : event) : M unit :=
  fun st => (Ok tt, add_sent [e] st).

Definition send_response (code : N) : M unit := emit (SendResponse code).
Definition send_header (keyword value : str) : M unit :=
  emit (SendHeader keyword value).
Definition end_headers : M unit := emit EndHeaders.
Definition wfile_write (data : bytes) : M unit := emit (Write data).

(** [str.lower] on a header name (header names are ASCII). *)
Definition lower (s : str) : str :=
  map (fun c => if between 65 90 c then (c + 32)%N else c) s.

(** [self.headers[name]]: the first header of that name, compared without
    case, or [None]. *)
Fixpoint get_header (hs : list (str * str)) (name : str) : option str :=
  match hs with
  | [] => None
  | (k, v) :: r =>
      if str_eqb (lower k) (lower name) then Some v else get_header r name
  end.

(** [self.rfile.read(n)] on the buffered reader of the connection.  For
    [n >= 0] a byte string of [n] bytes is allocated before anything is
    read ([PyBytes_FromStringAndSize]): that fails with [OverflowError]
    when [n] and the object header do not fit the address space, and with
    [MemoryError] when the memory is not there.  [read(-1)] reads to the
    end of the stream. *)
Definition rfile_read (w : world) (n : Z) : M bytes :=
  fun st =>
    if ((n <? - 2 ^ 63) || (2 ^ 63 - 1 <? n))%Z then
      (Raise (OverflowError (lit "cannot fit 'int' into an index-sized integer")),
       st)
    else if (n <? -1)%Z then
      (Raise (ValueError (lit "read length must be non-negative or -1")), st)
    else if (n =? -1)%Z then
      (Ok (rfile st), advance (List.length (rfile st)) st)
    else if (2 ^ 63 - 33 <=? n)%Z then
      (Raise (OverflowError (lit "byte string is too large")), st)
    else if can_allocate w (Z.to_N n) then
      (Ok (firstn (Z.to_nat n) (rfile st)), advance (Z.to_nat n) st)
    else (Raise MemoryError, st).

(** ** [urllib.request.Request(url, headers=headers)]

    The constructor sets [full_url], which parses the address, stores the
    headers and calls [request_host]. *)

(** [str.strip()]: the white space of [Py_UNICODE_ISSPACE]. *)
Definition is_unicode_space (c : N) : bool :=
  between 9 13 c || between 28 32 c || (c =? 133)%N || (c =? 160)%N
  || (c =? 5760)%N || between 8192 8202 c || (c =? 8232)%N || (c =? 8233)%N
  || (c =? 8239)%N || (c =? 8287)%N || (c =? 12288)%N.

Fixpoint lstrip (s : str) : str :=
  match s with
  | c :: r => if is_unicode_space c then lstrip r else s
  | [] => []
  end.

Definition strip (s : str) : str := rev (lstrip (rev (lstrip s))).

(** [urllib.parse.unwrap]: the text of the address, without the white
    space around it, the angle brackets and the prefix [URL:]. *)
Definition unwrap (url : str) : str :=
  let url := strip url in
  let url :=
    match url with
    | 60%N :: _ =>
        if (last url 0 =? 62)%N then strip (removelast (tl url)) else url
    | _ => url
    end in
  match Json.strip_prefix (lit "URL:") url with
  | Some rest => strip rest
  | None => url
  end.

(** [url.rpartition('#')]: the text before the last [#] and the text after
    it, when there is one. *)
Fixpoint rpartition_hash (s : str) : option (str * str) :=
  match s with
  | [] => None
  | c :: r =>
      match rpartition_hash r with
      | Some (path, tag) => Some (c :: path, tag)
      | None => if (c =? 35)%N then Some ([], r) else None
      end
  end.

(** [_splittag]. *)
Definition splittag (url : str) : str * option str :=
  match rpartition_hash url with
  | Some (path, tag) => (path, Some tag)
  | None => (url, None)
  end.

(** The property [full_url]: the fragment is put back when it is not
    empty. *)
Definition join_fragment (path : str) (fragment : option str) : str :=
  match fragment with
  | Some (c :: f) => path ++ 35%N :: c :: f
  | _ => path
  end.

(** [_splittype]: whether the pattern of a scheme (one or more characters
    other than a slash and a colon, then a colon) matches at the head of
    [url], that is whether a colon comes before any slash, and not first. *)
Fixpoint colon_first (url : str) : bool :=
  match url with
  | [] => false
  | c :: r =>
      if (c =? 58)%N then true
      else if (c =? 47)%N then false
      else colon_first r
  end.

Definition has_type (url : str) : bool :=
  match url with
  | c :: _ => negb (c =? 58)%N && colon_first url
  | [] => false
  end.

(** [str(url)] in [unwrap]: a [str] is itself, [None], a [bool] and an
    [int] are written as Python writes them ([-0] is [0]), the rest is the
    world's. *)
Definition url_text (w : world) (url : value) : result str :=
  match url with
  | VStr s => Ok s
  | VNone => Ok (lit "None")
  | VBool true => Ok (lit "True")
  | VBool false => Ok (lit "False")
  | VInt lexeme => Ok (if str_eqb lexeme (lit "-0") then lit "0" else lexeme)
  | VList [] => Ok (lit "[]")
  | VDict [] => Ok (lit "{}")
  | _ => str_of w url
  end.

(** The constructor.  It raises [ValueError] for an address without a
    scheme, and what [request_host] raises. *)
Definition new_Request (w : world) (url : value) (headers : list (str * str))
  : result Request :=
  rbind (url_text w url) (fun text =>
    let '(path, fragment) := splittag (unwrap text) in
    if has_type path then
      rbind (request_host w (join_fragment path fragment)) (fun _ =>
        Ok {| full_url := url; request_headers := headers |})
    else
      Raise (ValueError
               (lit "unknown url type: "
                  ++ repr_any (isprintable w) (join_fragment path fragment)))).

(** [urllib.request.urlopen(req)]: the request is recorded, the world
    answers. *)
Definition open_url (w : world) (req : Request) : M HTTPResponse :=
  fun st => (urlopen w req, add_opened req st).

(** ** Responses as the client sees them *)
Record response := {
  status : N;
  response_headers : list (str * str);
  body : bytes
}.

(** The responses so far, the current one first. *)
Definition add_event (rs : list response) (e : event) : list response :=
  match e, rs with
  | SendResponse code, _ =>
      {| status := code; response_headers := []; body := [] |} :: rs
  | SendHeader k v, cur :: rs' =>
      {| status := status cur;
         response_headers := response_headers cur ++ [(k, v)];
         body := body cur |} :: rs'
  | Write data, cur :: rs' =>
      {| status := status cur; response_headers := response_headers cur;
         body := body cur ++ data |} :: rs'
  | _, _ => rs
  end.

Definition responses (t : list event) : list response :=
  rev (fold_left add_event t []).

(** How often a header occurs in a response. *)
Definition header_count (k v : str) (r : response) : nat :=
  List.length
    (filter (fun h => str_eqb (fst h) k && str_eqb (snd h) v)
            (response_headers r)).

(** How often a header name occurs in a response. *)
Definition name_count (k : str) (r : response) : nat :=
  List.length
    (filter (fun h => str_eqb (lower (fst h)) (lower k)) (response_headers r)).

End Http.

(* ===================================================================== *)
(** * [proxy_server.py]: class [ProxyHandler] *)
(* ===================================================================== *)

Module Proxy.
Import Py Codec Http.

Declare Scope handler_scope.
Delimit Scope handler_scope with handler.
Notation "x <- m ;; k" := (bind m (fun x => k))
  (at level 61, m at next level, right associativity) : handler_scope.
Notation "m ;; k" := (bind m (fun _ => k))
  (at level 61, right associativity) : handler_scope.
Local Open Scope handler_scope.

Definition user_agent : str :=
  lit "Mozilla/5.0 (Windows NT 10.0; Win64; x64) AppleWebKit/537.36 (KHTML, like Gecko) Chrome/91.0.4472.124 Safari/537.36".

Definition send_cors_headers : M unit :=
  send_header (lit "Access-Control-Allow-Origin") (lit "*") ;;
  send_header (lit "Access-Control-Allow-Methods") (lit "GET, POST, OPTIONS") ;;
  send_header (lit "Access-Control-Allow-Headers") (lit "Content-Type").

Definition do_OPTIONS (self : request) : M unit :=
  send_response 200 ;;
  send_cors_headers ;;
  end_headers.

Definition send_error_response (error_message : str) : M unit :=
  send_response 500 ;;
  send_cors_headers ;;
  send_header (lit "Content-Type") (lit "application/json") ;;
  end_headers ;;
  let response_data :=
    Json.dumps [(lit "status", lit "error"); (lit "message", error_message)] in
  data <- lift (utf8_encode response_data) ;;
  wfile_write data.

(** The first two statements of [do_POST] ("Read the request body"). *)
Definition read_request_body (w : world) (self : request) : M bytes :=
  content_length <-
    lift (int (max_str_digits w)
              (get_header (headers self) (lit "Content-Length"))) ;;
  rfile_read w content_length.

(** The body of the [try] statement of [do_POST]. *)
Definition do_POST_try (w : world) (self : request) : M unit :=
  (* Read the request body *)
  post_data <- read_request_body w self ;;
  parsed <- lift (Json.loads (max_str_digits w) (recursion_depth w) post_data) ;;
  url <- lift (getitem parsed (lit "url")) ;;
  (* Set up headers for the request *)
  let headers := [(lit "User-Agent", user_agent)] in
  (* Make the request *)
  req <- lift (new_Request w url headers) ;;
  response <- open_url w req ;;
  raw <- lift (read response) ;;
  website_content <- lift (utf8_decode raw) ;;
  (* Send response *)
  send_response 200 ;;
  send_cors_headers ;;
  send_header (lit "Content-Type") (lit "application/json") ;;
  end_headers ;;
  (* Send the website content *)
  let response_data :=
    Json.dumps [(lit "content", website_content); (lit "status", lit "success")] in
  data <- lift (utf8_encode response_data) ;;
  wfile_write data.

(** The two [except] clauses: [URLError] (with its subclass [HTTPError])
    first, then every other [Exception]. *)
Definition do_POST (w : world) (self : request) : M unit :=
  try_except (do_POST_try w self)
    (fun e =>
       match e with
       | URLError _ | HTTPError _ _ => send_error_response (exn_str e)
       | _ => send_error_response (exn_str e)
       end).

(** A fresh connection whose request stream holds [stream]. *)
Definition connection (stream : bytes) : state :=
  {| rfile := stream; sent := []; opened := [] |}.

End Proxy.

(* ===================================================================== *)
(** * The shapes the specification names *)
(* ===================================================================== *)

Module Shape.
Import Py Codec Http Proxy.

(** The bytes of a text of ASCII characters. *)
Definition ascii_bytes (s : str) : bytes := map byte_of s.

Definition cors_headers : list (str * str) :=
  [(lit "Access-Control-Allow-Origin", lit "*");
   (lit "Access-Control-Allow-Methods", lit "GET, POST, OPTIONS");
   (lit "Access-Control-Allow-Headers", lit "Content-Type")].

Definition content_type_json : str * str :=
  (lit "Content-Type", lit "application/json").

(** [{"content": text, "status": "success"}] with status 200. *)
Definition success_object (text : str) : list (str * str) :=
  [(lit "content", text); (lit "status", lit "success")].

Definition success_response (text : str) : response :=
  {| status := 200;
     response_headers := cors_headers ++ [content_type_json];
     body := ascii_bytes (Json.dumps (success_object text)) |}.

(** [{"status": "error", "message": message}] with status 500. *)
Definition error_object (message : str) : list (str * str) :=
  [(lit "status", lit "error"); (lit "message", message)].

Definition error_response (message : str) : response :=
  {| status := 500;
     response_headers := cors_headers ++ [content_type_json];
     body := ascii_bytes (Json.dumps (error_object message)) |}.

(** The answer to a preflight request. *)
Definition preflight_response : response :=
  {| status := 200; response_headers := cors_headers; body := [] |}.

(** Each of the three cross-origin headers occurs once in [r], by name and
    with its value. *)
Definition cors_once (r : response) : Prop :=
  Forall (fun h => name_count (fst h) r = 1%nat
                   /\ header_count (fst h) (snd h) r = 1%nat)
         cors_headers.

(** What the handler does to send a response without a body, and one with
    its body written in one piece. *)
Definition head_events (r : response) : list event :=
  SendResponse (status r)
    :: map (fun h => SendHeader (fst h) (snd h)) (response_headers r)
    ++ [EndHeaders].

Definition response_events (r : response) : list event :=
  head_events r ++ [Write (body r)].

(** A text of ASCII characters. *)
Definition ascii_text (s : str) : Prop := Forall (fun c => (c < 128)%N) s.

(** The outbound request for an address. *)
Definition outbound (url : value) : Request :=
  {| full_url := url; request_headers := [(lit "User-Agent", user_agent)] |}.

(** What the constructor makes of an address with the headers of the
    handler: [outbound url], or what it raises. *)
Definition request_for (w : world) (url : value) : result Request :=
  new_Request w url [(lit "User-Agent", user_agent)].

(** A JSON object as a client of the relay reads it: a [dict] whose values
    are the given strings. *)
Definition as_dict (items : list (str * str)) : value :=
  VDict (map (fun kv => (fst kv, VStr (snd kv))) items).

(** The items stored one by one into a [dict], as the scanner does. *)
Definition store_items (items : list (str * str)) (d : list (str * value))
  : list (str * value) :=
  fold_left (fun d kv => dict_set d (fst kv) (VStr (snd kv))) items d.

(** [Content-Length = 1*DIGIT], the header value HTTP allows. *)
Definition valid_content_length (v : str) : bool :=
  negb (Nat.eqb (List.length v) 0) && forallb is_digit v.

(** Well-formed UTF-8: the encoding of a text without surrogates. *)
Definition valid_utf8 (b : bytes) : Prop :=
  exists text, scalar_text text /\ utf8_encode text = Ok b.

Definition is_dict (v : value) : bool :=
  match v with
  | VDict _ => true
  | _ => false
  end.

(** ** JSON texts, after RFC 8259 *)

(** [ws]: space, tab, line feed, carriage return. *)
Definition rfc_ws (c : N) : bool :=
  (c =? 32)%N || (c =? 9)%N || (c =? 10)%N || (c =? 13)%N.

Definition json_ws (s : str) : Prop := Forall (fun c => rfc_ws c = true) s.

(** [unescaped]: from the space on, but the quotation mark and the
    backslash. *)
Definition rfc_unescaped (c : N) : bool :=
  (32 <=? c)%N && negb (c =? 34)%N && negb (c =? 92)%N.

(** The character that a backslash and [e] stand for: the quotation mark,
    the backslash, the slash, and [b], [f], [n], [r], [t]. *)
Definition rfc_escape (e : N) : option N :=
  if (e =? 34)%N then Some 34%N
  else if (e =? 92)%N then Some 92%N
  else if (e =? 47)%N then Some 47%N
  else if (e =? 98)%N then Some 8%N
  else if (e =? 102)%N then Some 12%N
  else if (e =? 110)%N then Some 10%N
  else if (e =? 114)%N then Some 13%N
  else if (e =? 116)%N then Some 9%N
  else None.

(** [HEXDIG], in either case, and the number four of them write. *)
Definition rfc_hexdig (c : N) : option N :=
  if between 48 57 c then Some (c - 48)%N
  else if between 65 70 c then Some (c - 55)%N
  else if between 97 102 c then Some (c - 87)%N
  else None.

Definition rfc_hex4 (h1 h2 h3 h4 : N) : option N :=
  match rfc_hexdig h1, rfc_hexdig h2, rfc_hexdig h3, rfc_hexdig h4 with
  | Some a, Some b, Some c, Some d => Some (4096 * a + 256 * b + 16 * c + d)%N
  | _, _, _, _ => None
  end.



(** The grammar of all JSON texts.  The characters of a string: *)
Inductive json_string_chars : str -> Prop :=
| string_nil : json_string_chars []
| string_plain c t :
    rfc_unescaped c = true -> json_string_chars t -> json_string_chars (c :: t)
| string_escape e t :
    rfc_escape e <> None -> json_string_chars t ->
    json_string_chars (92 :: e :: t)%N
| string_unicode h1 h2 h3 h4 t :
    rfc_hex4 h1 h2 h3 h4 <> None -> json_string_chars t ->
    json_string_chars (92 :: 117 :: h1 :: h2 :: h3 :: h4 :: t)%N.

(** Numbers: [[ minus ] int [ frac ] [ exp ]]. *)
Definition json_digits (s : str) : Prop :=
  s <> [] /\ Forall (fun c => is_digit c = true) s.

Definition json_int (s : str) : Prop :=
  s = [48%N]
  \/ exists c r, s = c :: r /\ between 49 57 c = true
                 /\ Forall (fun c => is_digit c = true) r.

Definition json_frac (s : str) : Prop :=
  s = [] \/ exists d, s = 46%N :: d /\ json_digits d.

Definition json_exp (s : str) : Prop :=
  s = []
  \/ exists e sign d,
       s = e :: sign ++ d /\ (e = 101%N \/ e = 69%N)
       /\ (sign = [] \/ sign = [43%N] \/ sign = [45%N]) /\ json_digits d.

Definition json_number (s : str) : Prop :=
  exists minus i f e,
    s = minus ++ i ++ f ++ e /\ (minus = [] \/ minus = [45%N])
    /\ json_int i /\ json_frac f /\ json_exp e.

(** Values, the elements of an array and the members of an object, each
    with the white space around it. *)
Inductive json_value : str -> Prop :=
| value_false : json_value (lit "false")
| value_null : json_value (lit "null")
| value_true : json_value (lit "true")
| value_number s : json_number s -> json_value s
| value_string t : json_string_chars t -> json_value (34%N :: t ++ [34%N])
| value_empty_array w : json_ws w -> json_value (91%N :: w ++ [93%N])
| value_array es : json_elements es -> json_value (91%N :: es ++ [93%N])
| value_empty_object w : json_ws w -> json_value (123%N :: w ++ [125%N])
| value_object ms : json_members ms -> json_value (123%N :: ms ++ [125%N])
with json_elements : str -> Prop :=
| elements_last w1 v w2 :
    json_ws w1 -> json_value v -> json_ws w2 -> json_elements (w1 ++ v ++ w2)
| elements_cons w1 v w2 es :
    json_ws w1 -> json_value v -> json_ws w2 -> json_elements es ->
    json_elements (w1 ++ v ++ w2 ++ 44%N :: es)
with json_members : str -> Prop :=
| members_last w1 k w2 w3 v w4 :
    json_ws w1 -> json_string_chars k -> json_ws w2 -> json_ws w3 ->
    json_value v -> json_ws w4 ->
    json_members (w1 ++ 34%N :: k ++ 34%N :: w2 ++ 58%N :: w3 ++ v ++ w4)
| members_cons w1 k w2 w3 v w4 ms :
    json_ws w1 -> json_string_chars k -> json_ws w2 -> json_ws w3 ->
    json_value v -> json_ws w4 -> json_members ms ->
    json_members (w1 ++ 34%N :: k ++ 34%N :: w2 ++ 58%N :: w3 ++ v ++ w4
                     ++ 44%N :: ms).

Scheme json_value_mut := Induction for json_value Sort Prop
  with json_elements_mut := Induction for json_elements Sort Prop
  with json_members_mut := Induction for json_members Sort Prop.

Combined Scheme json_grammar_ind
  from json_value_mut, json_elements_mut, json_members_mut.

Definition json_text (s : str) : Prop :=
  exists w1 v w2, json_ws w1 /\ json_value v /\ json_ws w2 /\ s = w1 ++ v ++ w2.

(** A body that is valid JSON: the UTF-8 encoding of a JSON text. *)
Definition valid_json (b : bytes) : Prop :=
  exists doc, scalar_text doc /\ utf8_encode doc = Ok b /\ json_text doc.

(** The texts [json.loads] is written to take: those of the grammar and,
    as values, the three constants [NaN], [Infinity] and [-Infinity]. *)
Inductive pyjson_value : str -> Prop :=
| pv_false : pyjson_value (lit "false")
| pv_null : pyjson_value (lit "null")
| pv_true : pyjson_value (lit "true")
| pv_nan : pyjson_value (lit "NaN")
| pv_infinity : pyjson_value (lit "Infinity")
| pv_minus_infinity : pyjson_value (lit "-Infinity")
| pv_number s : json_number s -> pyjson_value s
| pv_string t : json_string_chars t -> pyjson_value (34%N :: t ++ [34%N])
| pv_empty_array w : json_ws w -> pyjson_value (91%N :: w ++ [93%N])
| pv_array es : pyjson_elements es -> pyjson_value (91%N :: es ++ [93%N])
| pv_empty_object w : json_ws w -> pyjson_value (123%N :: w ++ [125%N])
| pv_object ms : pyjson_members ms -> pyjson_value (123%N :: ms ++ [125%N])
with pyjson_elements : str -> Prop :=
| pe_last w1 v w2 :
    json_ws w1 -> pyjson_value v -> json_ws w2 ->
    pyjson_elements (w1 ++ v ++ w2)
| pe_cons w1 v w2 es :
    json_ws w1 -> pyjson_value v -> json_ws w2 -> pyjson_elements es ->
    pyjson_elements (w1 ++ v ++ w2 ++ 44%N :: es)
with pyjson_members : str -> Prop :=
| pm_last w1 k w2 w3 v w4 :
    json_ws w1 -> json_string_chars k -> json_ws w2 -> json_ws w3 ->
    pyjson_value v -> json_ws w4 ->
    pyjson_members (w1 ++ 34%N :: k ++ 34%N :: w2 ++ 58%N :: w3 ++ v ++ w4)
| pm_cons w1 k w2 w3 v w4 ms :
    json_ws w1 -> json_string_chars k -> json_ws w2 -> json_ws w3 ->
    pyjson_value v -> json_ws w4 -> pyjson_members ms ->
    pyjson_members (w1 ++ 34%N :: k ++ 34%N :: w2 ++ 58%N :: w3 ++ v ++ w4
                       ++ 44%N :: ms).

Definition pyjson_text (s : str) : Prop :=
  exists w1 v w2,
    json_ws w1 /\ pyjson_value v /\ json_ws w2 /\ s = w1 ++ v ++ w2.

(** ** The integer literals of [int()]

    In a Latin-1 text: white space, an optional sign, decimal digits with
    single underscores allowed between them, white space. *)
Definition int_space (c : N) : bool :=
  between 9 13 c || (c =? 32)%N || (c =? 133)%N || (c =? 160)%N.

(** What may follow a digit: nothing, a digit, or an underscore and a
    digit. *)
Inductive digit_tail : str -> Prop :=
| tail_nil : digit_tail []
| tail_digit c r : is_digit c = true -> digit_tail r -> digit_tail (c :: r)
| tail_underscore c r :
    is_digit c = true -> digit_tail r -> digit_tail (95%N :: c :: r).

Definition int_literal (v : str) : Prop :=
  exists before sign c r after,
    v = before ++ sign ++ c :: r ++ after
    /\ Forall (fun c => int_space c = true) before
    /\ (sign = [] \/ sign = [43%N] \/ sign = [45%N])
    /\ is_digit c = true /\ digit_tail r
    /\ Forall (fun c => int_space c = true) after.

End Shape.

(* ===================================================================== *)
(** * The scenarios of the specification *)
(* ===================================================================== *)

Module Scenario.
Import Py Codec Http Proxy Shape.

Definition hello_url : str := lit "http://example.test/hello".
Definition binary_url : str := lit "http://example.test/binary".
Definition closed_port_url : str := lit "http://127.0.0.1:1".

(** A network with two resources: one answers [Hello, world!], one answers
    three bytes that are no UTF-8; every other address refuses the
    connection. *)
Definition example_net (req : Request) : result HTTPResponse :=
  match full_url req with
  | VStr u =>
      if str_eqb u hello_url then Ok {| read := Ok (blit "Hello, world!") |}
      else if str_eqb u binary_url then Ok {| read := Ok [xff; xfe; x00] |}
      else Raise (URLError (lit "[Errno 111] Connection refused"))
  | _ => Raise (URLError (lit "[Errno 111] Connection refused"))
  end.

(** The interpreter's defaults, a gigabyte to allocate at most, a
    [request_host] that refuses no address, and stand-ins where no
    scenario looks: a float is written as it was read, [str] of a
    non-empty list or dict raises, and every character above Latin-1 is
    taken as printable. *)
Definition example_world : world :=
  {| urlopen := example_net;
     max_str_digits := 4300;
     recursion_depth := 900;
     can_allocate := fun n => (n <=? 1073741824)%N;
     str_of := fun v =>
       match v with
       | VFloat lexeme => Ok lexeme
       | _ =>
           Raise (RecursionError
                    (lit "maximum recursion depth exceeded while getting the repr of an object"))
       end;
     isprintable := fun _ => true;
     request_host := fun _ => Ok [] |}.

(** A POST with the given [Content-Length] header, or none. *)
Definition post (content_length : option str) : request :=
  {| command := lit "POST";
     path := lit "/";
     headers := match content_length with
                | Some v => [(lit "Content-Length", v)]
                | None => []
                end |}.

(** A POST whose [Content-Length] is the length of [data]. *)
Definition post_of (data : bytes) : request :=
  post (Some (dec (N.of_nat (List.length data)))).

(** The request body [{"url": u}]. *)
Definition url_body (u : str) : bytes :=
  ascii_bytes (Json.dumps [(lit "url", u)]).

(** The request body [{"url": "http://example.test/hello", "n": NaN}]:
    no JSON, for [NaN] is no JSON value. *)
Definition nan_text : str :=
  (123 :: 34 :: lit "url" ++ 34 :: lit ": " ++ 34 :: hello_url ++ 34
       :: lit ", " ++ 34 :: lit "n" ++ 34 :: lit ": NaN}")%N.

Definition nan_body : bytes := ascii_bytes nan_text.

Definition options : request :=
  {| command := lit "OPTIONS"; path := lit "/any/path"; headers := [] |}.

End Scenario.

(* ===================================================================== *)
(** * What the handler takes from a request *)
(* ===================================================================== *)

Module Effects.
Import Py Codec Http Proxy Shape.

(** The address the [try] body of [do_POST] takes from the request: the
    result of its first three statements, when none of them raises. *)
Definition requested_url (w : world) (self : request) (st : state)
  : option value :=
  match read_request_body w self st with
  | (Ok post_data, _) =>
      match Json.loads (max_str_digits w) (recursion_depth w) post_data with
      | Ok parsed =>
          match getitem parsed (lit "url") with
          | Ok url => Some url
          | Raise _ => None
          end
      | Raise _ => None
      end
  | (Raise _, _) => None
  end.

(** The number a string of decimal digits stands for. *)
Definition decimal_value (v : str) : Z :=
  fold_left (fun acc c => (10 * acc + Z.of_N (c - 48))%Z) v 0%Z.

(** The value of the last member named [k] among [items]. *)
Definition last_member (k : str) (items : list (str * str)) : option str :=
  fold_left (fun found kv => if str_eqb (fst kv) k then Some (snd kv) else found)
            items None.

(** A text of Latin-1 characters, as the header values are. *)
Definition latin1_text (s : str) : Prop := Forall (fun c => (c < 256)%N) s.

(** What a routine raises has an ASCII description. *)
Definition raises_ascii {A} (r : result A) : Prop :=
  match r with
  | Ok _ => True
  | Raise e => ascii_text (exn_str e)
  end.

Definition scan_raises_ascii {A} (r : Json.scan A) : Prop :=
  match r with
  | Json.Error e => ascii_text (exn_str e)
  | _ => True
  end.

(** A test that every JSON text passes: outside its strings it has only
    white space, the six structural characters, and the characters of
    numbers and of [false], [null] and [true]. *)
Inductive lex_state := Outside | Inside | Escaped.

Definition outside_char (c : N) : bool :=
  rfc_ws c || existsb (N.eqb c) (lit "[]{},:0123456789+-.eEfalsnrtu").

Definition lex_step (st : lex_state) (c : N) : option lex_state :=
  match st with
  | Outside =>
      if (c =? 34)%N then Some Inside
      else if outside_char c then Some Outside
      else None
  | Inside =>
      if (c =? 34)%N then Some Outside
      else if (c =? 92)%N then Some Escaped
      else Some Inside
  | Escaped => Some Inside
  end.

Fixpoint lex (st : lex_state) (s : str) : option lex_state :=
  match s with
  | [] => Some st
  | c :: r =>
      match lex_step st c with
      | Some st' => lex st' r
      | None => None
      end
  end.

End Effects.

(* ===================================================================== *)
(** * Properties *)
(* ===================================================================== *)

Import Py Codec Http Proxy Shape Scenario Effects.

Unset Implicit Arguments.
Local Open Scope N_scope.

(** ** The JSON text the relay writes is ASCII, so encoding it cannot fail *)

Lemma ascii_app a b : ascii_text a -> ascii_text b -> ascii_text (a ++ b).
Proof. unfold ascii_text. intros; apply Forall_app; auto. Qed.

Lemma ascii_lit (s : string) :
  forallb (fun c => c <? 128) (lit s) = true -> ascii_text (lit s).
Proof.
  unfold ascii_text. rewrite forallb_forall, Forall_forall.
  intros H c Hc. apply N.ltb_lt. auto.
Qed.

Lemma hexdigit_ascii d : d < 16 -> hexdigit d < 128.
Proof. unfold hexdigit. intros H. destruct (d <? 10); lia. Qed.

Lemma hex4_ascii c : ascii_text (hex4 c).
Proof.
  unfold hex4, ascii_text.
  repeat constructor; apply hexdigit_ascii; apply N.mod_lt; discriminate.
Qed.

Lemma u_escape_ascii c : ascii_text (Json.u_escape c).
Proof.
  unfold Json.u_escape. apply ascii_app; [now apply ascii_lit | apply hex4_ascii].
Qed.

Lemma escape_char_ascii c : ascii_text (Json.escape_char c).
Proof.
  unfold Json.escape_char, Json.is_chr, Json.is_quote, between.
  repeat match goal with
         | |- ascii_text (if ?b then _ else _) => destruct b eqn:?
         end;
    try (now apply ascii_lit);
    try (apply ascii_app; apply u_escape_ascii);
    try apply u_escape_ascii.
  - repeat constructor.
    repeat match goal with
           | H : _ && _ = true |- _ => apply andb_prop in H; destruct H
           end.
    apply N.leb_le in H2. lia.
  - apply orb_prop in Heqb0.
    repeat constructor; destruct Heqb0 as [H | H]; apply N.eqb_eq in H;
      rewrite H; reflexivity.
Qed.

Lemma encode_basestring_ascii_ascii s : ascii_text (Json.encode_basestring_ascii s).
Proof.
  unfold Json.encode_basestring_ascii.
  apply ascii_app; [repeat constructor|].
  apply ascii_app; [|repeat constructor].
  induction s as [|c s IH]; simpl; [constructor|].
  apply ascii_app; [apply escape_char_ascii | exact IH].
Qed.

Lemma join_items_ascii items : ascii_text (Json.join_items items).
Proof.
  induction items as [|[k v] r IH]; [constructor|].
  destruct r as [|kv r'].
  - change (Json.join_items [(k, v)])
      with (Json.encode_basestring_ascii k ++ lit ": "
              ++ Json.encode_basestring_ascii v).
    apply ascii_app; [apply encode_basestring_ascii_ascii|].
    apply ascii_app; [now apply ascii_lit|].
    apply encode_basestring_ascii_ascii.
  - change (Json.join_items ((k, v) :: kv :: r'))
      with (Json.encode_basestring_ascii k ++ lit ": "
              ++ Json.encode_basestring_ascii v ++ lit ", "
              ++ Json.join_items (kv :: r')).
    apply ascii_app; [apply encode_basestring_ascii_ascii|].
    apply ascii_app; [now apply ascii_lit|].
    apply ascii_app; [apply encode_basestring_ascii_ascii|].
    apply ascii_app; [now apply ascii_lit | exact IH].
Qed.

Lemma dumps_ascii items : ascii_text (Json.dumps items).
Proof.
  unfold Json.dumps.
  apply ascii_app; [now apply ascii_lit|].
  apply ascii_app; [apply join_items_ascii | now apply ascii_lit].
Qed.

Lemma utf8_encode_from_ascii obj s :
  ascii_text s -> forall pos, utf8_encode_from obj pos s = Ok (ascii_bytes s).
Proof.
  induction 1 as [|c s Hc Hs IH]; intros pos; [reflexivity|].
  simpl. apply N.ltb_lt in Hc. rewrite Hc, IH. reflexivity.
Qed.

Lemma utf8_encode_dumps items :
  utf8_encode (Json.dumps items) = Ok (ascii_bytes (Json.dumps items)).
Proof. apply utf8_encode_from_ascii, dumps_ascii. Qed.

(** ** Running the methods *)

Lemma add_sent_app a b st : add_sent b (add_sent a st) = add_sent (a ++ b) st.
Proof. unfold add_sent; simpl. now rewrite app_assoc. Qed.

Lemma add_sent_nil st : add_sent [] st = st.
Proof. destruct st; unfold add_sent; simpl. now rewrite app_nil_r. Qed.

Lemma send_cors_headers_run st :
  send_cors_headers st
  = (Ok tt,
     add_sent (map (fun h => SendHeader (fst h) (snd h)) cors_headers) st).
Proof.
  unfold send_cors_headers, bind, send_header, emit.
  now rewrite !add_sent_app.
Qed.

Lemma do_OPTIONS_run self st :
  do_OPTIONS self st = (Ok tt, add_sent (head_events preflight_response) st).
Proof.
  unfold do_OPTIONS, bind, send_response, end_headers, emit.
  rewrite send_cors_headers_run. now rewrite !add_sent_app.
Qed.

Lemma send_error_response_run message st :
  send_error_response message st
  = (Ok tt, add_sent (response_events (error_response message)) st).
Proof.
  unfold send_error_response, bind, send_response, send_header, end_headers,
    wfile_write, emit, lift.
  rewrite send_cors_headers_run.
  change (Json.dumps [(lit "status", lit "error"); (lit "message", message)])
    with (Json.dumps (error_object message)).
  rewrite utf8_encode_dumps. now rewrite !add_sent_app.
Qed.

(** A request that is made is the one for the address. *)
Lemma request_for_ok w url req : request_for w url = Ok req -> req = outbound url.
Proof.
  unfold request_for, new_Request, outbound.
  destruct (url_text w url) as [text|e]; cbn [rbind]; [|discriminate].
  destruct (splittag (unwrap text)) as [path fragment].
  destruct (has_type path); [|discriminate].
  destruct (request_host w _); cbn [rbind]; [|discriminate].
  intros H. apply (f_equal (fun r => match r with Ok a => a | Raise _ => outbound url end)) in H.
  now subst.
Qed.

(** The reply of the success path, once the text is there. *)
Lemma send_success_run text st :
  (send_response 200 ;;
   send_cors_headers ;;
   send_header (lit "Content-Type") (lit "application/json") ;;
   end_headers ;;
   data <- lift (utf8_encode (Json.dumps (success_object text))) ;;
   wfile_write data)%handler st
  = (Ok tt, add_sent (response_events (success_response text)) st).
Proof.
  unfold bind, send_response, send_header, end_headers, wfile_write, emit, lift.
  rewrite send_cors_headers_run.
  rewrite utf8_encode_dumps. now rewrite !add_sent_app.
Qed.

(** [do_POST_try], stage by stage. *)
Lemma do_POST_try_run w self st :
  do_POST_try w self st =
  match read_request_body w self st with
  | (Raise e, st1) => (Raise e, st1)
  | (Ok post_data, st1) =>
      match Json.loads (max_str_digits w) (recursion_depth w) post_data with
      | Raise e => (Raise e, st1)
      | Ok parsed =>
          match getitem parsed (lit "url") with
          | Raise e => (Raise e, st1)
          | Ok url =>
              match request_for w url with
              | Raise e => (Raise e, st1)
              | Ok _ =>
                  let st2 := add_opened (outbound url) st1 in
                  match urlopen w (outbound url) with
                  | Raise e => (Raise e, st2)
                  | Ok response =>
                      match read response with
                      | Raise e => (Raise e, st2)
                      | Ok raw =>
                          match utf8_decode raw with
                          | Raise e => (Raise e, st2)
                          | Ok text =>
                              (Ok tt,
                               add_sent
                                 (response_events (success_response text))
                                 st2)
                          end
                      end
                  end
              end
          end
      end
  end.
Proof.
  unfold do_POST_try. unfold bind at 1.
  destruct (read_request_body w self st) as [[post_data|e] st1]; [|reflexivity].
  unfold bind at 1, lift at 1.
  destruct (Json.loads _ _ post_data) as [parsed|e]; [|reflexivity].
  unfold bind at 1, lift at 1.
  destruct (getitem parsed (lit "url")) as [url|e]; [|reflexivity].
  unfold bind at 1, lift at 1. fold (request_for w url).
  destruct (request_for w url) as [req|e] eqn:Hreq; [|reflexivity].
  apply request_for_ok in Hreq. subst req.
  unfold bind at 1, open_url at 1.
  destruct (urlopen w (outbound url)) as [response|e]; [|reflexivity].
  unfold bind at 1, lift at 1.
  destruct (read response) as [raw|e]; [|reflexivity].
  unfold bind at 1, lift at 1.
  destruct (utf8_decode raw) as [text|e]; [|reflexivity].
  apply send_success_run.
Qed.

Lemma read_request_body_run w self st :
  read_request_body w self st =
  match int (max_str_digits w) (get_header (headers self) (lit "Content-Length"))
  with
  | Raise e => (Raise e, st)
  | Ok n => rfile_read w n st
  end.
Proof.
  unfold read_request_body, bind, lift.
  now destruct (int _ _).
Qed.

(** A read returns bytes from the head of the stream and moves past them,
    or raises and leaves the stream alone. *)
Lemma rfile_read_cases w n st :
  (exists k, rfile_read w n st = (Ok (firstn k (rfile st)), advance k st))
  \/ (exists e, rfile_read w n st = (Raise e, st)).
Proof.
  unfold rfile_read.
  destruct (_ || _)%bool; [right; eauto|].
  destruct (n <? -1)%Z; [right; eauto|].
  destruct (n =? -1)%Z.
  { left. exists (List.length (rfile st)). now rewrite firstn_all. }
  destruct (2 ^ 63 - 33 <=? n)%Z; [right; eauto|].
  destruct (can_allocate w (Z.to_N n)); [left | right]; eauto.
Qed.

(** Reading the body sends nothing and opens nothing. *)
Lemma read_request_body_quiet w self st r st1 :
  read_request_body w self st = (r, st1) ->
  sent st1 = sent st /\ opened st1 = opened st.
Proof.
  rewrite read_request_body_run.
  destruct (int _ _) as [n|e].
  - destruct (rfile_read_cases w n st) as [[k ->]|[e ->]];
      intros H; inversion H; subst; auto.
  - intros H; inversion H; subst; auto.
Qed.

(** A failure of the [try] body comes before anything is sent. *)
Lemma do_POST_try_failure_quiet w self st e st1 :
  do_POST_try w self st = (Raise e, st1) -> sent st1 = sent st.
Proof.
  rewrite do_POST_try_run.
  destruct (read_request_body w self st) as [[post_data|e0] st0] eqn:Hbody;
    apply read_request_body_quiet in Hbody; destruct Hbody as [Hs _].
  - destruct (Json.loads _ _ _); [|intros H; inversion H; subst; exact Hs].
    destruct (getitem _ _); [|intros H; inversion H; subst; exact Hs].
    destruct (request_for _ _); [|intros H; inversion H; subst; exact Hs].
    cbv zeta.
    destruct (urlopen _ _); [|intros H; inversion H; subst; exact Hs].
    destruct (read _); [|intros H; inversion H; subst; exact Hs].
    destruct (utf8_decode _); [|intros H; inversion H; subst; exact Hs].
    discriminate.
  - intros H; inversion H; subst; exact Hs.
Qed.

Lemma do_POST_run w self st :
  do_POST w self st =
  match do_POST_try w self st with
  | (Ok a, st') => (Ok a, st')
  | (Raise e, st') =>
      (Ok tt, add_sent (response_events (error_response (exn_str e))) st')
  end.
Proof.
  unfold do_POST, try_except.
  destruct (do_POST_try w self st) as [[a|e] st']; [reflexivity|].
  destruct e; apply send_error_response_run.
Qed.

Lemma responses_success text :
  responses (response_events (success_response text)) = [success_response text].
Proof. reflexivity. Qed.

Lemma responses_error message :
  responses (response_events (error_response message))
  = [error_response message].
Proof. reflexivity. Qed.

(** A failure of the [try] body on a fresh connection gives the error
    response and nothing else. *)
Lemma do_POST_failure w self stream e st1 :
  do_POST_try w self (connection stream) = (Raise e, st1) ->
  do_POST w self (connection stream)
  = (Ok tt, add_sent (response_events (error_response (exn_str e))) st1)
  /\ responses (sent (add_sent (response_events (error_response (exn_str e))) st1))
     = [error_response (exn_str e)].
Proof.
  intros H. rewrite do_POST_run, H. split; [reflexivity|].
  apply do_POST_try_failure_quiet in H. simpl in *. rewrite H. reflexivity.
Qed.

(** ** The JSON scanner: progress, described errors, enough rounds *)

Lemma scan_ok_mono {A} (n m : nat) (r : Json.scan A) :
  (n <= m)%nat -> Json.scan_ok n r -> Json.scan_ok m r.
Proof. destruct r; simpl; auto. lia. Qed.

Lemma json_error_described m doc pos : exn_str (JSONDecodeError m doc pos) <> [].
Proof. destruct m; discriminate. Qed.

Lemma errmsg_ok {A} n m doc pos : Json.scan_ok n (@Json.errmsg A m doc pos).
Proof. apply json_error_described. Qed.

Lemma skip_ws_length pos s :
  (List.length (snd (Json.skip_ws pos s)) <= List.length s)%nat.
Proof.
  revert pos. induction s as [|c s IH]; intros pos; simpl; [lia|].
  destruct (Json.is_whitespace c); simpl; [|lia].
  specialize (IH (S pos)). lia.
Qed.

Lemma scanstring_ok doc begin :
  forall n s pos acc,
    (List.length s <= n)%nat ->
    Json.scan_ok (S (List.length s)) (Json.scanstring doc begin pos s acc).
Proof.
  induction n as [|n IH]; intros s pos acc Hn.
  - destruct s; [apply errmsg_ok | simpl in Hn; lia].
  - destruct s as [|c r]; [apply errmsg_ok|].
    simpl in Hn.
    cbn [Json.scanstring].
    repeat
      match goal with
      | |- Json.scan_ok _ (Json.errmsg _ _ _) => apply errmsg_ok
      | |- Json.scan_ok _ (Json.Found _ _ _) => simpl; lia
      | |- Json.scan_ok _ (Json.scanstring _ _ _ ?t _) =>
          apply scan_ok_mono with (n := S (List.length t));
          [simpl; lia | apply IH; simpl in *; lia]
      | |- Json.scan_ok _ (if ?b then _ else _) => destruct b
      | |- Json.scan_ok _ (match ?x with _ => _ end) => destruct x
      end.
Qed.

Lemma span_digits_length s :
  (List.length (snd (Json.span_digits s)) <= List.length s)%nat.
Proof.
  induction s as [|c s IH]; simpl; [lia|].
  destruct (is_digit c); simpl; [|lia].
  destruct (Json.span_digits s); simpl in *. lia.
Qed.

Lemma match_integer_length s lexeme rest :
  Json.match_integer s = Some (lexeme, rest) ->
  (List.length rest < List.length s)%nat.
Proof.
  destruct s as [|c r]; simpl; [discriminate|].
  destruct (Json.is_chr "0" c).
  - intros H; inversion H; subst. lia.
  - destruct (between 49 57 c); [|discriminate].
    pose proof (span_digits_length r) as Hd.
    destruct (Json.span_digits r); simpl in Hd.
    intros H; inversion H; subst. lia.
Qed.

Lemma match_fraction_length s :
  (List.length (snd (Json.match_fraction s)) <= List.length s)%nat.
Proof.
  destruct s as [|dot [|d r]]; try (simpl; lia).
  unfold Json.match_fraction.
  destruct (_ && _)%bool; [|simpl; lia].
  pose proof (span_digits_length (d :: r)) as Hd.
  destruct (Json.span_digits (d :: r)) as [ds t].
  cbn [snd List.length] in *. lia.
Qed.

Lemma match_exponent_length s :
  (List.length (snd (Json.match_exponent s)) <= List.length s)%nat.
Proof.
  unfold Json.match_exponent.
  destruct s as [|e r]; [simpl; lia|].
  destruct (_ || _)%bool; [|simpl; lia].
  match goal with
  | |- context [let '(sign, r') := ?p in _] =>
      assert (List.length (snd p) <= List.length r)%nat as Hp;
      [|destruct p as [sign r']]
  end.
  { destruct r as [|sg [|x r1]]; try (simpl; lia).
    destruct (_ || _)%bool; simpl; lia. }
  cbn [snd] in Hp.
  pose proof (span_digits_length r') as Hd.
  destruct (Json.span_digits r') as [[|x ds] t]; cbn [snd List.length] in *; lia.
Qed.

Lemma match_number_length s lexeme is_float rest :
  Json.match_number s = Some (lexeme, is_float, rest) ->
  (List.length rest < List.length s)%nat.
Proof.
  unfold Json.match_number.
  set (p := match s with
            | [] => ([], s)
            | c :: r => if Json.is_chr "-" c then ([c], r) else ([], s)
            end).
  assert (List.length (snd p) <= List.length s)%nat as Hp.
  { subst p. destruct s as [|c r]; simpl; [lia|].
    destruct (Json.is_chr "-" c); simpl; lia. }
  destruct p as [sign s1]; simpl in Hp.
  destruct (Json.match_integer s1) as [[int_part s2]|] eqn:Hi; [|discriminate].
  apply match_integer_length in Hi.
  pose proof (match_fraction_length s2) as Hf.
  destruct (Json.match_fraction s2) as [frac s3]; simpl in Hf.
  pose proof (match_exponent_length s3) as He.
  destruct (Json.match_exponent s3) as [exp s4]; simpl in He.
  intros H; inversion H; subst. lia.
Qed.

Lemma digits_limit_described limit nd :
  exn_str (digits_limit_error limit nd) <> [].
Proof. discriminate. Qed.

Lemma scan_number_ok msd pos s :
  Json.scan_ok (List.length s) (Json.scan_number msd pos s).
Proof.
  unfold Json.scan_number.
  destruct (Json.match_number s) as [[[lexeme is_float] rest]|] eqn:Hn;
    [|exact I].
  apply match_number_length in Hn.
  destruct is_float; [exact Hn|].
  unfold Json.parse_int.
  destruct (_ && _)%bool; [apply digits_limit_described | exact Hn].
Qed.

Lemma strip_prefix_length p s rest :
  Json.strip_prefix p s = Some rest ->
  (List.length rest + List.length p = List.length s)%nat.
Proof.
  revert s. induction p as [|a p IH]; intros s; simpl.
  - intros H; inversion H; subst. lia.
  - destruct s as [|b s]; [discriminate|].
    destruct (a =? b); [|discriminate].
    intros H. apply IH in H. simpl. lia.
Qed.

Lemma constant_ok name v pos s r :
  name <> EmptyString ->
  Json.constant name v pos s = Some r -> Json.scan_ok (List.length s) r.
Proof.
  unfold Json.constant. intros Hname.
  destruct (Json.strip_prefix (lit name) s) as [rest|] eqn:Hp; [|discriminate].
  apply strip_prefix_length in Hp.
  intros H; inversion H; subst. simpl.
  destruct name; [congruence|]. simpl in Hp. lia.
Qed.

Lemma scan_atom_ok msd pos s :
  Json.scan_ok (List.length s) (Json.scan_atom msd pos s).
Proof.
  unfold Json.scan_atom.
  match goal with
  | |- Json.scan_ok _ (match ?named with _ => _ end) =>
      destruct named as [r|] eqn:Hnamed; [|apply scan_number_ok]
  end.
  destruct s as [|c s']; [discriminate|].
  repeat match type of Hnamed with
         | (if ?b then _ else _) = _ => destruct b
         end;
    try discriminate;
    (eapply constant_ok; [|exact Hnamed]); discriminate.
Qed.

(** One round of each scanner routine. *)
Lemma scan_once_step msd doc fuel' depth pos s :
  Json.scan_once msd doc (S fuel') depth pos s =
      match s with
      | [] => Json.StopIteration pos
      | c :: r =>
          if Json.is_quote c then
            match Json.scanstring doc pos (S pos) r [] with
            | Json.Found x pos' rest => Json.Found (VStr x) pos' rest
            | Json.Error e => Json.Error e
            | Json.StopIteration p => Json.StopIteration p
            | Json.Exhausted => Json.Exhausted
            end
          else if Json.is_chr "{" c then
            match depth with
            | O => Json.Error (Json.recursion_error "object")
            | S depth' =>
                let '(pos1, s1) := Json.skip_ws (S pos) r in
                match s1 with
                | [] => Json.object_loop msd doc fuel' depth' pos1 s1 []
                | c1 :: r1 =>
                    if Json.is_chr "}" c1 then Json.Found (VDict []) (S pos1) r1
                    else Json.object_loop msd doc fuel' depth' pos1 s1 []
                end
            end
          else if Json.is_chr "[" c then
            match depth with
            | O => Json.Error (Json.recursion_error "array")
            | S depth' =>
                let '(pos1, s1) := Json.skip_ws (S pos) r in
                match s1 with
                | [] => Json.array_loop msd doc fuel' depth' pos1 s1 []
                | c1 :: r1 =>
                    if Json.is_chr "]" c1 then Json.Found (VList []) (S pos1) r1
                    else Json.array_loop msd doc fuel' depth' pos1 s1 []
                end
            end
          else Json.scan_atom msd pos s
      end.
Proof. reflexivity. Qed.

Lemma object_loop_step msd doc fuel' depth pos s acc :
  Json.object_loop msd doc (S fuel') depth pos s acc =
      match s with
      | [] => Json.errmsg ExpectingPropertyName doc pos
      | q :: r =>
          if negb (Json.is_quote q) then Json.errmsg ExpectingPropertyName doc pos
          else
            match Json.scanstring doc pos (S pos) r [] with
            | Json.Error e => Json.Error e
            | Json.StopIteration p => Json.StopIteration p
            | Json.Exhausted => Json.Exhausted
            | Json.Found key pos1 s1 =>
                let '(pos2, s2) := Json.skip_ws pos1 s1 in
                match s2 with
                | [] => Json.errmsg ExpectingColon doc pos2
                | colon :: r2 =>
                    if negb (Json.is_chr ":" colon) then
                      Json.errmsg ExpectingColon doc pos2
                    else
                      let '(pos3, s3) := Json.skip_ws (S pos2) r2 in
                      match Json.scan_once msd doc fuel' depth pos3 s3 with
                      | Json.Error e => Json.Error e
                      | Json.StopIteration p => Json.StopIteration p
                      | Json.Exhausted => Json.Exhausted
                      | Json.Found v pos4 s4 =>
                          let acc' := dict_set acc key v in
                          let '(pos5, s5) := Json.skip_ws pos4 s4 in
                          match s5 with
                          | [] => Json.errmsg ExpectingComma doc pos5
                          | d :: r5 =>
                              if Json.is_chr "}" d then
                                Json.Found (VDict acc') (S pos5) r5
                              else if Json.is_chr "," d then
                                let '(pos6, s6) := Json.skip_ws (S pos5) r5 in
                                Json.object_loop msd doc fuel' depth pos6 s6 acc'
                              else Json.errmsg ExpectingComma doc pos5
                          end
                      end
                end
            end
      end.
Proof. reflexivity. Qed.

Lemma array_loop_step msd doc fuel' depth pos s acc :
  Json.array_loop msd doc (S fuel') depth pos s acc =
      match Json.scan_once msd doc fuel' depth pos s with
      | Json.Error e => Json.Error e
      | Json.StopIteration p => Json.StopIteration p
      | Json.Exhausted => Json.Exhausted
      | Json.Found v pos1 s1 =>
          let acc' := acc ++ [v] in
          let '(pos2, s2) := Json.skip_ws pos1 s1 in
          match s2 with
          | [] => Json.errmsg ExpectingComma doc pos2
          | d :: r2 =>
              if Json.is_chr "]" d then Json.Found (VList acc') (S pos2) r2
              else if Json.is_chr "," d then
                let '(pos3, s3) := Json.skip_ws (S pos2) r2 in
                Json.array_loop msd doc fuel' depth pos3 s3 acc'
              else Json.errmsg ExpectingComma doc pos2
          end
      end.
Proof. reflexivity. Qed.

Ltac scan_step IHv IHo IHa :=
  match goal with
  | H : Json.scan_ok _ Json.Exhausted |- _ => destruct H
  | H : Json.scan_ok _ (Json.Error ?e) |- Json.scan_ok _ (Json.Error ?e) =>
      exact H
  | |- Json.scan_ok _ (Json.errmsg _ _ _) => apply errmsg_ok
  | |- Json.scan_ok _ (Json.Error (Json.recursion_error _)) => discriminate
  | |- Json.scan_ok _ (Json.Found _ _ _) =>
      cbn [Json.scan_ok List.length] in *; lia
  | |- Json.scan_ok _ (Json.StopIteration _) => exact I
  | |- Json.scan_ok _ (Json.scan_atom _ _ _) => apply scan_atom_ok
  | |- Json.scan_ok _ (Json.object_loop _ _ _ _ _ ?t _) =>
      apply scan_ok_mono with (n := List.length t);
      [cbn [Json.scan_ok List.length] in *; lia | apply IHo; cbn [Json.scan_ok List.length] in *; lia]
  | |- Json.scan_ok _ (Json.array_loop _ _ _ _ _ ?t _) =>
      apply scan_ok_mono with (n := List.length t);
      [cbn [Json.scan_ok List.length] in *; lia | apply IHa; cbn [Json.scan_ok List.length] in *; lia]
  | |- context [Json.skip_ws ?p ?t] =>
      pose proof (skip_ws_length p t);
      destruct (Json.skip_ws p t) as [? ?]; cbn [snd] in *
  | |- Json.scan_ok _ (match Json.scanstring ?d ?b ?p ?t ?a with _ => _ end) =>
      pose proof (scanstring_ok d b (List.length t) t p a (le_n _));
      destruct (Json.scanstring d b p t a)
  | |- Json.scan_ok _
         (match Json.scan_once ?m ?d ?f ?dp ?p ?t with _ => _ end) =>
      assert (Json.scan_ok (List.length t) (Json.scan_once m d f dp p t))
        by (apply IHv; cbn [Json.scan_ok List.length] in *; lia);
      destruct (Json.scan_once m d f dp p t)
  | |- Json.scan_ok _ (if ?b then _ else _) => destruct b
  | |- Json.scan_ok _ (match ?x with _ => _ end) => destruct x
  | |- Json.scan_ok _ (let _ := _ in _) => cbv zeta
  end.

Lemma scanner_ok msd doc :
  forall fuel,
    (forall depth pos s,
        (2 * List.length s < fuel)%nat ->
        Json.scan_ok (List.length s) (Json.scan_once msd doc fuel depth pos s))
    /\ (forall depth pos s acc,
           (2 * List.length s + 1 < fuel)%nat ->
           Json.scan_ok (List.length s)
                        (Json.object_loop msd doc fuel depth pos s acc))
    /\ (forall depth pos s acc,
           (2 * List.length s + 1 < fuel)%nat ->
           Json.scan_ok (List.length s)
                        (Json.array_loop msd doc fuel depth pos s acc)).
Proof.
  induction fuel as [|fuel (IHv & IHo & IHa)].
  - repeat split; intros; lia.
  - repeat split.
    + intros depth pos s Hf. rewrite scan_once_step.
      repeat scan_step IHv IHo IHa.
    + intros depth pos s acc Hf. rewrite object_loop_step.
      repeat scan_step IHv IHo IHa.
    + intros depth pos s acc Hf. rewrite array_loop_step.
      repeat scan_step IHv IHo IHa.
Qed.

(** The scanner is given enough rounds: [loads] never meets the bound. *)
Lemma scan_once_enough msd doc depth pos s :
  Json.scan_ok (List.length s)
    (Json.scan_once msd doc (S (2 * List.length s)) depth pos s).
Proof. apply scanner_ok. lia. Qed.

Lemma decode_document_described msd depth s e :
  Json.decode_document msd depth s = Raise e -> exn_str e <> [].
Proof.
  unfold Json.decode_document.
  destruct (Json.skip_ws 0 s) as [pos0 s0].
  pose proof (scan_once_enough msd s depth pos0 s0) as Hok.
  destruct (Json.scan_once _ _ _ _ _ _) as [v pos1 s1|e1|p|].
  - destruct (Json.skip_ws pos1 s1) as [pos2 [|c r]]; [discriminate|].
    intros H; inversion H; subst. apply json_error_described.
  - intros H; inversion H; subst. exact Hok.
  - intros H; inversion H; subst. apply json_error_described.
  - destruct Hok.
Qed.

(** ** The codecs raise [UnicodeDecodeError] only *)

Lemma cons_ok_decode_result c r :
  decode_result r -> decode_result (cons_ok c r).
Proof. destruct r; simpl; auto. Qed.

Lemma utf8_decode_from_result sp obj :
  forall n s pos,
    (List.length s <= n)%nat -> decode_result (utf8_decode_from sp obj pos s).
Proof.
  induction n as [|n IH]; intros s pos Hn.
  - destruct s; [exact I | simpl in Hn; lia].
  - destruct s as [|b0 r0]; [exact I|].
    simpl in Hn. cbn [utf8_decode_from].
    repeat
      match goal with
      | |- decode_result (Raise (decode_error _ _ _ _ _)) => exact I
      | |- decode_result (cons_ok _ _) =>
          apply cons_ok_decode_result; apply IH; simpl in *; lia
      | |- decode_result (if ?b then _ else _) => destruct b
      | |- decode_result (match ?x with _ => _ end) => destruct x
      end.
Qed.

Lemma utf16_units_result le enc obj :
  forall n s pos,
    (List.length s <= n)%nat ->
    match utf16_units le enc obj pos s with
    | Ok _ => True
    | Raise (UnicodeDecodeError _ _ _ _ _) => True
    | Raise _ => False
    end.
Proof.
  induction n as [|n IH]; intros s pos Hn.
  - destruct s; [exact I | simpl in Hn; lia].
  - destruct s as [|b0 [|b1 r]]; [exact I | exact I |].
    simpl in Hn. cbn [utf16_units].
    specialize (IH r (pos + 2)%nat ltac:(lia)).
    destruct (utf16_units le enc obj (pos + 2) r); simpl; auto.
Qed.

Lemma utf16_decode_from_result le enc obj pos s :
  decode_result (utf16_decode_from le enc obj pos s).
Proof.
  unfold utf16_decode_from.
  pose proof (utf16_units_result le enc obj _ s pos (le_n _)) as H.
  destruct (utf16_units le enc obj pos s); simpl; auto.
Qed.

Lemma utf32_decode_from_result le enc obj :
  forall n s pos,
    (List.length s <= n)%nat -> decode_result (utf32_decode_from le enc obj pos s).
Proof.
  induction n as [|n IH]; intros s pos Hn.
  - destruct s; [exact I | simpl in Hn; lia].
  - destruct s as [|b0 [|b1 [|b2 [|b3 r]]]]; try exact I.
    simpl in Hn. cbn [utf32_decode_from].
    destruct (_ <? _); [|exact I].
    apply cons_ok_decode_result. apply IH. lia.
Qed.

Lemma decode_result_decode enc b : decode_result (Json.decode enc b).
Proof.
  destruct enc; unfold Json.decode, utf8_decode_surrogatepass;
    try (eapply utf8_decode_from_result; apply le_n);
    try apply utf16_decode_from_result;
    try (eapply utf32_decode_from_result; apply le_n).
  - destruct b as [|b0 r]; [exact I|].
    destruct (_ =? _); apply utf16_decode_from_result.
  - destruct b as [|b0 r]; [exact I|].
    destruct (_ =? _); eapply utf32_decode_from_result; apply le_n.
Qed.

Lemma decode_error_described enc obj a b r :
  exn_str (UnicodeDecodeError enc obj a b r) <> [].
Proof. simpl. destruct (Nat.eqb b (S a)); discriminate. Qed.

(** Whatever [json.loads] raises has a description. *)
Lemma loads_described msd depth b e :
  Json.loads msd depth b = Raise e -> exn_str e <> [].
Proof.
  unfold Json.loads.
  pose proof (decode_result_decode (Json.detect_encoding b) b) as Hd.
  destruct (Json.decode _ b) as [s|e1]; simpl.
  - apply decode_document_described.
  - intros H; inversion H; subst.
    destruct e; try destruct Hd. apply decode_error_described.
Qed.

(** ** UTF-8: the decoder accepts exactly the encodings of scalar texts *)

Ltac Zify.zify_post_hook ::= Z.to_euclidean_division_equations.

Lemma to_N_byte_of n : n < 256 -> Byte.to_N (byte_of n) = n.
Proof.
  intros H. unfold byte_of. rewrite N.mod_small by exact H.
  destruct (Byte.of_N n) as [b|] eqn:E.
  - now apply Byte.to_of_N.
  - apply Byte.of_N_None_iff in E. lia.
Qed.

Lemma byte_of_to_N b : byte_of (Byte.to_N b) = b.
Proof.
  unfold byte_of. pose proof (Byte.to_N_bounded b).
  rewrite N.mod_small by lia. now rewrite Byte.of_to_N.
Qed.

Ltac bool_facts :=
  repeat match goal with
         | H : (_ && _)%bool = true |- _ => apply andb_prop in H; destruct H
         | H : (_ && _)%bool = false |- _ => apply andb_false_iff in H
         | H : (_ || _)%bool = true |- _ => apply orb_prop in H
         | H : (_ || _)%bool = false |- _ => apply orb_false_elim in H; destruct H
         | H : negb _ = true |- _ => apply negb_true_iff in H
         | H : negb _ = false |- _ => apply negb_false_iff in H
         | H : (_ <? _) = true |- _ => apply N.ltb_lt in H
         | H : (_ <? _) = false |- _ => apply N.ltb_ge in H
         | H : (_ <=? _) = true |- _ => apply N.leb_le in H
         | H : (_ <=? _) = false |- _ => apply N.leb_gt in H
         | H : (_ =? _) = true |- _ => apply N.eqb_eq in H
         | H : (_ =? _) = false |- _ => apply N.eqb_neq in H
         | H : (if ?b then _ else _) = _ |- _ => destruct b eqn:?
         end.

Lemma Ok_inj {A} (a b : A) : Ok a = Ok b -> a = b.
Proof. congruence. Qed.

Lemma utf8_decode_encode text :
  Forall (fun c => is_scalar c = true) text ->
  forall eobj epos obj pos b,
    utf8_encode_from eobj epos text = Ok b ->
    utf8_decode_from false obj pos b = Ok text.
Proof.
  induction 1 as [|c text Hc Htext IH]; intros eobj epos obj pos b.
  - simpl. intros H; inversion H. reflexivity.
  - cbn [utf8_encode_from].
    destruct (utf8_encode_from eobj (S epos) text) as [t|e] eqn:Ht.
    2:{ repeat match goal with |- context [if ?b then _ else _] => destruct b end; discriminate. }
    unfold is_scalar, is_surrogate, between in Hc.
    destruct (c <? 128) eqn:H1.
    { cbn [rbind map app]. intros H; apply Ok_inj in H; subst b. bool_facts.
      cbn [utf8_decode_from]. rewrite to_N_byte_of by lia.
      apply N.ltb_lt in H1. rewrite H1.
      erewrite IH by exact Ht. reflexivity. }
    cbn [rbind]. unfold is_surrogate, between.
    assert (Hb : forall q, q < 256 -> Byte.to_N (byte_of q) = q) by apply to_N_byte_of.
    bool_facts.
    repeat match goal with
           | |- (if ?b then _ else _) = _ -> _ => destruct b eqn:?; bool_facts
           | H : _ \/ _ |- _ => destruct H; bool_facts
           end;
      try discriminate; try lia;
      (intros Heq; apply Ok_inj in Heq; subst b;
       cbn [map app utf8_decode_from];
       rewrite !Hb by lia;
       unfold is_cont, between;
       repeat match goal with
              | |- context [if ?b then _ else _] =>
                  let E := fresh in
                  destruct b eqn:E; bool_facts;
                  repeat match goal with
                         | H : _ \/ _ |- _ => destruct H; bool_facts
                         end;
                  try (exfalso; lia)
              end;
       erewrite IH by exact Ht; cbn [cons_ok rbind]; f_equal; f_equal; lia).
Qed.

Lemma cons_ok_inv c r text :
  cons_ok c r = Ok text -> exists t, r = Ok t /\ text = c :: t.
Proof.
  destruct r as [t|e]; simpl; [|discriminate].
  intros H. apply Ok_inj in H. eauto.
Qed.

Lemma utf8_encode_decode :
  forall n b obj pos text eobj epos,
    (List.length b <= n)%nat ->
    utf8_decode_from false obj pos b = Ok text ->
    Forall (fun c => is_scalar c = true) text
    /\ utf8_encode_from eobj epos text = Ok b.
Proof.
  induction n as [|n IH]; intros b obj pos text eobj epos Hn Hd.
  - destruct b; [|simpl in Hn; lia].
    simpl in Hd. apply Ok_inj in Hd. subst. split; [constructor | reflexivity].
  - destruct b as [|b0 r0].
    { simpl in Hd. apply Ok_inj in Hd. subst. split; [constructor | reflexivity]. }
    cbn [utf8_decode_from andb] in Hd. cbv zeta in Hd.
    unfold is_cont, between in Hd.
    repeat
      match type of Hd with
      | (if ?c then _ else _) = _ => destruct c eqn:?
      | match ?r with [] => _ | _ :: _ => _ end = _ => destruct r as [|? ?]
      end;
      try discriminate;
      apply cons_ok_inv in Hd; destruct Hd as (t' & Hd & ->);
      (eapply (IH _ _ _ _ eobj (S epos)) in Hd; [|simpl in Hn |- *; lia]);
      destruct Hd as [Hs He];
      repeat match goal with
             | b : byte |- _ =>
                 lazymatch goal with
                 | H : Byte.to_N b <= 255 |- _ => fail
                 | _ => pose proof (Byte.to_N_bounded b)
                 end
             end;
      bool_facts;
      repeat match goal with
             | H : _ \/ _ |- _ => destruct H; bool_facts
             end;
      try lia;
      (split;
       [ constructor; [|exact Hs];
         unfold is_scalar, is_surrogate, between;
         match goal with
         | |- (?a <? ?b) && negb ((?x <=? ?y) && (?u <=? ?v)) = true =>
             destruct (a <? b) eqn:?, (x <=? y) eqn:?, (u <=? v) eqn:?
         end;
         try reflexivity; bool_facts; exfalso; lia
       | cbn [utf8_encode_from]; rewrite He; cbn [rbind];
         unfold is_surrogate, between;
         repeat match goal with
                | |- context [if ?b then _ else _] =>
                    let E := fresh in
                    destruct b eqn:E; bool_facts;
                    repeat match goal with
                           | H : _ \/ _ |- _ => destruct H; bool_facts
                           end;
                    try (exfalso; lia)
                end;
         cbn [map app];
         repeat match goal with
                | |- Ok _ = Ok _ => f_equal
                | |- _ :: _ = _ :: _ => f_equal
                | |- byte_of ?e = ?b =>
                    transitivity (byte_of (Byte.to_N b));
                    [f_equal; lia | apply byte_of_to_N]
                end ]).
Qed.

Lemma valid_utf8_decodes b :
  valid_utf8 b <-> exists text, utf8_decode b = Ok text.
Proof.
  unfold valid_utf8, utf8_decode, utf8_encode. split.
  - intros (text & Hs & He). exists text.
    eapply utf8_decode_encode; eassumption.
  - intros (text & Hd). exists text.
    eapply utf8_encode_decode; [apply le_n | exact Hd].
Qed.

Lemma utf8_decode_scalar b text :
  utf8_decode b = Ok text -> Forall (fun c => is_scalar c = true) text.
Proof.
  intros Hd.
  eapply (utf8_encode_decode _ b b 0%nat text text 0%nat (le_n _)) in Hd.
  apply Hd.
Qed.

(** A body that is no UTF-8 makes [decode] raise [UnicodeDecodeError]. *)
Lemma invalid_utf8_raises b :
  ~ valid_utf8 b ->
  exists obj start stop reason,
    utf8_decode b = Raise (UnicodeDecodeError (lit "utf-8") obj start stop reason).
Proof.
  intros Hb.
  destruct (utf8_decode b) as [text|e] eqn:Hd.
  - exfalso. apply Hb. apply valid_utf8_decodes. eauto.
  - assert (forall n s pos,
               (List.length s <= n)%nat ->
               forall e, utf8_decode_from false b pos s = Raise e ->
                         exists obj start stop reason,
                           e = UnicodeDecodeError (lit "utf-8") obj start stop reason)
      as Hgen.
    { clear. induction n as [|n IH]; intros s pos Hn e.
      - destruct s; [discriminate | simpl in Hn; lia].
      - destruct s as [|b0 r0]; [discriminate|].
        simpl in Hn. cbn [utf8_decode_from andb]. cbv zeta.
        repeat
          match goal with
          | |- Raise (decode_error _ _ _ _ _) = Raise _ -> _ =>
              intros H; inversion H; unfold decode_error; eauto
          | |- cons_ok _ ?r = Raise _ -> _ =>
              let H := fresh in
              destruct r eqn:H; [discriminate|];
              intros H'; inversion H'; subst;
              apply IH in H; [exact H | simpl in *; lia]
          | |- (if ?b then _ else _) = _ -> _ => destruct b
          | |- match ?x with _ => _ end = _ -> _ => destruct x
          end. }
    destruct (Hgen _ b 0%nat (le_n _) e Hd) as (obj & a & z & r & ->). eauto.
Qed.

(** ** What [json.dumps] writes, [json.loads] reads back *)

Lemma scanstring_quote doc begin pos r acc :
  Json.scanstring doc begin pos (34 :: r) acc = Json.Found (rev acc) (S pos) r.
Proof. reflexivity. Qed.

Lemma scanstring_plain doc begin pos c r acc :
  Json.is_quote c = false -> Json.is_chr "\" c = false -> (c <=? 31) = false ->
  Json.scanstring doc begin pos (c :: r) acc
  = Json.scanstring doc begin (S pos) r (c :: acc).
Proof. intros Hq Hb Hc. cbn [Json.scanstring]. now rewrite Hq, Hb, Hc. Qed.

Lemma scanstring_escape doc begin pos e x r acc :
  Json.is_chr "u" e = false -> Json.unescape e = Some x ->
  Json.scanstring doc begin pos (92 :: e :: r) acc
  = Json.scanstring doc begin (pos + 2) r (x :: acc).
Proof.
  intros Hu Hx. cbn [Json.scanstring].
  change (Json.is_quote 92) with false. change (Json.is_chr "\" 92) with true.
  cbv iota. now rewrite Hu, Hx.
Qed.

Lemma scanstring_unicode doc begin pos h1 h2 h3 h4 u x t acc :
  Json.hex4val h1 h2 h3 h4 = Some u -> is_high_surrogate u = false ->
  Json.scanstring doc begin pos (92 :: 117 :: h1 :: h2 :: h3 :: h4 :: x :: t) acc
  = Json.scanstring doc begin (pos + 6) (x :: t) (u :: acc).
Proof.
  intros Hh Hs. cbn [Json.scanstring].
  change (Json.is_quote 92) with false. change (Json.is_chr "\" 92) with true.
  change (Json.is_chr "u" 117) with true.
  cbv iota. cbn [negb]. rewrite Hh, Hs. cbn [andb].
  destruct t as [|? [|? [|? [|? [|? [|? ?]]]]]]; reflexivity.
Qed.

Lemma scanstring_pair doc begin pos h1 h2 h3 h4 g1 g2 g3 g4 u u2 x t acc :
  Json.hex4val h1 h2 h3 h4 = Some u -> is_high_surrogate u = true ->
  Json.hex4val g1 g2 g3 g4 = Some u2 -> is_low_surrogate u2 = true ->
  Json.scanstring doc begin pos
    (92 :: 117 :: h1 :: h2 :: h3 :: h4 :: 92 :: 117 :: g1 :: g2 :: g3 :: g4
        :: x :: t) acc
  = Json.scanstring doc begin (pos + 12) (x :: t)
      (65536 + (u - 55296) * 1024 + (u2 - 56320) :: acc).
Proof.
  intros Hh Hs Hg Hl. cbn [Json.scanstring].
  change (Json.is_quote 92) with false. change (Json.is_chr "\" 92) with true.
  change (Json.is_chr "u" 117) with true.
  cbv iota. cbn [negb]. rewrite Hh, Hs. cbn [andb]. now rewrite Hg, Hl.
Qed.

Lemma hexval_hexdigit d : d < 16 -> Json.hexval (hexdigit d) = Some d.
Proof.
  intros Hd. unfold Json.hexval, hexdigit, between.
  destruct (d <? 10) eqn:E; bool_facts.
  - replace ((48 <=? 48 + d) && (48 + d <=? 57))%bool with true.
    + f_equal. lia.
    + symmetry. apply andb_true_intro. split; apply N.leb_le; lia.
  - replace ((48 <=? 87 + d) && (87 + d <=? 57))%bool with false.
    + replace ((97 <=? 87 + d) && (87 + d <=? 102))%bool with true.
      * f_equal. lia.
      * symmetry. apply andb_true_intro. split; apply N.leb_le; lia.
    + symmetry. apply andb_false_iff. right. apply N.leb_gt. lia.
Qed.

Lemma hex4val_hex4 c h1 h2 h3 h4 :
  c < 65536 -> hex4 c = [h1; h2; h3; h4] -> Json.hex4val h1 h2 h3 h4 = Some c.
Proof.
  intros Hc H. unfold hex4 in H. injection H as <- <- <- <-.
  unfold Json.hex4val.
  rewrite !hexval_hexdigit by (apply N.mod_lt; discriminate).
  f_equal. lia.
Qed.

Lemma escaped_tail_cons s rest :
  exists x t, flat_map Json.escape_char s ++ 34 :: rest = x :: t.
Proof.
  destruct (flat_map Json.escape_char s) as [|x t]; simpl; eauto.
Qed.

Lemma scanstring_escaped doc begin s :
  Forall (fun c => is_scalar c = true) s ->
  forall pos acc rest,
    Json.scanstring doc begin pos (flat_map Json.escape_char s ++ 34 :: rest) acc
    = Json.Found (rev acc ++ s)
        (pos + List.length (flat_map Json.escape_char s) + 1) rest.
Proof.
  induction 1 as [|c s Hc Hs IH]; intros pos acc rest.
  - cbn [flat_map app]. rewrite scanstring_quote, app_nil_r.
    f_equal. simpl. lia.
  - cbn [flat_map]. rewrite <- app_assoc, length_app.
    destruct (escaped_tail_cons s rest) as (x & t & Ht).
    assert (Hgoal : forall k acc',
               rev acc' = rev acc ++ [c] ->
               Json.scanstring doc begin k
                 (flat_map Json.escape_char s ++ 34 :: rest) acc'
               = Json.Found (rev acc ++ c :: s)
                   (k + List.length (flat_map Json.escape_char s) + 1) rest).
    { intros k acc' Hacc. rewrite IH, Hacc, <- app_assoc. reflexivity. }
    revert Hgoal Ht.
    generalize (flat_map Json.escape_char s ++ 34 :: rest).
    generalize (List.length (flat_map Json.escape_char s)).
    clear IH. intros n tl Hgoal ->.
    unfold is_scalar, is_surrogate, between in Hc.
    unfold Json.escape_char.
    destruct (between 32 126 c && negb (Json.is_chr "\" c) && negb (Json.is_quote c))%bool eqn:E1.
    { cbn [app]. unfold between in E1. bool_facts.
      rewrite scanstring_plain; try assumption.
      - rewrite Hgoal by reflexivity. f_equal. simpl. lia.
      - apply N.leb_gt. lia. }
    destruct (Json.is_chr "\" c || Json.is_quote c)%bool eqn:E2.
    { cbn [app]. change (Json.chr "\") with 92.
      rewrite (scanstring_escape _ _ _ c c).
      - rewrite Hgoal by reflexivity. f_equal. simpl. lia.
      - unfold Json.is_chr, Json.is_quote in *. bool_facts.
        destruct E2 as [E2|E2]; bool_facts; subst c; reflexivity.
      - unfold Json.is_chr, Json.is_quote in *. bool_facts.
        destruct E2 as [E2|E2]; bool_facts; subst c; reflexivity. }
    assert (Hsimple : forall e,
               Json.is_chr "u" e = false -> Json.unescape e = Some c ->
               Json.scanstring doc begin pos ([92; e] ++ x :: t) acc
               = Json.Found (rev acc ++ c :: s)
                   (pos + (List.length [92; e] + n) + 1) rest).
    { intros e He1 He2. cbn [app]. rewrite (scanstring_escape _ _ _ e c) by assumption.
      rewrite Hgoal by reflexivity. f_equal. simpl. lia. }
    destruct (c =? 8) eqn:E3; [bool_facts; subst c; now apply Hsimple|].
    destruct (c =? 12) eqn:E4; [bool_facts; subst c; now apply Hsimple|].
    destruct (c =? 10) eqn:E5; [bool_facts; subst c; now apply Hsimple|].
    destruct (c =? 13) eqn:E6; [bool_facts; subst c; now apply Hsimple|].
    destruct (c =? 9) eqn:E7; [bool_facts; subst c; now apply Hsimple|].
    clear Hsimple. bool_facts.
    destruct (65536 <=? c) eqn:E8; bool_facts.
    + set (hi := 55296 + (c - 65536) / 1024).
      set (lo := 56320 + (c - 65536) mod 1024).
      unfold Json.u_escape. change (lit "\u") with [92; 117].
      destruct (hex4 hi) as [|h1 [|h2 [|h3 [|h4 [|? ?]]]]] eqn:Hhi;
        try discriminate.
      destruct (hex4 lo) as [|g1 [|g2 [|g3 [|g4 [|? ?]]]]] eqn:Hlo;
        try discriminate.
      cbn [app List.length].
      rewrite (scanstring_pair _ _ _ _ _ _ _ _ _ _ _ hi lo).
      * rewrite Hgoal; [f_equal; lia|].
        cbn [rev]. do 2 f_equal. subst hi lo. lia.
      * apply hex4val_hex4; [subst hi; lia | exact Hhi].
      * unfold is_high_surrogate, between. subst hi.
        apply andb_true_intro; split; apply N.leb_le; lia.
      * apply hex4val_hex4; [subst lo; lia | exact Hlo].
      * unfold is_low_surrogate, between. subst lo.
        apply andb_true_intro; split; apply N.leb_le; lia.
    + unfold Json.u_escape. change (lit "\u") with [92; 117].
      destruct (hex4 c) as [|h1 [|h2 [|h3 [|h4 [|? ?]]]]] eqn:Hhex;
        try discriminate.
      cbn [app List.length].
      rewrite (scanstring_unicode _ _ _ _ _ _ _ c).
      * rewrite Hgoal by reflexivity. f_equal. lia.
      * apply hex4val_hex4; [lia | exact Hhex].
      * unfold is_high_surrogate, between.
        destruct (55296 <=? c) eqn:?, (c <=? 56319) eqn:?; try reflexivity.
        bool_facts.
        repeat match goal with
               | H : _ \/ _ |- _ => destruct H; bool_facts
               end; lia.
Qed.

Lemma join_items_cons k v r rest :
  Json.join_items ((k, v) :: r) ++ 125 :: rest
  = 34 :: flat_map Json.escape_char k
       ++ 34 :: 58 :: 32 :: 34 :: flat_map Json.escape_char v
       ++ 34 :: match r with
                | [] => 125 :: rest
                | _ :: _ => 44 :: 32 :: Json.join_items r ++ 125 :: rest
                end.
Proof.
  destruct r as [|kv r'].
  - change (Json.join_items [(k, v)])
      with (Json.encode_basestring_ascii k ++ lit ": "
              ++ Json.encode_basestring_ascii v).
    unfold Json.encode_basestring_ascii. change (lit ": ") with [58; 32].
    repeat first [rewrite <- app_assoc | progress cbn [app]]. reflexivity.
  - change (Json.join_items ((k, v) :: kv :: r'))
      with (Json.encode_basestring_ascii k ++ lit ": "
              ++ Json.encode_basestring_ascii v ++ lit ", "
              ++ Json.join_items (kv :: r')).
    unfold Json.encode_basestring_ascii.
    change (lit ": ") with [58; 32]. change (lit ", ") with [44; 32].
    repeat first [rewrite <- app_assoc | progress cbn [app]]. reflexivity.
Qed.

Lemma skip_ws_next pos c r :
  Json.is_whitespace c = false -> Json.skip_ws pos (c :: r) = (pos, c :: r).
Proof. intros H. cbn [Json.skip_ws]. now rewrite H. Qed.

Lemma skip_ws_blank pos r : Json.skip_ws pos (32 :: r) = Json.skip_ws (S pos) r.
Proof. reflexivity. Qed.

(** Decide the tests on characters that are known. *)
Ltac known_chars :=
  repeat match goal with
         | |- context [Json.is_chr ?a ?n] =>
             let b := eval vm_compute in (Json.is_chr a n) in
             lazymatch b with
             | true => change (Json.is_chr a n) with true
             | false => change (Json.is_chr a n) with false
             end
         | |- context [Json.is_quote ?n] =>
             let b := eval vm_compute in (Json.is_quote n) in
             lazymatch b with
             | true => change (Json.is_quote n) with true
             | false => change (Json.is_quote n) with false
             end
         | |- context [Json.skip_ws ?p (32 :: ?r)] => rewrite (skip_ws_blank p r)
         | |- context [Json.skip_ws ?p (?c :: ?r)] =>
             rewrite (skip_ws_next p c r) by reflexivity
         end;
  cbn [negb]; cbv iota.

Lemma skip_ws_join_items pos kv r rest :
  Json.skip_ws pos (Json.join_items (kv :: r) ++ 125 :: rest)
  = (pos, Json.join_items (kv :: r) ++ 125 :: rest).
Proof. destruct kv as [k v]. rewrite join_items_cons. reflexivity. Qed.

Lemma object_loop_items msd doc :
  forall items,
    items <> [] ->
    Forall (fun kv => scalar_text (fst kv) /\ scalar_text (snd kv)) items ->
    forall fuel depth pos acc rest,
      (List.length items < fuel)%nat ->
      Json.object_loop msd doc fuel depth pos
        (Json.join_items items ++ 125 :: rest) acc
      = Json.Found (VDict (store_items items acc))
          (pos + List.length (Json.join_items items) + 1) rest.
Proof.
  induction items as [|[k v] r IH]; [congruence|].
  intros _ Hall fuel depth pos acc rest Hfuel.
  inversion Hall as [|? ? [Hk Hv] Hr]; subst. cbn [fst snd] in *.
  destruct fuel as [|[|fuel]]; try (simpl in Hfuel; lia).
  pose proof (join_items_cons k v r []) as Hlen.
  apply (f_equal (@List.length N)) in Hlen.
  rewrite !length_app in Hlen. cbn [List.length] in Hlen.
  rewrite !length_app in Hlen. cbn [List.length] in Hlen.
  rewrite !length_app in Hlen. cbn [List.length] in Hlen.
  rewrite join_items_cons, object_loop_step. known_chars.
  rewrite (scanstring_escaped doc pos k Hk). cbn [rev app]. known_chars.
  rewrite scan_once_step. known_chars.
  rewrite (scanstring_escaped doc _ v Hv). cbn [rev app]. cbv zeta.
  destruct r as [|kv r'].
  - known_chars. cbn [List.length] in Hlen. f_equal; lia.
  - known_chars.
    rewrite skip_ws_join_items.
    rewrite IH; [|discriminate | exact Hr | simpl in *; lia].
    cbn [List.length] in Hlen. rewrite length_app in Hlen.
    cbn [List.length] in Hlen. f_equal. lia.
Qed.

Lemma join_items_length items :
  (List.length items <= List.length (Json.join_items items))%nat.
Proof.
  induction items as [|[k v] r IH]; [simpl; lia|].
  pose proof (join_items_cons k v r []) as H.
  apply (f_equal (@List.length N)) in H.
  rewrite !length_app in H. cbn [List.length] in H.
  rewrite !length_app in H. cbn [List.length] in H.
  rewrite !length_app in H. cbn [List.length] in H.
  destruct r as [|kv r']; cbn [List.length] in *; [lia|].
  rewrite length_app in H. cbn [List.length] in H. lia.
Qed.

Lemma dumps_cons items : Json.dumps items = 123 :: Json.join_items items ++ [125].
Proof. reflexivity. Qed.

Lemma decode_document_dumps msd depth items :
  Forall (fun kv => scalar_text (fst kv) /\ scalar_text (snd kv)) items ->
  Json.decode_document msd (S depth) (Json.dumps items)
  = Ok (VDict (store_items items [])).
Proof.
  intros Hall. unfold Json.decode_document. rewrite dumps_cons.
  rewrite skip_ws_next by reflexivity.
  rewrite scan_once_step. known_chars.
  destruct items as [|kv r].
  - reflexivity.
  - rewrite skip_ws_join_items.
    pose proof (object_loop_items msd (123 :: Json.join_items (kv :: r) ++ [125])
                  (kv :: r) ltac:(discriminate) Hall
                  (2 * List.length (123 :: Json.join_items (kv :: r) ++ [125]))
                  depth 1%nat [] []) as Hloop.
    pose proof (join_items_length (kv :: r)) as Hlen.
    rewrite Hloop
      by (cbn [List.length] in *; rewrite length_app; cbn [List.length]; lia).
    clear Hloop.
    destruct kv as [k v].
    pose proof (join_items_cons k v r []) as Hj.
    destruct (Json.join_items ((k, v) :: r) ++ [125]) as [|c t]; [discriminate|].
    injection Hj as -> _. known_chars. reflexivity.
Qed.

Lemma utf8_decode_from_ascii sp obj s :
  ascii_text s ->
  forall pos, utf8_decode_from sp obj pos (ascii_bytes s) = Ok s.
Proof.
  induction 1 as [|c s Hc Hs IH]; intros pos; [reflexivity|].
  unfold ascii_bytes. cbn [map utf8_decode_from]. cbv zeta.
  rewrite to_N_byte_of by lia.
  apply N.ltb_lt in Hc. rewrite Hc. fold (ascii_bytes s). now rewrite IH.
Qed.

Lemma detect_encoding_object b2 b3 rest :
  Json.detect_encoding (x7b :: x22 :: b2 :: b3 :: rest) = Json.UTF8.
Proof. reflexivity. Qed.

Lemma detect_encoding_dumps items :
  Json.detect_encoding (ascii_bytes (Json.dumps items)) = Json.UTF8.
Proof.
  destruct items as [|[k v] r]; [reflexivity|].
  rewrite dumps_cons, join_items_cons.
  unfold ascii_bytes. cbn [map].
  destruct (flat_map Json.escape_char k) as [|x [|y t]]; cbn [app map];
    apply detect_encoding_object.
Qed.

Lemma loads_dumps msd depth items :
  Forall (fun kv => scalar_text (fst kv) /\ scalar_text (snd kv)) items ->
  Json.loads msd (S depth) (ascii_bytes (Json.dumps items))
  = Ok (VDict (store_items items [])).
Proof.
  intros Hall. unfold Json.loads.
  rewrite detect_encoding_dumps. unfold Json.decode, utf8_decode_surrogatepass.
  rewrite utf8_decode_from_ascii by apply dumps_ascii.
  apply decode_document_dumps, Hall.
Qed.

(** ** Reading the relay's JSON back *)


Lemma error_object_read msd depth message :
  scalar_text message ->
  Json.loads msd (S depth) (body (error_response message))
  = Ok (as_dict (error_object message)).
Proof.
  intros Ht. unfold error_response. cbn [body].
  rewrite loads_dumps; [reflexivity|].
  repeat constructor; cbn [fst snd]; try assumption;
    apply Forall_forall; intros c Hc; cbn in Hc;
    repeat (destruct Hc as [<-|Hc]; [reflexivity|]); destruct Hc.
Qed.

(** On a fresh connection the state after reading the body has sent and
    opened nothing. *)
Lemma read_request_body_fresh w self stream r st1 :
  read_request_body w self (connection stream) = (r, st1) ->
  sent st1 = [] /\ opened st1 = [].
Proof. intros H. apply read_request_body_quiet in H. exact H. Qed.

(** ** One response for each POST, and what the read returns *)

(** The three ways a response is written. *)
Lemma do_POST_answers w self stream :
  exists r,
    responses (sent (snd (do_POST w self (connection stream)))) = [r]
    /\ ((exists text, r = success_response text)
        \/ (exists e, r = error_response (exn_str e))).
Proof.
  destruct (do_POST_try w self (connection stream)) as [[[]|e] st1] eqn:Htry.
  - rewrite do_POST_run, Htry. cbn [snd].
    rewrite do_POST_try_run in Htry.
    destruct (read_request_body w self (connection stream))
      as [[post_data|e0] st0] eqn:Hbody; [|discriminate].
    apply read_request_body_fresh in Hbody. destruct Hbody as [Hs Ho].
    destruct (Json.loads _ _ _); [|discriminate].
    destruct (getitem _ _) as [url|]; [|discriminate].
    destruct (request_for _ _); [|discriminate].
    cbv zeta in Htry.
    destruct (urlopen _ _); [|discriminate].
    destruct (read _); [|discriminate].
    destruct (utf8_decode _) as [text|]; [|discriminate].
    injection Htry as <-.
    exists (success_response text). split; [|eauto].
    cbn [sent add_sent add_opened]. rewrite Hs. reflexivity.
  - destruct (do_POST_failure w self stream e st1 Htry) as [Hrun Hresp].
    rewrite Hrun. cbn [snd]. eauto.
Qed.

Lemma cors_once_success text : cors_once (success_response text).
Proof. repeat constructor. Qed.

Lemma cors_once_error message : cors_once (error_response message).
Proof. repeat constructor. Qed.

Lemma cors_once_preflight : cors_once preflight_response.
Proof. repeat constructor. Qed.

Lemma rfile_read_in_range w n st :
  (0 <= n < 2 ^ 63 - 33)%Z ->
  can_allocate w (Z.to_N n) = true ->
  rfile_read w n st
  = (Ok (firstn (Z.to_nat n) (rfile st)), advance (Z.to_nat n) st).
Proof.
  intros Hn Hmem. unfold rfile_read.
  replace ((n <? - 2 ^ 63)%Z || (2 ^ 63 - 1 <? n)%Z)%bool with false
    by (symmetry; apply orb_false_intro; apply Z.ltb_ge; lia).
  replace (n <? -1)%Z with false by (symmetry; apply Z.ltb_ge; lia).
  replace (n =? -1)%Z with false by (symmetry; apply Z.eqb_neq; lia).
  replace (2 ^ 63 - 33 <=? n)%Z with false by (symmetry; apply Z.leb_gt; lia).
  now rewrite Hmem.
Qed.

Lemma rfile_read_out_of_range w n st :
  (n < -1 \/ 2 ^ 63 - 33 <= n)%Z -> exists e, rfile_read w n st = (Raise e, st).
Proof.
  intros Hn. unfold rfile_read.
  destruct ((n <? - 2 ^ 63)%Z || (2 ^ 63 - 1 <? n)%Z)%bool eqn:E; [eauto|].
  apply orb_false_elim in E. destruct E as [E1 E2].
  apply Z.ltb_ge in E1, E2.
  destruct (n <? -1)%Z eqn:E3; [eauto|]. apply Z.ltb_ge in E3.
  replace (n =? -1)%Z with false by (symmetry; apply Z.eqb_neq; lia).
  replace (2 ^ 63 - 33 <=? n)%Z with true by (symmetry; apply Z.leb_le; lia).
  eauto.
Qed.

Lemma rfile_read_no_memory w n st :
  (0 <= n < 2 ^ 63 - 33)%Z ->
  can_allocate w (Z.to_N n) = false ->
  rfile_read w n st = (Raise MemoryError, st).
Proof.
  intros Hn Hmem. unfold rfile_read.
  replace ((n <? - 2 ^ 63)%Z || (2 ^ 63 - 1 <? n)%Z)%bool with false
    by (symmetry; apply orb_false_intro; apply Z.ltb_ge; lia).
  replace (n <? -1)%Z with false by (symmetry; apply Z.ltb_ge; lia).
  replace (n =? -1)%Z with false by (symmetry; apply Z.eqb_neq; lia).
  replace (2 ^ 63 - 33 <=? n)%Z with false by (symmetry; apply Z.leb_gt; lia).
  now rewrite Hmem.
Qed.

Lemma binary_not_utf8 : ~ valid_utf8 [xff; xfe; x00].
Proof.
  intros Hv. apply valid_utf8_decodes in Hv. destruct Hv as (text & Hd).
  vm_compute in Hd. discriminate.
Defined.

(** ** [do_POST] on any connection *)

(** [do_POST], stage by stage. *)
Lemma do_POST_stages w self st :
  do_POST w self st =
  let failed e st' :=
    (Ok tt, add_sent (response_events (error_response (exn_str e))) st') in
  match read_request_body w self st with
  | (Raise e, st1) => failed e st1
  | (Ok post_data, st1) =>
      match Json.loads (max_str_digits w) (recursion_depth w) post_data with
      | Raise e => failed e st1
      | Ok parsed =>
          match getitem parsed (lit "url") with
          | Raise e => failed e st1
          | Ok url =>
              match request_for w url with
              | Raise e => failed e st1
              | Ok _ =>
                  let st2 := add_opened (outbound url) st1 in
                  match urlopen w (outbound url) with
                  | Raise e => failed e st2
                  | Ok response =>
                      match read response with
                      | Raise e => failed e st2
                      | Ok raw =>
                          match utf8_decode raw with
                          | Raise e => failed e st2
                          | Ok text =>
                              (Ok tt,
                               add_sent
                                 (response_events (success_response text))
                                 st2)
                          end
                      end
                  end
              end
          end
      end
  end.
Proof.
  rewrite do_POST_run, do_POST_try_run. cbv zeta.
  destruct (read_request_body w self st) as [[post_data|e] st1]; [|reflexivity].
  destruct (Json.loads _ _ post_data) as [parsed|e]; [|reflexivity].
  destruct (getitem parsed (lit "url")) as [url|e]; [|reflexivity].
  destruct (request_for w url) as [req|e]; [|reflexivity].
  destruct (urlopen w (outbound url)) as [response|e]; [|reflexivity].
  destruct (read response) as [raw|e]; [|reflexivity].
  destruct (utf8_decode raw) as [text|e]; reflexivity.
Qed.

(** What reading the body leaves of the state. *)
Lemma read_request_body_frame w self st :
  sent (snd (read_request_body w self st)) = sent st
  /\ opened (snd (read_request_body w self st)) = opened st
  /\ exists k, rfile (snd (read_request_body w self st)) = skipn k (rfile st).
Proof.
  destruct (read_request_body w self st) as [r st1] eqn:Hbody.
  pose proof (read_request_body_quiet _ _ _ _ _ Hbody) as [Hs Ho].
  cbn [snd]. repeat split; try assumption.
  rewrite read_request_body_run in Hbody.
  destruct (int _ _) as [n|e].
  - destruct (rfile_read_cases w n st) as [[k Hk]|[e Hk]];
      rewrite Hk in Hbody; inversion Hbody; subst.
    + exists k. reflexivity.
    + exists 0%nat. reflexivity.
  - inversion Hbody; subst. exists 0%nat. reflexivity.
Qed.

Ltac post_stages w self st :=
  rewrite (do_POST_stages w self st); cbv zeta;
  let post_data := fresh "post_data" in
  let st1 := fresh "st1" in
  let Hbody := fresh "Hbody" in
  destruct (read_request_body w self st) as [[post_data|?e] st1] eqn:Hbody;
  [destruct (Json.loads (max_str_digits w) (recursion_depth w) post_data)
     as [?parsed|?e] eqn:?Hloads;
   [destruct (getitem _ (lit "url")) as [?url|?e] eqn:?Hurl;
    [destruct (request_for w _) as [?req|?e] eqn:?Hreq;
     [destruct (urlopen w _) as [?reply|?e] eqn:?Hopen;
      [destruct (read _) as [?raw|?e] eqn:?Hread;
       [destruct (utf8_decode _) as [?text|?e] eqn:?Hdec|]|]|]|]|]|].

Lemma add_headers hs : forall code h0 b rs,
  fold_left add_event (map (fun h => SendHeader (fst h) (snd h)) hs)
            ({| status := code; response_headers := h0; body := b |} :: rs)
  = {| status := code; response_headers := h0 ++ hs; body := b |} :: rs.
Proof.
  induction hs as [|[k v] hs IH]; intros code h0 b rs; cbn [map fold_left].
  - now rewrite app_nil_r.
  - cbn [add_event status response_headers body fst snd].
    rewrite IH, <- app_assoc. reflexivity.
Qed.

Lemma responses_events r : responses (response_events r) = [r].
Proof.
  destruct r as [code hs b].
  unfold responses, response_events, head_events.
  cbn [status response_headers body app fold_left add_event].
  rewrite <- app_assoc, fold_left_app, add_headers. reflexivity.
Qed.

Lemma responses_on_fresh st r :
  sent st = [] -> responses (sent (add_sent (response_events r) st)) = [r].
Proof.
  intros Hs. cbn [sent add_sent]. rewrite Hs. apply responses_events.
Qed.

Lemma ascii_bytes_ascii s :
  ascii_text s -> Forall (fun b => Byte.to_N b < 128) (ascii_bytes s).
Proof.
  unfold ascii_text, ascii_bytes. intros H.
  apply Forall_map. eapply Forall_impl; [|exact H].
  intros c Hc. cbn beta in *. rewrite to_N_byte_of; lia.
Qed.

(** ** [int()] on decimal digits *)

(** Decimal digits *)
Lemma lit_String a s : lit (String a s) = N_of_ascii a :: lit s.
Proof.
  unfold lit. cbn [list_byte_of_string map]. f_equal.
  destruct a as [[] [] [] [] [] [] [] []]; reflexivity.
Qed.

Lemma scan_digits_digit acc nd prev c r :
  is_digit c = true ->
  scan_digits acc nd prev (c :: r)
  = scan_digits (10 * acc + Z.of_N (c - 48)) (nd + 1) false r.
Proof. intros H. cbn [scan_digits]. now rewrite H. Qed.

Ltac digit_value :=
  match goal with
  | |- context [Z.of_N (N_of_ascii ?c - 48)] =>
      let v := eval vm_compute in (Z.of_N (N_of_ascii c - 48)) in
      change (Z.of_N (N_of_ascii c - 48)) with v
  end; lia.

Lemma scan_uint_pos l :
  forall p nd,
    scan_digits (Zpos p) nd false (lit (NilEmpty.string_of_uint l))
    = Some (Zpos (Pos.of_uint_acc l p), nd + N.of_nat (Decimal.nb_digits l),
            false, []).
Proof.
  induction l; intros p nd;
    cbn [NilEmpty.string_of_uint Pos.of_uint_acc Decimal.nb_digits];
    try (rewrite lit_String, scan_digits_digit by reflexivity;
         rewrite Nat2N.inj_succ;
         match goal with
         | |- scan_digits ?a _ _ _
              = Some (Zpos (Pos.of_uint_acc _ ?q), _, _, _) =>
             replace a with (Zpos q) by digit_value
         end;
         rewrite IHl, <- N.add_assoc, N.add_1_l; reflexivity).
  change (N.of_nat 0) with 0. now rewrite N.add_0_r.
Qed.

Lemma scan_uint l :
  forall nd,
    scan_digits 0 nd false (lit (NilEmpty.string_of_uint l))
    = Some (Z.of_N (N.of_uint l), nd + N.of_nat (Decimal.nb_digits l),
            false, []).
Proof.
  induction l; intros nd;
    cbn [NilEmpty.string_of_uint N.of_uint Pos.of_uint Decimal.nb_digits];
    try (rewrite lit_String, scan_digits_digit by reflexivity;
         rewrite Nat2N.inj_succ;
         first [ replace (10 * 0 + Z.of_N (N_of_ascii "0" - 48))%Z with 0%Z
                   by reflexivity;
                 rewrite IHl, <- N.add_assoc, N.add_1_l; reflexivity
               | match goal with
                 | |- scan_digits ?a _ _ _
                      = Some (Z.of_N (N.pos (Pos.of_uint_acc _ ?q)), _, _, _) =>
                     replace a with (Zpos q) by digit_value
                 end;
                 rewrite scan_uint_pos, <- N.add_assoc, N.add_1_l; reflexivity ]).
  change (N.of_nat 0) with 0. now rewrite N.add_0_r.
Qed.

Lemma of_uint_acc_lower l :
  forall p, Npos p * 10 ^ N.of_nat (Decimal.nb_digits l)
            <= Npos (Pos.of_uint_acc l p).
Proof.
  induction l; intros p; cbn [Pos.of_uint_acc Decimal.nb_digits];
    try (rewrite Nat2N.inj_succ, N.pow_succ_r';
         match goal with
         | |- _ <= Npos (Pos.of_uint_acc _ ?q) =>
             apply N.le_trans
               with (Npos q * 10 ^ N.of_nat (Decimal.nb_digits l));
             [|apply IHl]
         end;
         generalize (10 ^ N.of_nat (Decimal.nb_digits l)); intros X; nia).
  change (N.of_nat 0) with 0. rewrite N.pow_0_r. lia.
Qed.

Lemma to_uint_digits n k :
  0 < k -> n < 10 ^ k ->
  N.of_nat (Decimal.nb_digits (N.to_uint n)) <= k.
Proof.
  intros Hk Hn.
  destruct n as [|p]; [cbn; lia|].
  pose proof (DecimalN.Unsigned.of_to (Npos p)) as Hof.
  pose proof (DecimalN.Unsigned.to_of (N.to_uint (Npos p))) as Hto.
  rewrite Hof in Hto.
  remember (N.to_uint (Npos p)) as d eqn:Hd.
  assert (Hgen : forall l q,
             Npos q <= 9 ->
             Npos (Pos.of_uint_acc l q) = Npos p ->
             N.of_nat (S (Decimal.nb_digits l)) <= k).
  { intros l q Hq Hv.
    pose proof (of_uint_acc_lower l q) as Hlow. rewrite Hv in Hlow.
    assert (10 ^ N.of_nat (Decimal.nb_digits l) < 10 ^ k) as Hpow by nia.
    apply N.pow_lt_mono_r_iff in Hpow; lia. }
  destruct d; cbn [N.of_uint Pos.of_uint] in Hof;
    try (eapply (Hgen d); [|exact Hof]; lia).
  - discriminate.
  - (* leading zero: not normal *)
    exfalso.
    unfold Decimal.unorm in Hto. cbn [Decimal.nzhead] in Hto.
    pose proof (DecimalFacts.nb_digits_nzhead d) as Hnz.
    destruct (Decimal.nzhead d) eqn:E; try discriminate Hto.
    + injection Hto as ->. cbn in Hof. discriminate Hof.
    + injection Hto as ->. cbn [Decimal.nb_digits] in Hnz. lia.
Qed.

Lemma scan_digits_all v : forall acc nd prev,
  forallb is_digit v = true ->
  scan_digits acc nd prev v
  = Some (fold_left (fun acc c => (10 * acc + Z.of_N (c - 48))%Z) v acc,
          nd + N.of_nat (List.length v),
          match v with [] => prev | _ :: _ => false end, []).
Proof.
  induction v as [|c r IH]; intros acc nd prev Hv.
  - cbn. now rewrite N.add_0_r.
  - cbn [forallb] in Hv. apply andb_prop in Hv. destruct Hv as [Hc Hr].
    rewrite scan_digits_digit by exact Hc. rewrite IH by exact Hr.
    cbn [fold_left List.length]. rewrite Nat2N.inj_succ.
    rewrite <- N.add_assoc, N.add_1_l.
    destruct r; reflexivity.
Qed.

Lemma digit_cases c :
  is_digit c = true ->
  c = 48 \/ c = 49 \/ c = 50 \/ c = 51 \/ c = 52 \/ c = 53 \/ c = 54
  \/ c = 55 \/ c = 56 \/ c = 57.
Proof. unfold is_digit, between. intros H. bool_facts. lia. Qed.

Lemma to_ascii_space_digits v :
  forallb is_digit v = true -> map to_ascii_space v = v.
Proof.
  induction v as [|c r IH]; intros Hv; [reflexivity|].
  cbn [forallb] in Hv. apply andb_prop in Hv. destruct Hv as [Hc Hr].
  cbn [map]. rewrite IH by exact Hr. f_equal.
  apply digit_cases in Hc.
  repeat (destruct Hc as [->|Hc]; [reflexivity|]). now subst.
Qed.

Lemma int_of_digits msd v :
  valid_content_length v = true ->
  int_of_str msd v
  = if (640 <? N.of_nat (List.length v)) && (0 <? msd)
       && (msd <? N.of_nat (List.length v))
    then Raise (digits_limit_error msd (N.of_nat (List.length v)))
    else Ok (decimal_value v).
Proof.
  unfold valid_content_length. intros Hv.
  apply andb_prop in Hv. destruct Hv as [Hne Hd].
  destruct v as [|c r]; [discriminate Hne|]. clear Hne.
  unfold int_of_str. rewrite to_ascii_space_digits by exact Hd.
  pose proof (scan_digits_all (c :: r) 0%Z 0 false Hd) as Hscan.
  rewrite N.add_0_l in Hscan.
  fold (decimal_value (c :: r)) in Hscan.
  cbn [forallb] in Hd. apply andb_prop in Hd. destruct Hd as [Hc Hr].
  assert (Hnz : (N.of_nat (List.length (c :: r)) =? 0) = false).
  { apply N.eqb_neq. cbn [List.length]. lia. }
  apply digit_cases in Hc.
  repeat (destruct Hc as [Hc|Hc]);
    subst c; cbn [skip_space is_space between N.leb N.compare Pos.compare
                   Pos.compare_cont andb orb N.eqb Pos.eqb];
    cbv beta iota zeta;
    rewrite Hscan; cbv beta iota zeta; rewrite Hnz;
    destruct (_ && _)%bool; reflexivity.
Qed.

Lemma uint_digits l : forallb is_digit (lit (NilEmpty.string_of_uint l)) = true.
Proof.
  induction l; cbn [NilEmpty.string_of_uint];
    try (rewrite lit_String; cbn [forallb]; rewrite IHl; reflexivity).
  reflexivity.
Qed.

Lemma uint_length l :
  List.length (lit (NilEmpty.string_of_uint l)) = Decimal.nb_digits l.
Proof.
  induction l; cbn [NilEmpty.string_of_uint Decimal.nb_digits];
    try (rewrite lit_String; cbn [List.length]; rewrite IHl; reflexivity).
  reflexivity.
Qed.

Lemma dec_uint n : dec n = lit (NilEmpty.string_of_uint (N.to_uint n)).
Proof.
  unfold dec.
  destruct (N.to_uint n) eqn:E; try reflexivity.
  pose proof (DecimalN.Unsigned.of_to n) as Hof. rewrite E in Hof.
  cbn in Hof. subst n. discriminate E.
Qed.

Lemma dec_valid n : valid_content_length (dec n) = true.
Proof.
  rewrite dec_uint. unfold valid_content_length.
  rewrite uint_digits, uint_length, andb_true_r.
  destruct (N.to_uint n) eqn:E; try reflexivity.
  pose proof (DecimalN.Unsigned.of_to n) as Hof. rewrite E in Hof.
  cbn in Hof. subst n. discriminate E.
Qed.

Lemma dec_value n : decimal_value (dec n) = Z.of_N n.
Proof.
  pose proof (scan_digits_all (dec n) 0%Z 0 false) as Hall.
  rewrite dec_uint in *.
  rewrite scan_uint in Hall. specialize (Hall (uint_digits _)).
  rewrite DecimalN.Unsigned.of_to in Hall.
  unfold decimal_value. congruence.
Qed.

Lemma dec_length n k :
  0 < k -> n < 10 ^ k -> N.of_nat (List.length (dec n)) <= k.
Proof.
  intros Hk Hn. rewrite dec_uint, uint_length. now apply to_uint_digits.
Qed.

(** [int(str(n))] is [n]. *)
Lemma int_dec msd n : n < 2 ^ 63 -> int msd (Some (dec n)) = Ok (Z.of_N n).
Proof.
  intros Hn. cbn [int]. rewrite int_of_digits by apply dec_valid.
  assert (Hlen : N.of_nat (List.length (dec n)) <= 19).
  { apply dec_length; [lia|]. eapply N.lt_le_trans; [exact Hn|].
    vm_compute. discriminate. }
  replace (640 <? N.of_nat (List.length (dec n))) with false
    by (symmetry; apply N.ltb_ge; lia).
  cbn [andb]. now rewrite dec_value.
Qed.

Lemma decimal_value_nonneg v : (0 <= decimal_value v)%Z.
Proof.
  unfold decimal_value.
  assert (H : forall acc, (0 <= acc)%Z ->
            (0 <= fold_left (fun acc c => (10 * acc + Z.of_N (c - 48))%Z) v acc)%Z).
  { induction v as [|c r IH]; intros acc Hacc; cbn [fold_left]; [exact Hacc|].
    apply IH. lia. }
  apply H. lia.
Qed.

(** ** What [int()] takes besides digits *)

Lemma space_cases c :
  is_space c = true -> c = 9 \/ c = 10 \/ c = 11 \/ c = 12 \/ c = 13 \/ c = 32.
Proof.
  unfold is_space, between. intros H.
  apply orb_prop in H. destruct H as [H|H].
  - apply andb_prop in H. destruct H as [H1 H2].
    apply N.leb_le in H1, H2. lia.
  - apply N.eqb_eq in H. lia.
Qed.

Lemma to_ascii_space_spaces ws :
  forallb is_space ws = true -> map to_ascii_space ws = ws.
Proof.
  induction ws as [|c r IH]; intros Hv; [reflexivity|].
  cbn [forallb] in Hv. apply andb_prop in Hv. destruct Hv as [Hc Hr].
  cbn [map]. rewrite IH by exact Hr. f_equal.
  apply space_cases in Hc.
  repeat (destruct Hc as [->|Hc]; [reflexivity|]). now subst.
Qed.

Lemma skip_space_spaces ws s :
  forallb is_space ws = true -> skip_space (ws ++ s) = skip_space s.
Proof.
  induction ws as [|c r IH]; intros Hv; [reflexivity|].
  cbn [forallb] in Hv. apply andb_prop in Hv. destruct Hv as [Hc Hr].
  cbn [app skip_space]. rewrite Hc. now apply IH.
Qed.

Lemma scan_digits_spaces v ws : forall acc nd prev,
  forallb is_digit v = true ->
  forallb is_space ws = true ->
  scan_digits acc nd prev (v ++ ws)
  = Some (fold_left (fun acc c => (10 * acc + Z.of_N (c - 48))%Z) v acc,
          nd + N.of_nat (List.length v),
          match v with [] => prev | _ :: _ => false end, ws).
Proof.
  induction v as [|c r IH]; intros acc nd prev Hv Hws.
  - cbn [app fold_left List.length]. rewrite N.add_0_r.
    destruct ws as [|s ws']; [reflexivity|].
    cbn [forallb] in Hws. apply andb_prop in Hws. destruct Hws as [Hs _].
    apply space_cases in Hs.
    repeat (destruct Hs as [->|Hs]; [reflexivity|]). now subst.
  - cbn [forallb] in Hv. apply andb_prop in Hv. destruct Hv as [Hc Hr].
    cbn [app]. rewrite scan_digits_digit by exact Hc.
    rewrite IH by assumption.
    cbn [fold_left List.length]. rewrite Nat2N.inj_succ.
    rewrite <- N.add_assoc, N.add_1_l.
    destruct r; reflexivity.
Qed.

Lemma skip_space_all ws : forallb is_space ws = true -> skip_space ws = [].
Proof.
  intros H. rewrite <- (app_nil_r ws). now rewrite skip_space_spaces.
Qed.

Lemma int_lenient msd before v after :
  forallb is_space before = true ->
  valid_content_length v = true ->
  forallb is_space after = true ->
  (List.length v <= 640)%nat ->
  int msd (Some (before ++ v ++ after)) = Ok (decimal_value v)
  /\ int msd (Some (before ++ 43 :: v ++ after)) = Ok (decimal_value v).
Proof.
  intros Hb Hv Ha Hlen.
  unfold valid_content_length in Hv.
  apply andb_prop in Hv. destruct Hv as [Hne Hd].
  destruct v as [|c r]; [discriminate Hne|]. clear Hne.
  pose proof (scan_digits_spaces (c :: r) after 0%Z 0 false Hd Ha) as Hscan.
  rewrite N.add_0_l in Hscan.
  fold (decimal_value (c :: r)) in Hscan.
  assert (Hnz : (N.of_nat (List.length (c :: r)) =? 0) = false).
  { apply N.eqb_neq. cbn [List.length]. lia. }
  assert (Hshort : (640 <? N.of_nat (List.length (c :: r))) = false).
  { apply N.ltb_ge. lia. }
  assert (Hmap : forall sign,
             map to_ascii_space (before ++ sign ++ (c :: r) ++ after)
             = before ++ map to_ascii_space sign ++ (c :: r) ++ after).
  { intros sign. rewrite !map_app.
    rewrite (to_ascii_space_spaces before Hb), (to_ascii_space_spaces after Ha).
    now rewrite (to_ascii_space_digits (c :: r) Hd). }
  cbn [forallb] in Hd. apply andb_prop in Hd. destruct Hd as [Hc Hr].
  apply digit_cases in Hc.
  cbn [int]. unfold int_of_str.
  pose proof (Hmap []) as H0. pose proof (Hmap [43]) as H1.
  cbn [app map] in H0, H1.
  change (to_ascii_space 43) with 43 in H1.
  cbn [app]. rewrite H0, H1. rewrite !skip_space_spaces by exact Hb.
  repeat (destruct Hc as [Hc|Hc]);
    subst c; cbn [skip_space is_space between N.leb N.compare Pos.compare
                   Pos.compare_cont andb orb N.eqb Pos.eqb];
    cbv beta iota zeta;
    cbn [app] in Hscan; rewrite Hscan; cbv beta iota zeta;
    rewrite Hnz, Hshort, (skip_space_all after Ha); cbn [andb];
    repeat split.
Qed.

(** The request shows in [do_POST] through what [int()] makes of its
    [Content-Length] header only. *)
Lemma do_POST_by_length w self1 self2 st :
  int (max_str_digits w) (get_header (headers self1) (lit "Content-Length"))
  = int (max_str_digits w) (get_header (headers self2) (lit "Content-Length")) ->
  do_POST w self1 st = do_POST w self2 st.
Proof.
  intros H. rewrite !do_POST_stages, !read_request_body_run, H. reflexivity.
Qed.

Lemma get_header_post v :
  get_header (headers (post (Some v))) (lit "Content-Length") = Some v.
Proof. reflexivity. Qed.

(** ** A request written by [json.dumps] *)

Lemma str_eqb_eq a b : str_eqb a b = true <-> a = b.
Proof.
  unfold str_eqb. destruct (list_eq_dec N.eq_dec a b); split; congruence.
Qed.

Lemma str_eqb_trans_l a b c :
  str_eqb a b = true -> str_eqb a c = str_eqb b c.
Proof. intros H. apply str_eqb_eq in H. now subst. Qed.

Lemma dict_get_set d k' v k :
  dict_get (dict_set d k' v) k
  = if str_eqb k' k then Some v else dict_get d k.
Proof.
  induction d as [|[k0 v0] d IH]; cbn [dict_set dict_get].
  - destruct (str_eqb k' k); reflexivity.
  - destruct (str_eqb k0 k') eqn:E0; cbn [dict_get].
    + rewrite (str_eqb_trans_l _ _ k E0).
      destruct (str_eqb k' k); reflexivity.
    + destruct (str_eqb k0 k) eqn:E1; [|exact IH].
      destruct (str_eqb k' k) eqn:E2; [|reflexivity].
      apply str_eqb_eq in E1, E2. subst.
      unfold str_eqb in E0. destruct (list_eq_dec N.eq_dec k k); congruence.
Qed.

Lemma dict_get_store k items : forall d,
  dict_get (store_items items d) k
  = match last_member k items with
    | Some v => Some (VStr v)
    | None => dict_get d k
    end.
Proof.
  unfold store_items, last_member.
  assert (Hinit : forall items init,
             fold_left (fun found kv =>
                          if str_eqb (fst kv) k then Some (snd kv) else found)
                       items init
             = match fold_left (fun found (kv : str * str) =>
                                  if str_eqb (fst kv) k then Some (snd kv)
                                  else found) items None with
               | Some v => Some v
               | None => init
               end).
  { clear. induction items as [|kv items IH]; intros init; [reflexivity|].
    cbn [fold_left]. rewrite IH.
    rewrite (IH (if str_eqb (fst kv) k then Some (snd kv) else None)).
    destruct (fold_left _ items None); [reflexivity|].
    destruct (str_eqb (fst kv) k); reflexivity. }
  induction items as [|kv items IH]; intros d; [reflexivity|].
  cbn [fold_left]. rewrite IH, dict_get_set.
  rewrite (Hinit items (if str_eqb (fst kv) k then Some (snd kv) else None)).
  destruct (fold_left _ items None); [reflexivity|].
  destruct (str_eqb (fst kv) k); reflexivity.
Qed.

(** Reading a body sent with its own length. *)
Lemma read_counted_body w self v data rest :
  get_header (headers self) (lit "Content-Length") = Some v ->
  valid_content_length v = true ->
  (List.length v <= 640)%nat ->
  decimal_value v = Z.of_nat (List.length data) ->
  (Z.of_nat (List.length data) < 2 ^ 63 - 33)%Z ->
  can_allocate w (N.of_nat (List.length data)) = true ->
  read_request_body w self (connection (data ++ rest))
  = (Ok data, advance (List.length data) (connection (data ++ rest))).
Proof.
  intros Hget Hv Hshort Hvalue Hlen Hmem.
  rewrite read_request_body_run, Hget. cbn [int].
  rewrite int_of_digits by exact Hv.
  replace (640 <? N.of_nat (List.length v)) with false
    by (symmetry; apply N.ltb_ge; lia).
  cbn [andb]. rewrite Hvalue.
  rewrite rfile_read_in_range.
  - rewrite Nat2Z.id. cbn [connection rfile].
    rewrite firstn_app, firstn_all, Nat.sub_diag. cbn [firstn].
    now rewrite app_nil_r.
  - lia.
  - rewrite <- nat_N_Z, N2Z.id. exact Hmem.
Qed.

(** The same for the header [post_of] writes. *)
Lemma read_counted_body_post w data rest :
  (Z.of_nat (List.length data) < 2 ^ 63 - 33)%Z ->
  can_allocate w (N.of_nat (List.length data)) = true ->
  read_request_body w (post_of data) (connection (data ++ rest))
  = (Ok data, advance (List.length data) (connection (data ++ rest))).
Proof.
  intros Hlen Hmem.
  apply (read_counted_body w (post_of data)
           (dec (N.of_nat (List.length data)))).
  - apply get_header_post.
  - apply dec_valid.
  - assert (N.of_nat (List.length (dec (N.of_nat (List.length data)))) <= 19).
    { apply dec_length; [lia|].
      apply N.lt_le_trans with (2 ^ 63); [lia|]. vm_compute. discriminate. }
    lia.
  - rewrite dec_value. apply nat_N_Z.
  - exact Hlen.
  - exact Hmem.
Qed.

(** ** The descriptions of the failures before the outbound request *)

Lemma ascii_forallb s : forallb (fun c => c <? 128) s = true -> ascii_text s.
Proof.
  unfold ascii_text. rewrite forallb_forall, Forall_forall.
  intros H c Hc. apply N.ltb_lt. auto.
Qed.

Lemma ascii_latin1 s : ascii_text s -> latin1_text s.
Proof.
  unfold ascii_text, latin1_text. intros H.
  eapply Forall_impl; [|exact H]. cbn beta. intros; lia.
Qed.

Lemma latin1_app a b : latin1_text a -> latin1_text b -> latin1_text (a ++ b).
Proof. unfold latin1_text. intros; apply Forall_app; auto. Qed.

Lemma latin1_scalar s : latin1_text s -> scalar_text s.
Proof.
  unfold latin1_text, scalar_text. intros H.
  eapply Forall_impl; [|exact H]. cbn beta. intros c Hc.
  unfold is_scalar, is_surrogate, between.
  apply andb_true_intro. split; [apply N.ltb_lt; lia|].
  apply negb_true_iff, andb_false_intro1, N.leb_gt. lia.
Qed.

Lemma dec_ascii n : ascii_text (dec n).
Proof.
  rewrite dec_uint. generalize (N.to_uint n). intros l.
  induction l; cbn [NilEmpty.string_of_uint];
    try (rewrite lit_String; constructor; [reflexivity | exact IHl]).
  constructor.
Qed.

Lemma hex2_ascii b : b < 256 -> ascii_text (hex2 b).
Proof.
  intros Hb. unfold hex2.
  repeat constructor; apply hexdigit_ascii; lia.
Qed.

Ltac ascii_parts :=
  repeat first
    [ apply dec_ascii
    | apply ascii_forallb; reflexivity
    | apply ascii_app ].

Lemma json_error_ascii m doc pos : ascii_text (exn_str (JSONDecodeError m doc pos)).
Proof. cbn [exn_str]. destruct m; ascii_parts. Qed.

Lemma digits_limit_ascii limit nd : ascii_text (exn_str (digits_limit_error limit nd)).
Proof. unfold digits_limit_error. cbn [exn_str]. ascii_parts. Qed.

Lemma decode_error_ascii enc obj a b r :
  ascii_text enc -> ascii_text r ->
  ascii_text (exn_str (UnicodeDecodeError enc obj a b r)).
Proof.
  intros He Hr. cbn [exn_str].
  pose proof (Byte.to_N_bounded (nth a obj x00)) as Hb.
  destruct (Nat.eqb b (S a));
    repeat first
      [ exact He | exact Hr | apply dec_ascii | apply hex2_ascii; lia
      | apply ascii_forallb; reflexivity
      | apply ascii_app ].
Qed.

Lemma decode_error_raises_ascii enc obj a b reason :
  forallb (fun c => c <? 128) (lit enc) = true ->
  forallb (fun c => c <? 128) (lit reason) = true ->
  @raises_ascii str (Raise (decode_error enc obj a b reason)).
Proof.
  intros He Hr. apply decode_error_ascii; now apply ascii_forallb.
Qed.

Lemma cons_ok_raises_ascii c r : raises_ascii r -> raises_ascii (cons_ok c r).
Proof. destruct r; simpl; auto. Qed.

Lemma utf8_decode_from_raises_ascii sp obj :
  forall n s pos,
    (List.length s <= n)%nat -> raises_ascii (utf8_decode_from sp obj pos s).
Proof.
  induction n as [|n IH]; intros s pos Hn.
  - destruct s; [exact I | simpl in Hn; lia].
  - destruct s as [|b0 r0]; [exact I|].
    simpl in Hn. cbn [utf8_decode_from].
    repeat
      match goal with
      | |- raises_ascii (Raise (decode_error _ _ _ _ _)) =>
          apply decode_error_raises_ascii; reflexivity
      | |- raises_ascii (cons_ok _ _) =>
          apply cons_ok_raises_ascii; apply IH; simpl in *; lia
      | |- raises_ascii (if ?b then _ else _) => destruct b
      | |- raises_ascii (match ?x with _ => _ end) => destruct x
      end.
Qed.

Lemma utf16_units_raises_ascii le enc obj :
  forallb (fun c => c <? 128) (lit enc) = true ->
  forall n s pos,
    (List.length s <= n)%nat -> raises_ascii (utf16_units le enc obj pos s).
Proof.
  intros He.
  induction n as [|n IH]; intros s pos Hn.
  - destruct s; [exact I | simpl in Hn; lia].
  - destruct s as [|b0 [|b1 r]];
      [exact I | now apply decode_error_raises_ascii |].
    simpl in Hn. cbn [utf16_units].
    specialize (IH r (pos + 2)%nat ltac:(lia)).
    destruct (utf16_units le enc obj (pos + 2) r); simpl; auto.
Qed.

Lemma utf16_decode_from_raises_ascii le enc obj pos s :
  forallb (fun c => c <? 128) (lit enc) = true ->
  raises_ascii (utf16_decode_from le enc obj pos s).
Proof.
  intros He. unfold utf16_decode_from.
  pose proof (utf16_units_raises_ascii le enc obj He _ s pos (le_n _)) as H.
  destruct (utf16_units le enc obj pos s); simpl; auto.
Qed.

Lemma utf32_decode_from_raises_ascii le enc obj :
  forallb (fun c => c <? 128) (lit enc) = true ->
  forall n s pos,
    (List.length s <= n)%nat -> raises_ascii (utf32_decode_from le enc obj pos s).
Proof.
  intros He.
  induction n as [|n IH]; intros s pos Hn.
  - destruct s; [exact I | simpl in Hn; lia].
  - destruct s as [|b0 [|b1 [|b2 [|b3 r]]]];
      try exact I; try (now apply decode_error_raises_ascii).
    simpl in Hn. cbn [utf32_decode_from].
    destruct (_ <? _); [|now apply decode_error_raises_ascii].
    apply cons_ok_raises_ascii. apply IH. lia.
Qed.

Lemma decode_raises_ascii enc b : raises_ascii (Json.decode enc b).
Proof.
  destruct enc; unfold Json.decode, utf8_decode_surrogatepass;
    try (eapply utf8_decode_from_raises_ascii; apply le_n);
    try (apply utf16_decode_from_raises_ascii; reflexivity);
    try (eapply utf32_decode_from_raises_ascii; [reflexivity | apply le_n]).
  - destruct b as [|b0 r]; [exact I|].
    destruct (_ =? _); apply utf16_decode_from_raises_ascii; reflexivity.
  - destruct b as [|b0 r]; [exact I|].
    destruct (_ =? _); (eapply utf32_decode_from_raises_ascii; [reflexivity | apply le_n]).
Qed.

(** The scanner. *)
Lemma errmsg_raises_ascii {A} m doc pos : scan_raises_ascii (@Json.errmsg A m doc pos).
Proof. apply json_error_ascii. Qed.

Lemma scanstring_raises_ascii doc begin :
  forall n s pos acc,
    (List.length s <= n)%nat ->
    scan_raises_ascii (Json.scanstring doc begin pos s acc).
Proof.
  induction n as [|n IH]; intros s pos acc Hn.
  - destruct s; [apply errmsg_raises_ascii | simpl in Hn; lia].
  - destruct s as [|c r]; [apply errmsg_raises_ascii|].
    simpl in Hn.
    cbn [Json.scanstring].
    repeat
      match goal with
      | |- scan_raises_ascii (Json.errmsg _ _ _) => apply errmsg_raises_ascii
      | |- scan_raises_ascii (Json.Found _ _ _) => exact I
      | |- scan_raises_ascii (Json.scanstring _ _ _ ?t _) =>
          apply IH; simpl in *; lia
      | |- scan_raises_ascii (if ?b then _ else _) => destruct b
      | |- scan_raises_ascii (match ?x with _ => _ end) => destruct x
      end.
Qed.

Lemma scan_number_raises_ascii msd pos s : scan_raises_ascii (Json.scan_number msd pos s).
Proof.
  unfold Json.scan_number.
  destruct (Json.match_number s) as [[[lexeme is_float] rest]|]; [|exact I].
  destruct is_float; [exact I|].
  unfold Json.parse_int.
  destruct (_ && _)%bool; [apply digits_limit_ascii | exact I].
Qed.

Lemma constant_raises_ascii name v pos s r :
  Json.constant name v pos s = Some r -> scan_raises_ascii r.
Proof.
  unfold Json.constant.
  destruct (Json.strip_prefix (lit name) s); [|discriminate].
  intros H; inversion H; subst. exact I.
Qed.

Lemma scan_atom_raises_ascii msd pos s : scan_raises_ascii (Json.scan_atom msd pos s).
Proof.
  unfold Json.scan_atom.
  match goal with
  | |- scan_raises_ascii (match ?named with _ => _ end) =>
      destruct named as [r|] eqn:Hnamed; [|apply scan_number_raises_ascii]
  end.
  destruct s as [|c s']; [discriminate|].
  repeat match type of Hnamed with
         | (if ?b then _ else _) = _ => destruct b
         end;
    try discriminate;
    eapply constant_raises_ascii; exact Hnamed.
Qed.

Lemma recursion_error_raises_ascii what :
  forallb (fun c => c <? 128) (lit what) = true ->
  @scan_raises_ascii value (Json.Error (Json.recursion_error what)).
Proof.
  intros H. unfold Json.recursion_error. cbn [scan_raises_ascii exn_str].
  apply ascii_app; [apply ascii_forallb; reflexivity|].
  apply ascii_app; [now apply ascii_forallb | apply ascii_forallb; reflexivity].
Qed.

Ltac raises_ascii_step IHv IHo IHa :=
  match goal with
  | H : scan_raises_ascii (Json.Error ?e) |- scan_raises_ascii (Json.Error ?e) => exact H
  | |- scan_raises_ascii (Json.errmsg _ _ _) => apply errmsg_raises_ascii
  | |- scan_raises_ascii (Json.Error (Json.recursion_error _)) =>
      apply recursion_error_raises_ascii; reflexivity
  | |- scan_raises_ascii (Json.Found _ _ _) => exact I
  | |- scan_raises_ascii (Json.StopIteration _) => exact I
  | |- scan_raises_ascii Json.Exhausted => exact I
  | |- scan_raises_ascii (Json.scan_atom _ _ _) => apply scan_atom_raises_ascii
  | |- scan_raises_ascii (Json.object_loop _ _ _ _ _ _ _) => apply IHo
  | |- scan_raises_ascii (Json.array_loop _ _ _ _ _ _ _) => apply IHa
  | |- context [Json.skip_ws ?p ?t] => destruct (Json.skip_ws p t) as [? ?]
  | |- scan_raises_ascii (match Json.scanstring ?d ?b ?p ?t ?a with _ => _ end) =>
      pose proof (scanstring_raises_ascii d b (List.length t) t p a (le_n _));
      destruct (Json.scanstring d b p t a)
  | |- scan_raises_ascii (match Json.scan_once ?m ?d ?f ?dp ?p ?t with _ => _ end) =>
      pose proof (IHv dp p t);
      destruct (Json.scan_once m d f dp p t)
  | |- scan_raises_ascii (if ?b then _ else _) => destruct b
  | |- scan_raises_ascii (match ?x with _ => _ end) => destruct x
  | |- scan_raises_ascii (let _ := _ in _) => cbv zeta
  end.

Lemma scanner_raises_ascii msd doc :
  forall fuel,
    (forall depth pos s, scan_raises_ascii (Json.scan_once msd doc fuel depth pos s))
    /\ (forall depth pos s acc,
           scan_raises_ascii (Json.object_loop msd doc fuel depth pos s acc))
    /\ (forall depth pos s acc,
           scan_raises_ascii (Json.array_loop msd doc fuel depth pos s acc)).
Proof.
  induction fuel as [|fuel (IHv & IHo & IHa)].
  - repeat split; intros; exact I.
  - repeat split.
    + intros depth pos s. rewrite scan_once_step.
      repeat raises_ascii_step IHv IHo IHa.
    + intros depth pos s acc. rewrite object_loop_step.
      repeat raises_ascii_step IHv IHo IHa.
    + intros depth pos s acc. rewrite array_loop_step.
      repeat raises_ascii_step IHv IHo IHa.
Qed.

Lemma decode_document_raises_ascii msd depth s : raises_ascii (Json.decode_document msd depth s).
Proof.
  unfold Json.decode_document.
  destruct (Json.skip_ws 0 s) as [pos0 s0].
  pose proof (proj1 (scanner_raises_ascii msd s (S (2 * List.length s0))) depth pos0 s0)
    as Hok.
  destruct (Json.scan_once _ _ _ _ _ _) as [v pos1 s1|e1|p|].
  - destruct (Json.skip_ws pos1 s1) as [pos2 [|c r]]; [exact I|].
    apply json_error_ascii.
  - exact Hok.
  - apply json_error_ascii.
  - apply (recursion_error_raises_ascii "value"). reflexivity.
Qed.

Lemma loads_raises_ascii msd depth b : raises_ascii (Json.loads msd depth b).
Proof.
  unfold Json.loads.
  pose proof (decode_raises_ascii (Json.detect_encoding b) b) as Hd.
  destruct (Json.decode _ b) as [s|e]; cbn [rbind]; [|exact Hd].
  apply decode_document_raises_ascii.
Qed.

(** [repr] of a Latin-1 text is Latin-1. *)
Lemma repr_char_latin1 q c :
  q < 256 -> c < 256 -> latin1_text (repr_char q c).
Proof.
  intros Hq Hc. unfold repr_char.
  repeat match goal with
         | |- latin1_text (if ?b then _ else _) => destruct b
         end;
    try (apply ascii_latin1, ascii_forallb; reflexivity);
    try (repeat constructor; assumption).
  apply latin1_app; [apply ascii_latin1, ascii_forallb; reflexivity|].
  apply ascii_latin1, hex2_ascii, Hc.
Qed.

Lemma repr_latin1 x : latin1_text x -> latin1_text (repr x).
Proof.
  intros Hx. unfold repr.
  assert (Hq : repr_quote x < 256).
  { unfold repr_quote. destruct (_ && _)%bool; lia. }
  apply latin1_app; [repeat constructor; exact Hq|].
  apply latin1_app; [|repeat constructor; exact Hq].
  generalize dependent (repr_quote x). intros q Hq.
  induction Hx as [|c x Hc Hx IH]; cbn [flat_map]; [constructor|].
  apply latin1_app; [now apply repr_char_latin1 | exact IH].
Qed.

Lemma latin1_firstn n s : latin1_text s -> latin1_text (firstn n s).
Proof.
  intros Hs. revert n.
  induction Hs as [|c s Hc Hs IH]; intros [|n]; cbn [firstn];
    try (constructor; fail).
  constructor; [exact Hc | apply IH].
Qed.

Lemma invalid_literal_latin1 x :
  latin1_text x -> latin1_text (exn_str (invalid_literal x)).
Proof.
  intros Hx. unfold invalid_literal. cbn [exn_str].
  apply latin1_app; [apply ascii_latin1, ascii_forallb; reflexivity|].
  apply latin1_firstn. now apply repr_latin1.
Qed.

Lemma int_of_str_raises msd x e :
  int_of_str msd x = Raise e ->
  e = invalid_literal x \/ exists nd, e = digits_limit_error msd nd.
Proof.
  unfold int_of_str.
  repeat match goal with
         | |- context [match ?t with _ => _ end] => destruct t
         end;
    intros H; inversion H; eauto.
Qed.

Lemma int_raises_latin1 msd x e :
  (forall v, x = Some v -> latin1_text v) ->
  int msd x = Raise e -> latin1_text (exn_str e).
Proof.
  intros Hx. destruct x as [v|]; cbn [int].
  - intros H. apply int_of_str_raises in H. destruct H as [->|[nd ->]].
    + apply invalid_literal_latin1. now apply Hx.
    + apply ascii_latin1, digits_limit_ascii.
  - intros H; inversion H; subst.
    apply ascii_latin1, ascii_forallb. reflexivity.
Qed.

Lemma rfile_read_raises_ascii w n st e st1 :
  rfile_read w n st = (Raise e, st1) -> ascii_text (exn_str e).
Proof.
  unfold rfile_read.
  destruct (_ || _)%bool;
    [|destruct (n <? -1)%Z;
      [|destruct (n =? -1)%Z;
        [|destruct (2 ^ 63 - 33 <=? n)%Z;
          [|destruct (can_allocate w (Z.to_N n))]]]];
    intros H; inversion H; subst; apply ascii_forallb; reflexivity.
Qed.

Lemma getitem_url_raises_ascii parsed e :
  getitem parsed (lit "url") = Raise e -> ascii_text (exn_str e).
Proof.
  destruct parsed; cbn [getitem];
    try (intros H; inversion H; subst; apply ascii_forallb; reflexivity).
  destruct (dict_get _ _); intros H; inversion H; subst.
  apply ascii_forallb. reflexivity.
Qed.

(** ** A JSON text of the form [{"url": u}] is read as that object *)

Lemma utf8_decode_encode_any sp text :
  Forall (fun c => is_scalar c = true) text ->
  forall eobj epos obj pos b,
    utf8_encode_from eobj epos text = Ok b ->
    utf8_decode_from sp obj pos b = Ok text.
Proof.
  induction 1 as [|c text Hc Htext IH]; intros eobj epos obj pos b.
  - simpl. intros H; inversion H. reflexivity.
  - cbn [utf8_encode_from].
    destruct (utf8_encode_from eobj (S epos) text) as [t|e] eqn:Ht.
    2:{ repeat match goal with |- context [if ?b then _ else _] => destruct b end; discriminate. }
    unfold is_scalar, is_surrogate, between in Hc.
    destruct (c <? 128) eqn:H1.
    { cbn [rbind map app]. intros H; apply Ok_inj in H; subst b. bool_facts.
      cbn [utf8_decode_from]. rewrite to_N_byte_of by lia.
      apply N.ltb_lt in H1. rewrite H1.
      erewrite IH by exact Ht. reflexivity. }
    cbn [rbind]. unfold is_surrogate, between.
    assert (Hb : forall q, q < 256 -> Byte.to_N (byte_of q) = q) by apply to_N_byte_of.
    bool_facts.
    repeat match goal with
           | |- (if ?b then _ else _) = _ -> _ => destruct b eqn:?; bool_facts
           | H : _ \/ _ |- _ => destruct H; bool_facts
           end;
      try discriminate; try lia;
      (intros Heq; apply Ok_inj in Heq; subst b;
       cbn [map app utf8_decode_from];
       rewrite !Hb by lia;
       unfold is_cont, between;
       repeat match goal with
              | |- context [if ?b then _ else _] =>
                  let E := fresh in
                  destruct b eqn:E; bool_facts;
                  repeat match goal with
                         | H : _ \/ _ |- _ => destruct H; bool_facts
                         end;
                  try (exfalso; lia)
              end;
       erewrite IH by exact Ht; cbn [cons_ok rbind]; f_equal; f_equal; lia).
Qed.




Lemma rfc_hexdig_hexval c : rfc_hexdig c = Json.hexval c.
Proof.
  unfold rfc_hexdig, Json.hexval, between.
  destruct ((48 <=? c) && (c <=? 57))%bool eqn:E1; [reflexivity|].
  destruct ((65 <=? c) && (c <=? 70))%bool eqn:E2;
    destruct ((97 <=? c) && (c <=? 102))%bool eqn:E3; try reflexivity.
  bool_facts. lia.
Qed.

Lemma rfc_hex4_hex4val h1 h2 h3 h4 :
  rfc_hex4 h1 h2 h3 h4 = Json.hex4val h1 h2 h3 h4.
Proof.
  unfold rfc_hex4, Json.hex4val. rewrite !rfc_hexdig_hexval.
  destruct (Json.hexval h1), (Json.hexval h2), (Json.hexval h3), (Json.hexval h4);
    try reflexivity.
  f_equal. lia.
Qed.





Lemma rfc_ws_cases c : rfc_ws c = true -> c = 32 \/ c = 9 \/ c = 10 \/ c = 13.
Proof.
  unfold rfc_ws. intros H.
  repeat (apply orb_prop in H; destruct H as [H|H]);
    apply N.eqb_eq in H; auto.
Qed.













(** ** Every JSON text passes the test on the characters outside strings *)

Lemma lex_app a : forall st b,
  lex st (a ++ b)
  = match lex st a with
    | Some st' => lex st' b
    | None => None
    end.
Proof.
  induction a as [|c a IH]; intros st b; [reflexivity|].
  cbn [app lex]. destruct (lex_step st c); [apply IH | reflexivity].
Qed.

Lemma lex_cons st c r :
  lex st (c :: r)
  = match lex_step st c with
    | Some st' => lex st' r
    | None => None
    end.
Proof. reflexivity. Qed.

Lemma lex_outside s :
  Forall (fun c => outside_char c = true /\ c <> 34) s ->
  lex Outside s = Some Outside.
Proof.
  induction 1 as [|c s [Hc Hq] Hs IH]; [reflexivity|].
  cbn [lex lex_step]. apply N.eqb_neq in Hq. now rewrite Hq, Hc.
Qed.

Lemma lex_ws w : json_ws w -> lex Outside w = Some Outside.
Proof.
  intros Hw. apply lex_outside. eapply Forall_impl; [|exact Hw].
  cbn beta. intros c Hc. apply rfc_ws_cases in Hc.
  repeat (destruct Hc as [->|Hc]; [split; [reflexivity|discriminate]|]).
  subst. split; [reflexivity|discriminate].
Qed.

Lemma digit_outside c : is_digit c = true -> outside_char c = true /\ c <> 34.
Proof.
  intros H. apply digit_cases in H.
  repeat (destruct H as [->|H]; [split; [reflexivity|discriminate]|]).
  subst. split; [reflexivity|discriminate].
Qed.

Lemma lex_digits s :
  Forall (fun c => is_digit c = true) s -> lex Outside s = Some Outside.
Proof.
  intros H. apply lex_outside. eapply Forall_impl; [|exact H].
  cbn beta. apply digit_outside.
Qed.

Lemma lex_number s : json_number s -> lex Outside s = Some Outside.
Proof.
  intros (minus & i & f & e & -> & Hm & Hi & Hf & He).
  assert (H1 : lex Outside minus = Some Outside)
    by (destruct Hm as [-> | ->]; reflexivity).
  assert (H2 : lex Outside i = Some Outside).
  { destruct Hi as [-> | (c & r & -> & Hc & Hr)]; [reflexivity|].
    change (c :: r) with ([c] ++ r). rewrite lex_app.
    rewrite (lex_digits [c]); [now apply lex_digits|].
    constructor; [|constructor].
    unfold is_digit, between in *. bool_facts.
    apply andb_true_intro. split; apply N.leb_le; lia. }
  assert (H3 : lex Outside f = Some Outside).
  { destruct Hf as [-> | (d & -> & _ & Hd)]; [reflexivity|].
    change (46 :: d) with ([46] ++ d). rewrite lex_app.
    change (lex Outside [46]) with (Some Outside). now apply lex_digits. }
  assert (H4 : lex Outside e = Some Outside).
  { destruct He as [-> | (x & sign & d & -> & Hx & Hsign & _ & Hd)];
      [reflexivity|].
    apply lex_digits in Hd.
    destruct Hx as [-> | ->]; destruct Hsign as [-> | [-> | ->]]; exact Hd. }
  rewrite lex_app, H1. cbv iota beta.
  rewrite lex_app, H2. cbv iota beta.
  rewrite lex_app, H3. exact H4.
Qed.

Lemma rfc_hexdig_inside h :
  rfc_hexdig h <> None -> lex_step Inside h = Some Inside.
Proof.
  unfold rfc_hexdig, between. intros H.
  assert (Hh : 48 <= h).
  { repeat match type of H with
           | (if ?b then _ else _) <> _ => destruct b eqn:?
           end; try congruence; bool_facts; lia. }
  assert (Hh' : h <= 57 \/ 65 <= h <= 70 \/ 97 <= h).
  { repeat match type of H with
           | (if ?b then _ else _) <> _ => destruct b eqn:?
           end; try congruence; bool_facts; lia. }
  cbn [lex_step].
  replace (h =? 34) with false by (symmetry; apply N.eqb_neq; lia).
  replace (h =? 92) with false by (symmetry; apply N.eqb_neq; lia).
  reflexivity.
Qed.

Lemma lex_string_chars t : json_string_chars t -> lex Inside t = Some Inside.
Proof.
  induction 1 as [|c t Hc Ht IH|e t He Ht IH|h1 h2 h3 h4 t Hh Ht IH].
  - reflexivity.
  - unfold rfc_unescaped in Hc. apply andb_prop in Hc. destruct Hc as [Hc Hb].
    apply andb_prop in Hc. destruct Hc as [_ Hq].
    apply negb_true_iff in Hb, Hq.
    cbn [lex lex_step]. now rewrite Hq, Hb.
  - exact IH.
  - assert (H1 : rfc_hexdig h1 <> None /\ rfc_hexdig h2 <> None
                 /\ rfc_hexdig h3 <> None /\ rfc_hexdig h4 <> None).
    { unfold rfc_hex4 in Hh.
      destruct (rfc_hexdig h1), (rfc_hexdig h2), (rfc_hexdig h3),
        (rfc_hexdig h4); try congruence; repeat split; discriminate. }
    destruct H1 as (H1 & H2 & H3 & H4).
    change (lex Inside (h1 :: h2 :: h3 :: h4 :: t) = Some Inside).
    rewrite lex_cons, (rfc_hexdig_inside h1 H1). cbv iota beta.
    rewrite lex_cons, (rfc_hexdig_inside h2 H2). cbv iota beta.
    rewrite lex_cons, (rfc_hexdig_inside h3 H3). cbv iota beta.
    rewrite lex_cons, (rfc_hexdig_inside h4 H4). exact IH.
Qed.

Lemma lex_seq a b :
  lex Outside a = Some Outside -> lex Outside (a ++ b) = lex Outside b.
Proof. intros H. now rewrite lex_app, H. Qed.

Lemma lex_structural c r :
  outside_char c = true -> (c =? 34) = false ->
  lex Outside (c :: r) = lex Outside r.
Proof. intros Hc Hq. cbn [lex lex_step]. now rewrite Hq, Hc. Qed.

Lemma lex_quoted t r :
  json_string_chars t -> lex Outside (34 :: t ++ 34 :: r) = lex Outside r.
Proof.
  intros Ht. change (lex Inside (t ++ 34 :: r) = lex Outside r).
  now rewrite lex_app, (lex_string_chars t Ht).
Qed.

Lemma lex_grammar :
  (forall s, json_value s -> lex Outside s = Some Outside)
  /\ (forall s, json_elements s -> lex Outside s = Some Outside)
  /\ (forall s, json_members s -> lex Outside s = Some Outside).
Proof.
  apply json_grammar_ind; intros;
    repeat match goal with
           | H : json_ws _ |- _ => apply lex_ws in H
           | H : json_number _ |- _ => apply lex_number in H
           end;
    repeat first
      [ assumption
      | reflexivity
      | rewrite lex_seq by assumption
      | rewrite lex_quoted by assumption
      | rewrite lex_structural by reflexivity ].
Qed.

(** A text that fails the test is no JSON text. *)
Lemma json_text_lex doc : json_text doc -> lex Outside doc = Some Outside.
Proof.
  intros (w1 & v & w2 & H1 & Hv & H2 & ->).
  apply lex_ws in H1, H2. apply (proj1 lex_grammar) in Hv.
  now rewrite !lex_seq.
Qed.


(** ** What [int()] accepts is an integer literal *)

Lemma sign_match s :
  match s with
  | 43 :: r => (false, r)
  | 45 :: r => (true, r)
  | _ => (false, s)
  end
  = match s with
    | c :: r =>
        if c =? 43 then (false, r) else if c =? 45 then (true, r) else (false, s)
    | [] => (false, s)
    end.
Proof.
  destruct s as [|c r]; [reflexivity|].
  destruct c as [|p]; [reflexivity|].
  do 7 (try (destruct p as [p|p|]; try reflexivity)).
Qed.

Lemma underscore_match {A} s (a b : A) :
  match s with
  | 95 :: _ => a
  | _ => b
  end
  = if match s with c :: _ => c =? 95 | [] => false end then a else b.
Proof.
  destruct s as [|c r]; [reflexivity|].
  destruct c as [|p]; [reflexivity|].
  do 8 (try (destruct p as [p|p|]; try reflexivity)).
Qed.

Lemma skip_space_split s :
  exists ws, s = ws ++ skip_space s /\ Forall (fun c => is_space c = true) ws.
Proof.
  induction s as [|c s (ws & Hs & Hws)]; [exists []; split; [reflexivity|constructor]|].
  cbn [skip_space]. destruct (is_space c) eqn:E.
  - exists (c :: ws). split; [cbn [app]; now f_equal | now constructor].
  - exists []. split; [reflexivity | constructor].
Qed.

Lemma skip_space_nil s :
  skip_space s = [] -> Forall (fun c => is_space c = true) s.
Proof.
  intros H. destruct (skip_space_split s) as (ws & Hs & Hws).
  rewrite H, app_nil_r in Hs. now subst.
Qed.

Lemma to_ascii_space_other c d :
  to_ascii_space c = d -> d <> 32 -> c = d.
Proof.
  unfold to_ascii_space. destruct (_ || _)%bool; congruence.
Qed.

Lemma to_ascii_space_space c :
  is_space (to_ascii_space c) = true -> int_space c = true.
Proof.
  unfold to_ascii_space, int_space, is_space.
  destruct (c =? 133) eqn:E1; [now rewrite !orb_true_r|].
  destruct (c =? 160) eqn:E2; [now rewrite !orb_true_r|].
  cbn [orb]. intros H. now rewrite H.
Qed.

Lemma map_space_inv v s :
  map to_ascii_space v = s -> Forall (fun c => is_space c = true) s ->
  Forall (fun c => int_space c = true) v.
Proof.
  intros <- H. apply Forall_map in H.
  eapply Forall_impl; [|exact H]. cbn beta. apply to_ascii_space_space.
Qed.

Lemma map_other_inv v s :
  map to_ascii_space v = s -> Forall (fun d => d <> 32) s -> v = s.
Proof.
  revert s. induction v as [|c v IH]; intros s Hs Hall; cbn [map] in Hs.
  - now subst.
  - subst s. inversion Hall as [|? ? Hc Hv]; subst.
    f_equal; [eapply to_ascii_space_other; [reflexivity | exact Hc]|].
    now apply IH.
Qed.

Lemma digit_not_space c : is_digit c = true -> c <> 32.
Proof. unfold is_digit, between. intros H. bool_facts. lia. Qed.

Lemma digit_tail_not_space r : digit_tail r -> Forall (fun d => d <> 32) r.
Proof.
  induction 1 as [|c r Hc Hr IH|c r Hc Hr IH].
  - constructor.
  - constructor; [now apply digit_not_space | exact IH].
  - constructor; [discriminate|].
    constructor; [now apply digit_not_space | exact IH].
Qed.

(** What the scan of the digits takes from the text. *)
Lemma scan_digits_tail s : forall acc nd prev v nd' rest,
  scan_digits acc nd prev s = Some (v, nd', false, rest) ->
  exists body,
    s = body ++ rest
    /\ (body = [] -> nd' = nd)
    /\ if prev then exists c r, body = c :: r /\ is_digit c = true /\ digit_tail r
       else digit_tail body.
Proof.
  induction s as [|c s IH]; intros acc nd prev v nd' rest; cbn [scan_digits].
  - intros H. apply (f_equal (fun o => match o with Some (_, n, p, r) => (n, p, r) | None => (nd, prev, []) end)) in H.
    cbn beta iota in H.
    assert (Hn : nd = nd') by congruence.
    assert (Hp : prev = false) by congruence.
    assert (Hr : rest = []) by congruence.
    subst. exists []. repeat split. constructor.
  - destruct (is_digit c) eqn:Hd.
    + intros H. apply IH in H. destruct H as (body & -> & _ & Hb).
      exists (c :: body). split; [reflexivity|]. split; [discriminate|].
      destruct prev.
      * exists c, body. auto.
      * now constructor.
    + destruct (c =? 95) eqn:Hu.
      * apply N.eqb_eq in Hu. subst c.
        destruct prev; [discriminate|].
        intros H. apply IH in H. destruct H as (body & -> & _ & Hb).
        destruct Hb as (d & r & -> & Hdd & Hr).
        exists (95 :: d :: r). split; [reflexivity|]. split; [discriminate|].
        now constructor.
      * intros H. apply (f_equal (fun o => match o with Some (_, n, p, r) => (n, p, r) | None => (nd, prev, []) end)) in H.
        cbn beta iota in H.
        assert (Hn : nd = nd') by congruence.
        assert (Hp : prev = false) by congruence.
        assert (Hr : rest = c :: s) by congruence.
        subst. exists []. repeat split. constructor.
Qed.

Lemma int_of_str_literal msd x n : int_of_str msd x = Ok n -> int_literal x.
Proof.
  unfold int_of_str. cbv zeta. rewrite sign_match.
  destruct (skip_space_split (map to_ascii_space x)) as (ws & Hsplit & Hws).
  remember (skip_space (map to_ascii_space x)) as s1 eqn:Hs1.
  match goal with
  | |- (let '(_, _) := ?X in _) = _ -> _ =>
      destruct X as [neg s2] eqn:Esign
  end.
  assert (Hsign : exists sign,
             s1 = sign ++ s2 /\ (sign = [] \/ sign = [43] \/ sign = [45])).
  { destruct s1 as [|c r].
    - apply (f_equal snd) in Esign. cbn [snd] in Esign. subst s2.
      exists []. auto.
    - destruct (c =? 43) eqn:E1.
      { apply N.eqb_eq in E1. apply (f_equal snd) in Esign.
        cbn [snd] in Esign. subst. exists [43]. auto. }
      destruct (c =? 45) eqn:E2.
      { apply N.eqb_eq in E2. apply (f_equal snd) in Esign.
        cbn [snd] in Esign. subst. exists [45]. auto. }
      apply (f_equal snd) in Esign. cbn [snd] in Esign. subst s2.
      exists []. auto. }
  destruct Hsign as (sign & Hs & Hsg).
  rewrite underscore_match.
  destruct (match s2 with c :: _ => c =? 95 | [] => false end) eqn:Hus;
    [discriminate|].
  destruct (scan_digits 0 0 false s2) as [[[[v nd] prev] rest]|] eqn:Hscan;
    [|discriminate].
  destruct prev; [discriminate|].
  destruct (_ && _)%bool; [discriminate|].
  destruct (nd =? 0) eqn:Hnd; [discriminate|].
  destruct (skip_space rest) eqn:Hrest; [|discriminate].
  intros _. apply N.eqb_neq in Hnd.
  apply scan_digits_tail in Hscan. destruct Hscan as (body & -> & Hnil & Htail).
  apply skip_space_nil in Hrest.
  assert (Hbody : exists c r, body = c :: r /\ is_digit c = true /\ digit_tail r).
  { destruct Htail as [|c r Hc Hr|c r Hc Hr].
    - exfalso. apply Hnd. now apply Hnil.
    - eauto.
    - discriminate Hus. }
  destruct Hbody as (c & r & -> & Hc & Hr).
  clear Hs1. rewrite Hs in Hsplit.
  apply map_eq_app in Hsplit. destruct Hsplit as (v1 & x1 & -> & H1 & Hx1).
  apply map_eq_app in Hx1. destruct Hx1 as (v2 & x2 & -> & H2 & Hx2).
  apply map_eq_app in Hx2. destruct Hx2 as (v3 & v4 & -> & H3 & H4).
  assert (v2 = sign).
  { apply map_other_inv; [exact H2|].
    destruct Hsg as [-> | [-> | ->]]; repeat constructor; discriminate. }
  assert (v3 = c :: r).
  { apply map_other_inv; [exact H3|].
    constructor; [now apply digit_not_space | now apply digit_tail_not_space]. }
  subst v2 v3.
  exists v1, sign, c, r, v4. repeat split; try assumption.
  - eapply map_space_inv; eassumption.
  - eapply map_space_inv; eassumption.
Qed.

(** A header value that is no integer literal makes [int()] raise
    [ValueError]. *)
Lemma int_not_literal msd v :
  ~ int_literal v -> exists msg, int msd (Some v) = Raise (ValueError msg).
Proof.
  intros Hv. cbn [int].
  destruct (int_of_str msd v) as [n|e] eqn:E.
  - exfalso. eapply Hv, int_of_str_literal, E.
  - apply int_of_str_raises in E.
    destruct E as [-> | [nd ->]]; unfold invalid_literal, digits_limit_error;
      eauto.
Qed.

(** ** What [json.loads] reads is a text of its grammar *)

Lemma skip_ws_split : forall s pos pos' s',
  Json.skip_ws pos s = (pos', s') -> exists w, json_ws w /\ s = w ++ s'.
Proof.
  induction s as [|c r IH]; intros pos pos' s' H; cbn [Json.skip_ws] in H.
  - exists []. split; [constructor|].
    apply (f_equal snd) in H. cbn [snd] in H. now subst s'.
  - destruct (Json.is_whitespace c) eqn:E.
    + destruct (IH _ _ _ H) as (w & Hw & ->).
      exists (c :: w). split; [constructor; [exact E | exact Hw] | reflexivity].
    + exists []. split; [constructor|].
      apply (f_equal snd) in H. cbn [snd] in H. now subst s'.
Qed.

(** The tests on a character, by its code. *)
Ltac chr_codes :=
  repeat match goal with
         | |- context [Json.is_chr ?a ?c] =>
             let n := eval vm_compute in (Json.chr a) in
             change (Json.is_chr a c) with (c =? n)
         | H : context [Json.is_chr ?a ?c] |- _ =>
             let n := eval vm_compute in (Json.chr a) in
             change (Json.is_chr a c) with (c =? n) in H
         end;
  unfold Json.is_quote in *.

Lemma unescape_rfc e x : Json.unescape e = Some x -> rfc_escape e <> None.
Proof.
  unfold Json.unescape, rfc_escape. chr_codes.
  destruct (e =? 34), (e =? 92), (e =? 47), (e =? 98), (e =? 102),
    (e =? 110), (e =? 114), (e =? 116); cbn; intros H;
    try discriminate H; discriminate.
Qed.

Lemma scan_rest {A} (a b : A) (p q : nat) (r t : str) :
  Json.Found a p r = Json.Found b q t -> r = t.
Proof.
  intros H.
  exact (f_equal (fun sc => match sc with
                            | Json.Found _ _ u => u
                            | _ => r
                            end) H).
Qed.

Lemma hex4val_rfc h1 h2 h3 h4 u :
  Json.hex4val h1 h2 h3 h4 = Some u -> rfc_hex4 h1 h2 h3 h4 <> None.
Proof. intros H. rewrite rfc_hex4_hex4val, H. discriminate. Qed.

Lemma scanstring_sound doc begin : forall n s pos acc x pos' rest,
  (List.length s <= n)%nat ->
  Json.scanstring doc begin pos s acc = Json.Found x pos' rest ->
  exists t, json_string_chars t /\ s = t ++ 34 :: rest.
Proof.
  induction n as [|n IH]; intros s pos acc x pos' rest Hlen H.
  - destruct s; [discriminate H | cbn in Hlen; lia].
  - destruct s as [|c r]; [discriminate H|].
    cbn [Json.scanstring] in H. cbn [List.length] in Hlen.
    destruct (Json.is_quote c) eqn:Eq.
    { apply scan_rest in H. subst rest.
      chr_codes. apply N.eqb_eq in Eq. subst c.
      exists []. split; [constructor | reflexivity]. }
    destruct (Json.is_chr "\" c) eqn:Eb.
    2:{ destruct (c <=? 31) eqn:Ec; [discriminate H|].
        apply IH in H; [|lia]. destruct H as (t & Ht & ->).
        exists (c :: t). split; [|reflexivity].
        apply string_plain; [|exact Ht].
        unfold rfc_unescaped. chr_codes.
        rewrite Eq, Eb. apply N.leb_gt in Ec.
        replace (32 <=? c) with true by (symmetry; apply N.leb_le; lia).
        reflexivity. }
    chr_codes. apply N.eqb_eq in Eb. subst c.
    destruct r as [|e r1]; [discriminate H|]. cbn [List.length] in Hlen.
    destruct (negb (Json.is_chr "u" e)) eqn:Eu.
    { destruct (Json.unescape e) as [y|] eqn:Ey; [|discriminate H].
      apply IH in H; [|lia]. destruct H as (t & Ht & ->).
      exists (92 :: e :: t). split; [|reflexivity].
      apply string_escape; [eapply unescape_rfc, Ey | exact Ht]. }
    apply negb_false_iff in Eu.
    chr_codes. apply N.eqb_eq in Eu. subst e.
    destruct r1 as [|h1 [|h2 [|h3 [|h4 [|c5 r5]]]]]; try discriminate H.
    cbn [List.length] in Hlen.
    destruct (Json.hex4val h1 h2 h3 h4) as [u|] eqn:Eh; [|discriminate H].
    assert (Hone : forall a,
               Json.scanstring doc begin (pos + 6) (c5 :: r5) a
               = Json.Found x pos' rest ->
               exists t,
                 json_string_chars t
                 /\ 92 :: 117 :: h1 :: h2 :: h3 :: h4 :: c5 :: r5
                    = t ++ 34 :: rest).
    { intros a Ha. apply IH in Ha; [|cbn [List.length]; lia].
      destruct Ha as (t & Ht & ->).
      exists (92 :: 117 :: h1 :: h2 :: h3 :: h4 :: t). split; [|reflexivity].
      apply string_unicode; [eapply hex4val_rfc, Eh | exact Ht]. }
    destruct r5 as [|v [|g1 [|g2 [|g3 [|g4 [|c11 r11]]]]]];
      try (eapply Hone, H).
    cbn [List.length] in Hlen.
    destruct (is_high_surrogate u && Json.is_chr "\" c5 && Json.is_chr "u" v)
      eqn:Epair; [|eapply Hone, H].
    destruct (Json.hex4val g1 g2 g3 g4) as [u2|] eqn:Eg; [|discriminate H].
    destruct (is_low_surrogate u2); [|eapply Hone, H].
    apply andb_true_iff in Epair. destruct Epair as [Epair Ev].
    apply andb_true_iff in Epair. destruct Epair as [_ Ec5].
    chr_codes. apply N.eqb_eq in Ec5, Ev. subst c5 v.
    apply IH in H; [|cbn [List.length]; lia].
    destruct H as (t & Ht & ->).
    exists (92 :: 117 :: h1 :: h2 :: h3 :: h4
               :: 92 :: 117 :: g1 :: g2 :: g3 :: g4 :: t).
    split; [|reflexivity].
    apply string_unicode; [eapply hex4val_rfc, Eh|].
    apply string_unicode; [eapply hex4val_rfc, Eg | exact Ht].
Qed.

Lemma span_digits_sound : forall s d t,
  Json.span_digits s = (d, t) ->
  s = d ++ t /\ Forall (fun c => is_digit c = true) d.
Proof.
  induction s as [|c r IH]; intros d t H; cbn [Json.span_digits] in H.
  - inversion H; subst. split; [reflexivity | constructor].
  - destruct (is_digit c) eqn:Ec.
    + destruct (Json.span_digits r) as [d' t'].
      inversion H; subst. destruct (IH _ _ eq_refl) as [-> Hd].
      split; [reflexivity | constructor; assumption].
    + inversion H; subst. split; [reflexivity | constructor].
Qed.

Lemma match_integer_sound s i t :
  Json.match_integer s = Some (i, t) -> s = i ++ t /\ json_int i.
Proof.
  unfold Json.match_integer. destruct s as [|c r]; [discriminate|].
  chr_codes. destruct (c =? 48) eqn:E0.
  - intros H. inversion H; subst. apply N.eqb_eq in E0. subst c.
    split; [reflexivity | left; reflexivity].
  - destruct (between 49 57 c) eqn:E1; [|discriminate].
    destruct (Json.span_digits r) as [d t'] eqn:Ed.
    intros H. inversion H; subst.
    apply span_digits_sound in Ed. destruct Ed as [-> Hd].
    split; [reflexivity|]. right. exists c, d. auto.
Qed.

Lemma match_fraction_sound s f t :
  Json.match_fraction s = (f, t) -> s = f ++ t /\ json_frac f.
Proof.
  unfold Json.match_fraction.
  assert (Hnone : (([] : str), s) = (f, t) -> s = f ++ t /\ json_frac f).
  { intros H. inversion H; subst. split; [reflexivity | left; reflexivity]. }
  destruct s as [|dot [|d r]]; try exact Hnone.
  chr_codes.
  destruct ((dot =? 46) && is_digit d) eqn:E; [|exact Hnone].
  apply andb_true_iff in E. destruct E as [Edot Ed].
  apply N.eqb_eq in Edot. subst dot.
  destruct (Json.span_digits (d :: r)) as [ds t'] eqn:Es.
  intros H. inversion H; subst.
  pose proof (span_digits_sound _ _ _ Es) as [Hs Hds].
  split; [cbn [app]; now rewrite Hs|].
  right. exists ds. split; [reflexivity|]. split; [|exact Hds].
  cbn [Json.span_digits] in Es. rewrite Ed in Es.
  destruct (Json.span_digits r). inversion Es. discriminate.
Qed.

Lemma match_exponent_sound s x t :
  Json.match_exponent s = (x, t) -> s = x ++ t /\ json_exp x.
Proof.
  unfold Json.match_exponent.
  assert (Hnone : (([] : str), s) = (x, t) -> s = x ++ t /\ json_exp x).
  { intros H. inversion H; subst. split; [reflexivity | left; reflexivity]. }
  destruct s as [|e r]; [exact Hnone|].
  chr_codes.
  destruct ((e =? 101) || (e =? 69)) eqn:Ee; [|exact Hnone].
  assert (He : e = 101 \/ e = 69).
  { apply orb_true_iff in Ee. destruct Ee as [Ee|Ee];
      apply N.eqb_eq in Ee; auto. }
  assert (Hsign : forall sign r',
             (sign = [] \/ sign = [43] \/ sign = [45]) -> r = sign ++ r' ->
             match Json.span_digits r' with
             | ([], _) => ([], e :: r)
             | (ds, t0) => (e :: sign ++ ds, t0)
             end = (x, t) ->
             e :: r = x ++ t /\ json_exp x).
  { intros sign r' Hs Hr.
    destruct (Json.span_digits r') as [[|c l] t0] eqn:Ed; [exact Hnone|].
    intros H. inversion H; subst.
    apply span_digits_sound in Ed. destruct Ed as [-> Hd].
    split; [cbn [app]; now rewrite <- app_assoc|].
    right. exists e, sign, (c :: l).
    split; [reflexivity|]. split; [exact He|]. split; [exact Hs|].
    split; [discriminate | exact Hd]. }
  destruct r as [|sg [|c1 r1]];
    [exact (Hsign [] _ (or_introl eq_refl) eq_refl) ..|].
  chr_codes.
  destruct ((sg =? 45) || (sg =? 43)) eqn:Es;
    [|exact (Hsign [] _ (or_introl eq_refl) eq_refl)].
  apply orb_true_iff in Es. destruct Es as [Es|Es]; apply N.eqb_eq in Es;
    subst sg.
  - apply (Hsign [45] (c1 :: r1)); auto.
  - apply (Hsign [43] (c1 :: r1)); auto.
Qed.

Lemma match_number_sound s lexeme is_float rest :
  Json.match_number s = Some (lexeme, is_float, rest) ->
  s = lexeme ++ rest /\ json_number lexeme.
Proof.
  unfold Json.match_number.
  assert (Hsign : forall sign s1,
             (sign = [] \/ sign = [45]) -> s = sign ++ s1 ->
             match Json.match_integer s1 with
             | Some (int_part, s2) =>
                 let '(frac, s3) := Json.match_fraction s2 in
                 let '(exp, s4) := Json.match_exponent s3 in
                 Some (sign ++ int_part ++ frac ++ exp,
                       negb (Nat.eqb (List.length frac + List.length exp) 0),
                       s4)
             | None => None
             end = Some (lexeme, is_float, rest) ->
             s = lexeme ++ rest /\ json_number lexeme).
  { intros sign s1 Hs Hs1.
    destruct (Json.match_integer s1) as [[i s2]|] eqn:Ei; [|discriminate].
    destruct (Json.match_fraction s2) as [f s3] eqn:Ef.
    destruct (Json.match_exponent s3) as [x s4] eqn:Ex.
    intros H. inversion H; subst.
    apply match_integer_sound in Ei. destruct Ei as [-> Hi].
    apply match_fraction_sound in Ef. destruct Ef as [-> Hf].
    apply match_exponent_sound in Ex. destruct Ex as [-> Hx].
    split; [now rewrite <- !app_assoc|].
    exists sign, i, f, x. auto. }
  destruct s as [|c r]; [apply (Hsign [] []); auto|].
  chr_codes. destruct (c =? 45) eqn:Ec.
  - apply N.eqb_eq in Ec. subst c. apply (Hsign [45] r); auto.
  - apply (Hsign [] (c :: r)); auto.
Qed.

Lemma strip_prefix_sound : forall p s rest,
  Json.strip_prefix p s = Some rest -> s = p ++ rest.
Proof.
  induction p as [|a p IH]; intros s rest; cbn [Json.strip_prefix].
  - intros H. inversion H. reflexivity.
  - destruct s as [|b s]; [discriminate|].
    destruct (a =? b) eqn:E; [|discriminate].
    apply N.eqb_eq in E. subst b. intros H. apply IH in H. now subst s.
Qed.

Lemma constant_sound name v pos s u pos' rest :
  Json.constant name v pos s = Some (Json.Found u pos' rest) ->
  s = lit name ++ rest.
Proof.
  unfold Json.constant.
  destruct (Json.strip_prefix (lit name) s) as [t|] eqn:Ep; [|discriminate].
  intros H. apply strip_prefix_sound in Ep. subst s.
  apply (f_equal (fun o => match o with
                           | Some (Json.Found _ _ x) => x
                           | _ => t
                           end)) in H.
  now subst t.
Qed.

Lemma constant_found name v pos s r :
  Json.constant name v pos s = Some r ->
  exists pos' rest, r = Json.Found v pos' rest.
Proof.
  unfold Json.constant.
  destruct (Json.strip_prefix (lit name) s) as [t|]; [|discriminate].
  intros H. inversion H. eauto.
Qed.

Lemma scan_number_sound msd pos s v pos' rest :
  Json.scan_number msd pos s = Json.Found v pos' rest ->
  exists pre, s = pre ++ rest /\ json_number pre.
Proof.
  unfold Json.scan_number.
  destruct (Json.match_number s) as [[[lexeme is_float] t]|] eqn:En;
    [|discriminate].
  apply match_number_sound in En. destruct En as [-> Hn].
  destruct is_float.
  - intros H. apply scan_rest in H. subst t. eauto.
  - destruct (Json.parse_int msd lexeme); [|discriminate].
    intros H. apply scan_rest in H. subst t. eauto.
Qed.

Lemma scan_atom_sound msd pos s v pos' rest :
  Json.scan_atom msd pos s = Json.Found v pos' rest ->
  exists pre, s = pre ++ rest /\ pyjson_value pre.
Proof.
  unfold Json.scan_atom.
  assert (Hnumber : Json.scan_number msd pos s = Json.Found v pos' rest ->
                    exists pre, s = pre ++ rest /\ pyjson_value pre).
  { intros H. apply scan_number_sound in H. destruct H as (pre & -> & Hn).
    exists pre. split; [reflexivity | now apply pv_number]. }
  assert (Hconstant : forall name u,
             pyjson_value (lit name) ->
             match Json.constant name u pos s with
             | Some r => r
             | None => Json.scan_number msd pos s
             end = Json.Found v pos' rest ->
             exists pre, s = pre ++ rest /\ pyjson_value pre).
  { intros name u Hname.
    destruct (Json.constant name u pos s) as [r|] eqn:Ec; [|exact Hnumber].
    intros ->. apply constant_sound in Ec. eauto. }
  destruct s as [|c r]; [exact Hnumber|].
  destruct (Json.is_chr "n" c); [apply Hconstant; constructor|].
  destruct (Json.is_chr "t" c); [apply Hconstant; constructor|].
  destruct (Json.is_chr "f" c); [apply Hconstant; constructor|].
  destruct (Json.is_chr "N" c); [apply Hconstant; constructor|].
  destruct (Json.is_chr "I" c); [apply Hconstant; constructor|].
  destruct (Json.is_chr "-" c); [apply Hconstant; constructor|].
  exact Hnumber.
Qed.

Lemma pyjson_elements_ws w es :
  json_ws w -> pyjson_elements es -> pyjson_elements (w ++ es).
Proof.
  intros Hw Hes. destruct Hes as [w1 v w2 H1 Hv H2|w1 v w2 es H1 Hv H2 Hes];
    rewrite app_assoc.
  - apply pe_last; [apply Forall_app; split|..]; assumption.
  - apply pe_cons; [apply Forall_app; split|..]; assumption.
Qed.

Lemma pyjson_members_ws w ms :
  json_ws w -> pyjson_members ms -> pyjson_members (w ++ ms).
Proof.
  intros Hw Hms.
  destruct Hms as [w1 k w2 w3 v w4 H1 Hk H2 H3 Hv H4
                  |w1 k w2 w3 v w4 ms H1 Hk H2 H3 Hv H4 Hms];
    rewrite app_assoc.
  - apply pm_last; [apply Forall_app; split|..]; assumption.
  - apply pm_cons; [apply Forall_app; split|..]; assumption.
Qed.

Ltac same_text :=
  repeat (progress (cbn [app]; rewrite <- ?app_assoc)); reflexivity.

Lemma scanner_sound msd doc :
  forall fuel,
    (forall depth pos s v pos' rest,
        Json.scan_once msd doc fuel depth pos s = Json.Found v pos' rest ->
        exists pre, s = pre ++ rest /\ pyjson_value pre)
    /\ (forall depth pos s acc v pos' rest,
           Json.object_loop msd doc fuel depth pos s acc
           = Json.Found v pos' rest ->
           exists ms, s = ms ++ 125 :: rest /\ pyjson_members ms)
    /\ (forall depth pos s acc v pos' rest,
           Json.array_loop msd doc fuel depth pos s acc
           = Json.Found v pos' rest ->
           exists es, s = es ++ 93 :: rest /\ pyjson_elements es).
Proof.
  induction fuel as [|fuel (IHv & IHo & IHa)].
  { repeat split; intros; discriminate. }
  split; [|split].
  - intros depth pos s v pos' rest. rewrite scan_once_step.
    destruct s as [|c r]; [discriminate|].
    destruct (Json.is_quote c) eqn:Eq.
    { chr_codes. apply N.eqb_eq in Eq. subst c.
      destruct (Json.scanstring doc pos (S pos) r []) as [x p t| | |] eqn:Es;
        try discriminate.
      intros H. apply scan_rest in H. subst t.
      apply (scanstring_sound _ _ _ _ _ _ _ _ _ (le_n _)) in Es.
      destruct Es as (t & Ht & ->).
      exists (34 :: t ++ [34]). split; [same_text | now apply pv_string]. }
    destruct (Json.is_chr "{" c) eqn:Eo.
    { chr_codes. apply N.eqb_eq in Eo. subst c.
      destruct depth as [|depth]; [discriminate|].
      destruct (Json.skip_ws (S pos) r) as [pos1 s1] eqn:Ew.
      apply skip_ws_split in Ew. destruct Ew as (w & Hw & ->).
      assert (Hloop : Json.object_loop msd doc fuel depth pos1 s1 []
                      = Json.Found v pos' rest ->
                      exists pre,
                        123 :: w ++ s1 = pre ++ rest /\ pyjson_value pre).
      { intros H. apply IHo in H. destruct H as (ms & -> & Hms).
        exists (123 :: (w ++ ms) ++ [125]).
        split; [same_text | now apply pv_object, pyjson_members_ws]. }
      destruct s1 as [|c1 r1]; [exact Hloop|].
      destruct (Json.is_chr "}" c1) eqn:Ec; [|exact Hloop].
      chr_codes. apply N.eqb_eq in Ec. subst c1.
      intros H. apply scan_rest in H. subst r1.
      exists (123 :: w ++ [125]). split; [same_text | now apply pv_empty_object]. }
    destruct (Json.is_chr "[" c) eqn:Ea; [|apply scan_atom_sound].
    chr_codes. apply N.eqb_eq in Ea. subst c.
    destruct depth as [|depth]; [discriminate|].
    destruct (Json.skip_ws (S pos) r) as [pos1 s1] eqn:Ew.
    apply skip_ws_split in Ew. destruct Ew as (w & Hw & ->).
    assert (Hloop : Json.array_loop msd doc fuel depth pos1 s1 []
                    = Json.Found v pos' rest ->
                    exists pre,
                      91 :: w ++ s1 = pre ++ rest /\ pyjson_value pre).
    { intros H. apply IHa in H. destruct H as (es & -> & Hes).
      exists (91 :: (w ++ es) ++ [93]).
      split; [same_text | now apply pv_array, pyjson_elements_ws]. }
    destruct s1 as [|c1 r1]; [exact Hloop|].
    destruct (Json.is_chr "]" c1) eqn:Ec; [|exact Hloop].
    chr_codes. apply N.eqb_eq in Ec. subst c1.
    intros H. apply scan_rest in H. subst r1.
    exists (91 :: w ++ [93]). split; [same_text | now apply pv_empty_array].
  - intros depth pos s acc v pos' rest. rewrite object_loop_step.
    destruct s as [|q r]; [discriminate|].
    destruct (negb (Json.is_quote q)) eqn:Eq; [discriminate|].
    apply negb_false_iff in Eq. chr_codes. apply N.eqb_eq in Eq. subst q.
    destruct (Json.scanstring doc pos (S pos) r []) as [key pos1 s1| | |] eqn:Es;
      try discriminate.
    apply (scanstring_sound _ _ _ _ _ _ _ _ _ (le_n _)) in Es.
    destruct Es as (k & Hk & ->).
    destruct (Json.skip_ws pos1 s1) as [pos2 s2] eqn:E2.
    apply skip_ws_split in E2. destruct E2 as (w2 & H2 & ->).
    destruct s2 as [|colon r2]; [discriminate|].
    destruct (negb (Json.is_chr ":" colon)) eqn:Ec; [discriminate|].
    apply negb_false_iff in Ec. chr_codes. apply N.eqb_eq in Ec. subst colon.
    destruct (Json.skip_ws (S pos2) r2) as [pos3 s3] eqn:E3.
    apply skip_ws_split in E3. destruct E3 as (w3 & H3 & ->).
    destruct (Json.scan_once msd doc fuel depth pos3 s3) as [x pos4 s4| | |] eqn:Ev;
      try discriminate.
    apply IHv in Ev. destruct Ev as (pre & -> & Hpre).
    cbv zeta.
    destruct (Json.skip_ws pos4 s4) as [pos5 s5] eqn:E5.
    apply skip_ws_split in E5. destruct E5 as (w4 & H4 & ->).
    destruct s5 as [|d r5]; [discriminate|].
    destruct (Json.is_chr "}" d) eqn:Ed.
    { chr_codes. apply N.eqb_eq in Ed. subst d.
      intros H. apply scan_rest in H. subst r5.
      exists ([] ++ 34 :: k ++ 34 :: w2 ++ 58 :: w3 ++ pre ++ w4).
      split; [same_text|]. apply pm_last; try assumption. constructor. }
    destruct (Json.is_chr "," d) eqn:Em; [|discriminate].
    chr_codes. apply N.eqb_eq in Em. subst d.
    destruct (Json.skip_ws (S pos5) r5) as [pos6 s6] eqn:E6.
    apply skip_ws_split in E6. destruct E6 as (w5 & H5 & ->).
    intros H. apply IHo in H. destruct H as (ms & -> & Hms).
    exists ([] ++ 34 :: k ++ 34 :: w2 ++ 58 :: w3 ++ pre ++ w4
               ++ 44 :: (w5 ++ ms)).
    split; [same_text|].
    apply pm_cons; try assumption; [constructor|].
    now apply pyjson_members_ws.
  - intros depth pos s acc v pos' rest. rewrite array_loop_step.
    destruct (Json.scan_once msd doc fuel depth pos s) as [x pos1 s1| | |] eqn:Ev;
      try discriminate.
    apply IHv in Ev. destruct Ev as (pre & -> & Hpre).
    cbv zeta.
    destruct (Json.skip_ws pos1 s1) as [pos2 s2] eqn:E2.
    apply skip_ws_split in E2. destruct E2 as (w2 & H2 & ->).
    destruct s2 as [|d r2]; [discriminate|].
    destruct (Json.is_chr "]" d) eqn:Ed.
    { chr_codes. apply N.eqb_eq in Ed. subst d.
      intros H. apply scan_rest in H. subst r2.
      exists ([] ++ pre ++ w2).
      split; [same_text|]. apply pe_last; try assumption. constructor. }
    destruct (Json.is_chr "," d) eqn:Em; [|discriminate].
    chr_codes. apply N.eqb_eq in Em. subst d.
    destruct (Json.skip_ws (S pos2) r2) as [pos3 s3] eqn:E3.
    apply skip_ws_split in E3. destruct E3 as (w3 & H3 & ->).
    intros H. apply IHa in H. destruct H as (es & -> & Hes).
    exists ([] ++ pre ++ w2 ++ 44 :: (w3 ++ es)).
    split; [same_text|].
    apply pe_cons; try assumption; [constructor|].
    now apply pyjson_elements_ws.
Qed.

(** [JSONDecoder.decode] returns a value for the texts of the grammar of
    [json.loads] only. *)
Lemma decode_document_sound msd depth s v :
  Json.decode_document msd depth s = Ok v -> pyjson_text s.
Proof.
  unfold Json.decode_document.
  destruct (Json.skip_ws 0 s) as [pos0 s0] eqn:E0.
  apply skip_ws_split in E0. destruct E0 as (w1 & H1 & Hs).
  destruct (Json.scan_once msd s _ depth pos0 s0) as [x pos1 s1| | |] eqn:Ev;
    try discriminate.
  apply (proj1 (scanner_sound msd s _)) in Ev.
  destruct Ev as (pre & -> & Hpre).
  destruct (Json.skip_ws pos1 s1) as [pos2 [|c r]] eqn:E2; [|discriminate].
  apply skip_ws_split in E2. destruct E2 as (w2 & H2 & ->).
  intros _. exists w1, pre, w2. rewrite app_nil_r in Hs. auto.
Qed.

(** ** A text in UTF-8 is taken for UTF-8 *)

(** What the first bytes of a well-formed text are. *)
Lemma utf8_decode_head sp obj pos b0 r0 doc :
  utf8_decode_from sp obj pos (b0 :: r0) = Ok doc ->
  exists c d,
    doc = c :: d
    /\ Byte.to_N b0 < 245
    /\ (Byte.to_N b0 < 128 ->
        c = Byte.to_N b0 /\ utf8_decode_from sp obj (S pos) r0 = Ok d)
    /\ (128 <= Byte.to_N b0 ->
        match r0 with
        | [] => False
        | b1 :: r1 =>
            128 <= Byte.to_N b1
            /\ match r1 with
               | [] => True
               | b2 :: _ =>
                   Byte.to_N b0 = 239 -> Byte.to_N b1 = 187 ->
                   Byte.to_N b2 = 191 -> c = 65279
               end
        end).
Proof.
  intros H. cbn [utf8_decode_from] in H.
  repeat match type of H with
         | (if ?b then _ else _) = _ => destruct b eqn:?
         | match ?r with [] => _ | _ :: _ => _ end = _ => destruct r
         | cons_ok _ ?x = Ok _ =>
             destruct x eqn:?; cbn [cons_ok rbind] in H
         | Raise _ = Ok _ => discriminate H
         end;
    apply Ok_inj in H; subst doc;
    (eexists _, _; split; [reflexivity|]);
    unfold is_cont, between in *; bool_facts;
    repeat match goal with
           | H : _ \/ _ |- _ => destruct H
           end;
    bool_facts;
    (split; [lia|]); (split; [intros; try lia; auto|]);
    intros; try lia;
    (split; [lia|]);
    try match goal with
        | |- match ?r with [] => True | _ :: _ => _ end => destruct r
        end;
    try exact I;
    intros E0 E1 E2; try lia; rewrite E0, E1, E2; reflexivity.
Qed.

(** The text is taken for UTF-8 when these bytes are not those of a byte
    order mark and none of the first two is zero. *)
Lemma detect_encoding_utf8 b :
  match b with
  | [] => True
  | b0 :: r0 =>
      Byte.to_N b0 <> 0 /\ Byte.to_N b0 < 245
      /\ match r0 with
         | [] => True
         | b1 :: r1 =>
             Byte.to_N b1 <> 0
             /\ match r1 with
                | [] => True
                | b2 :: _ =>
                    ~ (Byte.to_N b0 = 239 /\ Byte.to_N b1 = 187
                       /\ Byte.to_N b2 = 191)
                end
         end
  end ->
  Json.detect_encoding b = Json.UTF8.
Proof.
  destruct b as [|b0 [|b1 [|b2 [|b3 r]]]].
  - reflexivity.
  - intros _. destruct b0; reflexivity.
  - intros (H0 & H0' & H1 & _). apply N.eqb_neq in H1.
    destruct b0; try (exfalso; cbn in H0, H0'; (congruence || lia));
      try (cbn; rewrite H1; reflexivity).
    destruct b1; try discriminate H1; reflexivity.
  - intros (H0 & H0' & H1 & H2). apply N.eqb_neq in H1.
    destruct b0; try (exfalso; cbn in H0, H0'; (congruence || lia));
      try (cbn; try rewrite H1; reflexivity).
    destruct b1; try discriminate H1; try reflexivity.
    destruct b2; try reflexivity.
    exfalso. apply H2. repeat split.
  - intros (H0 & H0' & H1 & H2). apply N.eqb_neq in H1.
    destruct b0; try (exfalso; cbn in H0, H0'; (congruence || lia));
      try (cbn; try rewrite H1; reflexivity).
    destruct b1; try discriminate H1; try reflexivity.
    destruct b2; try reflexivity.
    exfalso. apply H2. repeat split.
Qed.

Lemma detect_encoding_text sp obj pos body doc :
  utf8_decode_from sp obj pos body = Ok doc ->
  ~ In 0 (firstn 2 doc) ->
  hd 0 doc <> 65279 ->
  Json.detect_encoding body = Json.UTF8.
Proof.
  intros Hdec Hnul Hbom. apply detect_encoding_utf8.
  destruct body as [|b0 r0]; [exact I|].
  destruct (utf8_decode_head _ _ _ _ _ _ Hdec)
    as (c & d & -> & Hmax & Hlow & Hhigh).
  cbn [hd] in Hbom.
  assert (H0 : Byte.to_N b0 <> 0).
  { intros E. destruct Hlow as [Hc _]; [lia|].
    apply Hnul. left. congruence. }
  split; [exact H0|]. split; [exact Hmax|].
  destruct r0 as [|b1 r1]; [exact I|].
  destruct (N.lt_ge_cases (Byte.to_N b0) 128) as [Hb|Hb].
  - destruct (Hlow Hb) as [_ Hd].
    destruct (utf8_decode_head _ _ _ _ _ _ Hd)
      as (c1 & d1 & -> & _ & Hlow1 & _).
    split.
    + intros E. destruct Hlow1 as [Hc1 _]; [lia|].
      apply Hnul. right. left. congruence.
    + destruct r1 as [|b2 r2]; [exact I|]. intros (E & _). lia.
  - destruct (Hhigh Hb) as [H1 H2]. split; [lia|].
    destruct r1 as [|b2 r2]; [exact I|].
    intros (E0 & E1 & E2). apply Hbom. now apply H2.
Qed.

(** A text that is not of the grammar of [json.loads] is refused, when it
    comes in UTF-8 without a byte order mark and neither of its first two
    characters is NUL. *)
Lemma loads_refuses msd depth doc body :
  scalar_text doc ->
  utf8_encode doc = Ok body ->
  ~ In 0 (firstn 2 doc) ->
  hd 0 doc <> 65279 ->
  ~ pyjson_text doc ->
  exists e, Json.loads msd depth body = Raise e.
Proof.
  intros Hdoc Henc Hnul Hbom Hno.
  assert (Hdec : utf8_decode_from true body 0 body = Ok doc)
    by exact (utf8_decode_encode_any true doc Hdoc doc 0 body 0 body Henc).
  unfold Json.loads.
  rewrite (detect_encoding_text _ _ _ _ _ Hdec Hnul Hbom).
  unfold Json.decode, utf8_decode_surrogatepass. rewrite Hdec. cbn [rbind].
  destruct (Json.decode_document msd depth doc) as [v|e] eqn:Ev; [|eauto].
  apply decode_document_sound in Ev. contradiction.
Qed.

(** The grammar of [json.loads] holds every JSON text. *)
Lemma json_grammar_pyjson :
  (forall s, json_value s -> pyjson_value s)
  /\ (forall s, json_elements s -> pyjson_elements s)
  /\ (forall s, json_members s -> pyjson_members s).
Proof.
  apply json_grammar_ind; intros; constructor; assumption.
Qed.

Lemma json_text_pyjson s : json_text s -> pyjson_text s.
Proof.
  intros (w1 & v & w2 & H1 & Hv & H2 & ->).
  exists w1, v, w2. repeat split; try assumption.
  now apply (proj1 json_grammar_pyjson).
Qed.

(** The character a text of that grammar begins with, after the white
    space: that of one of the six names, of a number, a quotation mark or
    an opening bracket. *)
Lemma pyjson_value_head v :
  pyjson_value v ->
  exists c r,
    v = c :: r
    /\ (In c [102; 110; 116; 78; 73; 45; 34; 91; 123] \/ is_digit c = true).
Proof.
  intros H. destruct H as [| | | | | |s Hs|t Ht|w Hw|es Hes|w Hw|ms Hms];
    try (eexists _, _; split; [reflexivity|]; left; cbn; auto 10).
  destruct Hs as (minus & i & f & e & -> & Hminus & Hi & _).
  destruct Hminus as [-> | ->];
    [|eexists _, _; split; [reflexivity|]; left; cbn; auto 10].
  destruct Hi as [-> | (c & r & -> & Hc & _)].
  - eexists _, _. split; [reflexivity|]. right. reflexivity.
  - eexists _, _. split; [reflexivity|]. right.
    unfold is_digit, between in *. bool_facts.
    apply andb_true_iff. split; apply N.leb_le; lia.
Qed.

Lemma pyjson_text_head s :
  pyjson_text s ->
  exists w c r,
    json_ws w /\ s = w ++ c :: r
    /\ (In c [102; 110; 116; 78; 73; 45; 34; 91; 123] \/ is_digit c = true).
Proof.
  intros (w1 & v & w2 & H1 & Hv & _ & ->).
  destruct (pyjson_value_head v Hv) as (c & r & -> & Hc).
  exists w1, c, (r ++ w2). auto.
Qed.

(** ** The claims

    In each statement [stream] is what the client sends after the request
    headers, up to the end of its sending side, and the POST runs on a fresh
    connection. *)



(** C2.  Whatever exception the body of the [try] statement raises, at
    whichever stage (reading the body, parsing the JSON, taking [url], the
    outbound request, reading or decoding the answer), [do_POST] itself
    returns, and what was sent is exactly one response, with status 500 and
    the JSON text of [{"status": "error", "message": str(e)}] as body; both
    [except] clauses give the same response, so the kind of failure does not
    show. *)
Theorem post_failure_uniform w self stream e st1 :
  do_POST_try w self (connection stream) = (Raise e, st1) ->
  let st' := add_sent (response_events (error_response (exn_str e))) st1 in
  do_POST w self (connection stream) = (Ok tt, st')
  /\ responses (sent st') = [error_response (exn_str e)]
  /\ status (error_response (exn_str e)) = 500
  /\ body (error_response (exn_str e))
     = ascii_bytes (Json.dumps [(lit "status", lit "error");
                                (lit "message", exn_str e)])
  /\ (scalar_text (exn_str e) ->
      forall msd depth,
        Json.loads msd (S depth) (body (error_response (exn_str e)))
        = Ok (VDict [(lit "status", VStr (lit "error"));
                     (lit "message", VStr (exn_str e))])).
Proof.
  intros Htry st'.
  destruct (do_POST_failure w self stream e st1 Htry) as [Hrun Hresp].
  repeat split; try assumption.
  intros Hm msd depth. now rewrite error_object_read.
Qed.

Lemma post_failure_uniform_witness :
  responses
    (sent (snd (do_POST example_world (post_of (url_body closed_port_url))
                        (connection (url_body closed_port_url)))))
  = [error_response (lit "<urlopen error [Errno 111] Connection refused>")].
Proof.
  pose proof (post_failure_uniform example_world
                (post_of (url_body closed_port_url))
                (url_body closed_port_url)
                (URLError (lit "[Errno 111] Connection refused"))
                (add_opened (outbound (VStr closed_port_url))
                   (advance 29 (connection (url_body closed_port_url))))) as H.
  cbv zeta in H.
  destruct H as (Hrun & Hresp & _).
  - vm_compute. reflexivity.
  - rewrite Hrun. exact Hresp.
Defined.

(** C3.  The success response, the error response and the answer to
    OPTIONS each carry each of the three cross-origin headers exactly once,
    by name and with its value; every POST and every OPTIONS request is
    answered by one response of these shapes. *)
Theorem cors_headers_exactly_once w self stream :
  (forall text, cors_once (success_response text))
  /\ (forall message, cors_once (error_response message))
  /\ cors_once preflight_response
  /\ (exists r,
         responses (sent (snd (do_POST w self (connection stream)))) = [r]
         /\ cors_once r)
  /\ (exists r,
         responses (sent (snd (do_OPTIONS self (connection stream)))) = [r]
         /\ cors_once r).
Proof.
  split; [exact cors_once_success|].
  split; [exact cors_once_error|].
  split; [exact cors_once_preflight|].
  split.
  - destruct (do_POST_answers w self stream) as (r & Hr & [[text ->]|[e ->]]).
    + exists (success_response text). split; [exact Hr | apply cors_once_success].
    + exists (error_response (exn_str e)).
      split; [exact Hr | apply cors_once_error].
  - exists preflight_response. split; [|apply cors_once_preflight].
    rewrite do_OPTIONS_run. reflexivity.
Qed.

(** C4, as amended.  When the [Content-Length] header is a string of at
    most 640 digits for a number [n] below 2^63-33 and a byte string of [n]
    bytes can be allocated, the handler reads the first [n] bytes of the
    request stream and nothing beyond them (all [n] of them when the stream
    holds that many); the same holds for every value that [int()] reads as
    such an [n].  The POST is answered with the error response when the
    header is missing, when its value is no integer literal (white space,
    an optional sign, digits with single underscores between them, white
    space), when [int()] raises for any other reason, when the integer is
    below -1 or at least 2^63-33, and when the [n] bytes cannot be
    allocated, in which case the message is empty.  The value -1 is not
    rejected: the whole stream is read. *)
Theorem content_length_contract w self stream :
  let header := get_header (headers self) (lit "Content-Length") in
  let conv := int (max_str_digits w) header in
  let run := do_POST w self (connection stream) in
  let answer := responses (sent (snd run)) in
  let reads n :=
    read_request_body w self (connection stream)
    = (Ok (firstn (Z.to_nat n) stream),
       advance (Z.to_nat n) (connection stream))
    /\ ((Z.to_nat n <= List.length stream)%nat ->
        List.length (firstn (Z.to_nat n) stream) = Z.to_nat n) in
  (forall v,
      header = Some v -> valid_content_length v = true ->
      (List.length v <= 640)%nat ->
      (decimal_value v < 2 ^ 63 - 33)%Z ->
      can_allocate w (Z.to_N (decimal_value v)) = true ->
      conv = Ok (decimal_value v) /\ reads (decimal_value v))
  /\ (forall n,
         conv = Ok n -> (0 <= n < 2 ^ 63 - 33)%Z ->
         can_allocate w (Z.to_N n) = true -> reads n)
  /\ (header = None ->
      exists msg, conv = Raise (TypeError msg) /\ answer = [error_response msg])
  /\ (forall v,
         header = Some v -> ~ int_literal v ->
         exists msg,
           conv = Raise (ValueError msg) /\ answer = [error_response msg])
  /\ (forall e, conv = Raise e -> answer = [error_response (exn_str e)])
  /\ (forall n,
         conv = Ok n -> (n < -1 \/ 2 ^ 63 - 33 <= n)%Z ->
         exists e, answer = [error_response (exn_str e)])
  /\ (forall n,
         conv = Ok n -> (0 <= n < 2 ^ 63 - 33)%Z ->
         can_allocate w (Z.to_N n) = false -> answer = [error_response []])
  /\ (conv = Ok (-1)%Z ->
      read_request_body w self (connection stream)
      = (Ok stream, advance (List.length stream) (connection stream))).
Proof.
  intros header conv run answer reads. subst header conv run answer reads.
  assert (Hreads : forall n,
             int (max_str_digits w)
                 (get_header (headers self) (lit "Content-Length")) = Ok n ->
             (0 <= n < 2 ^ 63 - 33)%Z ->
             can_allocate w (Z.to_N n) = true ->
             read_request_body w self (connection stream)
             = (Ok (firstn (Z.to_nat n) stream),
                advance (Z.to_nat n) (connection stream))
             /\ ((Z.to_nat n <= List.length stream)%nat ->
                 List.length (firstn (Z.to_nat n) stream) = Z.to_nat n)).
  { intros n Hconv Hn Hmem. rewrite read_request_body_run, Hconv.
    split; [now apply rfile_read_in_range|].
    intros Hlen. apply firstn_length_le. exact Hlen. }
  assert (Hfails : forall e,
             read_request_body w self (connection stream)
             = (Raise e, connection stream) ->
             responses (sent (snd (do_POST w self (connection stream))))
             = [error_response (exn_str e)]).
  { intros e Hbody. rewrite do_POST_stages, Hbody. cbv zeta. cbn [snd].
    now apply responses_on_fresh. }
  assert (Hraise : forall e,
             int (max_str_digits w)
                 (get_header (headers self) (lit "Content-Length")) = Raise e ->
             responses (sent (snd (do_POST w self (connection stream))))
             = [error_response (exn_str e)]).
  { intros e Hconv. apply Hfails. now rewrite read_request_body_run, Hconv. }
  split; [|split; [|split; [|split; [|split; [|split; [|split]]]]]].
  - intros v Hget Hv Hshort Hmax Hmem.
    assert (Hconv : int (max_str_digits w)
                        (get_header (headers self) (lit "Content-Length"))
                    = Ok (decimal_value v)).
    { rewrite Hget. cbn [int]. rewrite int_of_digits by exact Hv.
      replace (640 <? N.of_nat (List.length v)) with false
        by (symmetry; apply N.ltb_ge; lia).
      reflexivity. }
    split; [exact Hconv|].
    apply Hreads; [exact Hconv | | exact Hmem].
    split; [apply decimal_value_nonneg | exact Hmax].
  - exact Hreads.
  - intros Hnone. eexists. split; [now rewrite Hnone|].
    rewrite (Hraise _ ltac:(rewrite Hnone; reflexivity)). reflexivity.
  - intros v Hget Hv.
    destruct (int_not_literal (max_str_digits w) v Hv) as [msg Hmsg].
    exists msg. rewrite Hget. split; [exact Hmsg|].
    rewrite (Hraise (ValueError msg)); [reflexivity|]. now rewrite Hget.
  - exact Hraise.
  - intros n Hconv Hn.
    destruct (rfile_read_out_of_range w n (connection stream) Hn) as [e He].
    exists e. apply Hfails. now rewrite read_request_body_run, Hconv.
  - intros n Hconv Hn Hmem.
    apply (Hfails MemoryError).
    rewrite read_request_body_run, Hconv.
    now apply rfile_read_no_memory.
  - intros Hconv. rewrite read_request_body_run, Hconv. reflexivity.
Qed.

Lemma content_length_contract_witness :
  responses
    (sent (snd (do_POST example_world (post (Some (lit "0x24")))
                        (connection (url_body hello_url)))))
  = [error_response (lit "invalid literal for int() with base 10: '0x24'")]
  /\ fst (read_request_body example_world (post (Some (lit "0036")))
            (connection (url_body hello_url ++ blit "more")))
     = Ok (url_body hello_url)
  /\ responses
       (sent (snd (do_POST example_world (post (Some (lit "2000000000")))
                           (connection (url_body hello_url)))))
     = [error_response []].
Proof.
  split; [|split].
  - destruct (content_length_contract example_world
                (post (Some (lit "0x24"))) (url_body hello_url))
      as (_ & _ & _ & H & _).
    destruct (H (lit "0x24") eq_refl) as (msg & Hconv & Hanswer).
    + intros (before & sign & c & r & after & Hv & Hb & Hs & Hc & Hr & Ha).
      assert (Hall : Forall (fun c => int_space c = true \/ c = 43 \/ c = 45
                                      \/ is_digit c = true \/ c = 95)
                            (lit "0x24")).
      { rewrite Hv. apply Forall_app. split.
        { eapply Forall_impl; [|exact Hb]. cbn beta. auto. }
        apply Forall_app. split.
        { destruct Hs as [-> | [-> | ->]];
            [constructor | constructor; [auto | constructor] ..]. }
        constructor; [auto|]. apply Forall_app. split.
        { clear Hv. induction Hr as [|d r Hd _ IH|d r Hd _ IH];
            [constructor | constructor; [auto | exact IH] |].
          constructor; [auto 6|]. constructor; [auto | exact IH]. }
        eapply Forall_impl; [|exact Ha]. cbn beta. auto. }
      inversion Hall as [|? ? _ Hx]; subst.
      inversion Hx as [|? ? Hbad _]; subst.
      destruct Hbad as [Hbad|[Hbad|[Hbad|[Hbad|Hbad]]]]; discriminate Hbad.
    + rewrite Hanswer. vm_compute in Hconv.
      apply (f_equal (fun r => match r with
                               | Raise (ValueError m) => m
                               | _ => []
                               end)) in Hconv.
      rewrite <- Hconv. reflexivity.
  - destruct (content_length_contract example_world
                (post (Some (lit "0036")))
                (url_body hello_url ++ blit "more"))
      as (H & _).
    destruct (H (lit "0036") eq_refl eq_refl) as (_ & Hread & _).
    + cbn. lia.
    + vm_compute. reflexivity.
    + reflexivity.
    + rewrite Hread. reflexivity.
  - destruct (content_length_contract example_world
                (post (Some (lit "2000000000"))) (url_body hello_url))
      as (_ & _ & _ & _ & _ & _ & H & _).
    apply (H 2000000000%Z).
    + vm_compute. reflexivity.
    + lia.
    + reflexivity.
Defined.

(** C4 as stated fails: [Content-Length: -1] is no valid header value, yet
    the POST of the first scenario sent with it is answered with status 200.
    (Were -1 counted as valid, the same request would defeat the other half
    of the claim: the handler reads the whole stream, not -1 bytes.) *)
Lemma invalid_content_length_accepted :
  get_header (headers (post (Some (lit "-1")))) (lit "Content-Length")
  = Some (lit "-1")
  /\ valid_content_length (lit "-1") = false
  /\ read_request_body example_world (post (Some (lit "-1")))
       (connection (url_body hello_url))
     = (Ok (url_body hello_url), advance 36 (connection (url_body hello_url)))
  /\ responses
       (sent (snd (do_POST example_world (post (Some (lit "-1")))
                           (connection (url_body hello_url)))))
     = [success_response (lit "Hello, world!")]
  /\ ~ (forall w self stream v,
           get_header (headers self) (lit "Content-Length") = Some v ->
           valid_content_length v = false ->
           exists message,
             responses (sent (snd (do_POST w self (connection stream))))
             = [error_response message]).
Proof.
  assert (Hanswer :
            responses
              (sent (snd (do_POST example_world (post (Some (lit "-1")))
                                  (connection (url_body hello_url)))))
            = [success_response (lit "Hello, world!")])
    by (vm_compute; reflexivity).
  split; [reflexivity|].
  split; [reflexivity|].
  split; [vm_compute; reflexivity|].
  split; [exact Hanswer|].
  intros H.
  destruct (H example_world (post (Some (lit "-1"))) (url_body hello_url)
              (lit "-1") eq_refl eq_refl) as [message Hm].
  rewrite Hanswer in Hm. discriminate Hm.
Qed.

(** C5, as amended.  A POST whose body [json.loads] rejects is answered
    with status 500, [status] equal to ["error"] and a message that is
    [str] of the exception and is not empty; no outbound request is made.
    Rejected is, in particular, every body that is a text in UTF-8, with
    no byte order mark and with neither of its first two characters NUL,
    and that is no JSON text even when the constants [NaN], [Infinity]
    and [-Infinity] are taken for values. *)
Theorem invalid_json_rejected w self stream post_data st1 :
  read_request_body w self (connection stream) = (Ok post_data, st1) ->
  (forall e,
      Json.loads (max_str_digits w) (recursion_depth w) post_data = Raise e ->
      let st' := add_sent (response_events (error_response (exn_str e))) st1 in
      do_POST w self (connection stream) = (Ok tt, st')
      /\ responses (sent st') = [error_response (exn_str e)]
      /\ status (error_response (exn_str e)) = 500
      /\ In (lit "status", lit "error") (error_object (exn_str e))
      /\ In (lit "message", exn_str e) (error_object (exn_str e))
      /\ exn_str e <> []
      /\ opened st' = [])
  /\ (forall doc,
         scalar_text doc ->
         utf8_encode doc = Ok post_data ->
         ~ In 0 (firstn 2 doc) ->
         hd 0 doc <> 65279 ->
         ~ pyjson_text doc ->
         exists message,
           responses (sent (snd (do_POST w self (connection stream))))
           = [error_response message]
           /\ message <> []
           /\ status (error_response message) = 500
           /\ In (lit "status", lit "error") (error_object message)
           /\ opened (snd (do_POST w self (connection stream))) = []).
Proof.
  intros Hbody.
  assert (Hrejected :
            forall e,
              Json.loads (max_str_digits w) (recursion_depth w) post_data
              = Raise e ->
              let st' := add_sent (response_events (error_response (exn_str e)))
                                  st1 in
              do_POST w self (connection stream) = (Ok tt, st')
              /\ responses (sent st') = [error_response (exn_str e)]
              /\ status (error_response (exn_str e)) = 500
              /\ In (lit "status", lit "error") (error_object (exn_str e))
              /\ In (lit "message", exn_str e) (error_object (exn_str e))
              /\ exn_str e <> []
              /\ opened st' = []).
  { intros e Hloads st'.
    assert (Htry : do_POST_try w self (connection stream) = (Raise e, st1)).
    { rewrite do_POST_try_run, Hbody, Hloads. reflexivity. }
    destruct (do_POST_failure w self stream e st1 Htry) as [Hrun Hresp].
    pose proof (read_request_body_fresh _ _ _ _ _ Hbody) as [Hs Ho].
    repeat split; try assumption.
    - cbn. auto.
    - cbn. auto.
    - eapply loads_described, Hloads. }
  split; [exact Hrejected|].
  intros doc Hdoc Henc Hnul Hbom Hno.
  destruct (loads_refuses (max_str_digits w) (recursion_depth w) doc post_data
              Hdoc Henc Hnul Hbom Hno) as [e Hloads].
  destruct (Hrejected e Hloads) as (Hrun & Hresp & Hstatus & Hin & _ & Hmsg & Ho).
  exists (exn_str e). rewrite Hrun. cbn [snd]. auto.
Qed.

Lemma invalid_json_rejected_witness :
  responses
    (sent (snd (do_POST example_world (post_of (blit "not json"))
                        (connection (blit "not json")))))
  = [error_response (lit "Expecting value: line 1 column 1 (char 0)")]
  /\ exists message,
       responses
         (sent (snd (do_POST example_world (post_of (blit "hello"))
                             (connection (blit "hello")))))
       = [error_response message]
       /\ message <> [].
Proof.
  split.
  - destruct (invalid_json_rejected example_world (post_of (blit "not json"))
                (blit "not json") (blit "not json")
                (advance 8 (connection (blit "not json")))) as [H _].
    + vm_compute. reflexivity.
    + destruct (H (JSONDecodeError ExpectingValue (lit "not json") 0))
        as (Hrun & Hresp & _).
      * vm_compute. reflexivity.
      * rewrite Hrun. exact Hresp.
  - destruct (invalid_json_rejected example_world (post_of (blit "hello"))
                (blit "hello") (blit "hello")
                (advance 5 (connection (blit "hello")))) as [_ H].
    + vm_compute. reflexivity.
    + destruct (H (lit "hello")) as (message & Hr & Hm & _).
      * repeat constructor.
      * vm_compute. reflexivity.
      * cbn. intros [E|[E|[]]]; discriminate E.
      * cbn. discriminate.
      * intros Htext.
        destruct (pyjson_text_head _ Htext) as (ws & c & r & Hws & Hs & Hc).
        destruct ws as [|c0 ws].
        -- cbn [app] in Hs. injection Hs as <- _.
           destruct Hc as [Hc|Hc]; [|discriminate Hc].
           cbn in Hc. repeat (destruct Hc as [Hc|Hc]; [discriminate Hc|]).
           exact Hc.
        -- cbn [app] in Hs. injection Hs as <- _.
           inversion Hws as [|? ? Hc0 _]. discriminate Hc0.
      * exists message. split; assumption.
Defined.

(** C5 as stated fails: [json.loads] accepts texts that are no JSON, such
    as the constant [NaN].  The body
    [{"url": "http://example.test/hello", "n": NaN}] is not valid JSON, yet
    the POST that carries it is answered with status 200 and the content
    fetched. *)
Lemma non_json_body_accepted :
  ~ valid_json nan_body
  /\ read_request_body example_world (post_of nan_body) (connection nan_body)
     = (Ok nan_body, advance 46 (connection nan_body))
  /\ responses
       (sent (snd (do_POST example_world (post_of nan_body)
                           (connection nan_body))))
     = [success_response (lit "Hello, world!")]
  /\ status (success_response (lit "Hello, world!")) = 200
  /\ ~ (forall w self stream post_data st1,
           read_request_body w self (connection stream) = (Ok post_data, st1) ->
           ~ valid_json post_data ->
           exists message,
             responses (sent (snd (do_POST w self (connection stream))))
             = [error_response message]).
Proof.
  assert (Hno : ~ valid_json nan_body).
  { intros (doc & Hdoc & Henc & Hjson).
    apply (utf8_decode_encode doc Hdoc doc 0 nan_body 0) in Henc.
    vm_compute in Henc.
    apply (f_equal (fun r => match r with Ok t => t | Raise _ => [] end))
      in Henc.
    apply json_text_lex in Hjson. rewrite <- Henc in Hjson.
    vm_compute in Hjson. discriminate Hjson. }
  assert (Hanswer :
            responses
              (sent (snd (do_POST example_world (post_of nan_body)
                                  (connection nan_body))))
            = [success_response (lit "Hello, world!")])
    by (vm_compute; reflexivity).
  split; [exact Hno|].
  split; [vm_compute; reflexivity|].
  split; [exact Hanswer|].
  split; [reflexivity|].
  intros H.
  destruct (H example_world (post_of nan_body) nan_body nan_body
              (advance 46 (connection nan_body))) as [message Hm].
  - vm_compute. reflexivity.
  - exact Hno.
  - rewrite Hanswer in Hm. discriminate Hm.
Qed.

(** C6.  A POST whose body is JSON for an object without a [url] member
    is answered with status 500 and [status] equal to ["error"]; the
    message is [str(KeyError('url'))]. *)
Theorem missing_url_rejected w self stream post_data st1 items :
  read_request_body w self (connection stream) = (Ok post_data, st1) ->
  Json.loads (max_str_digits w) (recursion_depth w) post_data
  = Ok (VDict items) ->
  dict_get items (lit "url") = None ->
  let st' := add_sent (response_events (error_response (lit "'url'"))) st1 in
  do_POST w self (connection stream) = (Ok tt, st')
  /\ responses (sent st') = [error_response (lit "'url'")]
  /\ status (error_response (lit "'url'")) = 500
  /\ In (lit "status", lit "error") (error_object (lit "'url'"))
  /\ opened st' = [].
Proof.
  intros Hbody Hloads Hurl st'.
  assert (Htry : do_POST_try w self (connection stream)
                 = (Raise (KeyError (lit "url")), st1)).
  { rewrite do_POST_try_run, Hbody, Hloads. cbn [getitem]. now rewrite Hurl. }
  destruct (do_POST_failure w self stream _ st1 Htry) as [Hrun Hresp].
  apply read_request_body_fresh in Hbody. destruct Hbody as [Hs Ho].
  repeat split; try assumption.
  cbn. auto.
Qed.

Lemma missing_url_rejected_witness :
  responses
    (sent (snd (do_POST example_world (post_of (blit "{}"))
                        (connection (blit "{}")))))
  = [error_response (lit "'url'")].
Proof.
  pose proof (missing_url_rejected example_world (post_of (blit "{}"))
                (blit "{}") (blit "{}") (advance 2 (connection (blit "{}")))
                []) as H.
  cbv zeta in H.
  destruct H as (Hrun & Hresp & _).
  - vm_compute. reflexivity.
  - vm_compute. reflexivity.
  - reflexivity.
  - rewrite Hrun. exact Hresp.
Defined.

(** C7.  An OPTIONS request, whatever its path and headers, is answered
    with status 200, the three cross-origin headers and the end of the
    headers: nothing is written as body, nothing is read from the request
    stream and no outbound request is made. *)
Theorem options_preflight self st stream :
  let st' := add_sent (head_events preflight_response) st in
  do_OPTIONS self st = (Ok tt, st')
  /\ head_events preflight_response
     = [SendResponse 200;
        SendHeader (lit "Access-Control-Allow-Origin") (lit "*");
        SendHeader (lit "Access-Control-Allow-Methods") (lit "GET, POST, OPTIONS");
        SendHeader (lit "Access-Control-Allow-Headers") (lit "Content-Type");
        EndHeaders]
  /\ rfile st' = rfile st
  /\ opened st' = opened st
  /\ responses (sent (snd (do_OPTIONS self (connection stream))))
     = [preflight_response]
  /\ body preflight_response = [].
Proof.
  intros st'. split; [apply do_OPTIONS_run|].
  repeat split.
Qed.

Example options_any_path :
  responses (sent (snd (do_OPTIONS options (connection [])))) = [preflight_response].
Proof. reflexivity. Qed.

(** C8.  When the outbound request was answered and the body fetched is
    not well-formed UTF-8, the one response is an error response with
    status 500: its object has the members [status] and [message] only, so
    no content is returned.  When [Request] accepted the address, so that
    the body was fetched, [decode] raises [UnicodeDecodeError] and the
    message is the description of that exception. *)
Theorem undecodable_body_rejected
        w self stream post_data st1 parsed url response raw :
  read_request_body w self (connection stream) = (Ok post_data, st1) ->
  Json.loads (max_str_digits w) (recursion_depth w) post_data = Ok parsed ->
  getitem parsed (lit "url") = Ok url ->
  urlopen w (outbound url) = Ok response ->
  read response = Ok raw ->
  ~ valid_utf8 raw ->
  (exists message,
      responses (sent (snd (do_POST w self (connection stream))))
      = [error_response message]
      /\ status (error_response message) = 500
      /\ map fst (error_object message) = [lit "status"; lit "message"])
  /\ (forall req,
         request_for w url = Ok req ->
         exists obj start stop reason,
           let e := UnicodeDecodeError (lit "utf-8") obj start stop reason in
           let st' := add_sent (response_events (error_response (exn_str e)))
                               (add_opened (outbound url) st1) in
           utf8_decode raw = Raise e
           /\ do_POST w self (connection stream) = (Ok tt, st')
           /\ responses (sent st') = [error_response (exn_str e)]
           /\ status (error_response (exn_str e)) = 500
           /\ map fst (error_object (exn_str e)) = [lit "status"; lit "message"]).
Proof.
  intros Hbody Hloads Hurl Hopen Hread Hraw.
  destruct (invalid_utf8_raises raw Hraw) as (obj & a & z & r & Hdec).
  assert (Hfetched :
            forall req,
              request_for w url = Ok req ->
              do_POST_try w self (connection stream)
              = (Raise (UnicodeDecodeError (lit "utf-8") obj a z r),
                 add_opened (outbound url) st1)).
  { intros req Hreq.
    rewrite do_POST_try_run, Hbody, Hloads, Hurl, Hreq. cbv zeta.
    now rewrite Hopen, Hread, Hdec. }
  split.
  - destruct (request_for w url) as [req|e] eqn:Hreq.
    + destruct (do_POST_failure w self stream _ _ (Hfetched req eq_refl))
        as [Hrun Hresp].
      eexists. rewrite Hrun. cbn [snd]. rewrite Hresp. repeat split.
    + assert (Htry : do_POST_try w self (connection stream) = (Raise e, st1)).
      { now rewrite do_POST_try_run, Hbody, Hloads, Hurl, Hreq. }
      destruct (do_POST_failure w self stream _ _ Htry) as [Hrun Hresp].
      eexists. rewrite Hrun. cbn [snd]. rewrite Hresp. repeat split.
  - intros req Hreq. exists obj, a, z, r. cbv zeta.
    destruct (do_POST_failure w self stream _ _ (Hfetched req Hreq))
      as [Hrun Hresp].
    repeat split; assumption.
Qed.

Lemma undecodable_body_rejected_witness :
  responses
    (sent (snd (do_POST example_world (post_of (url_body binary_url))
                        (connection (url_body binary_url)))))
  = [error_response
       (lit "'utf-8' codec can't decode byte 0xff in position 0: invalid start byte")].
Proof.
  destruct (undecodable_body_rejected example_world
              (post_of (url_body binary_url)) (url_body binary_url)
              (url_body binary_url)
              (advance 37 (connection (url_body binary_url)))
              (VDict [(lit "url", VStr binary_url)]) (VStr binary_url)
              {| read := Ok [xff; xfe; x00] |} [xff; xfe; x00])
    as (_ & H).
  - vm_compute. reflexivity.
  - vm_compute. reflexivity.
  - reflexivity.
  - vm_compute. reflexivity.
  - reflexivity.
  - exact binary_not_utf8.
  - destruct (H (outbound (VStr binary_url)))
      as (obj & a & z & r & Hdec & Hrun & Hresp & _).
    + vm_compute. reflexivity.
    + rewrite Hrun. cbn [snd]. rewrite Hresp.
      vm_compute in Hdec. injection Hdec as <- <- <- <-. reflexivity.
Defined.

(** C9.  For a POST from whose body a [url] was taken, the handler
    constructs at most one outbound request, and every request it opens
    carries the single header [User-Agent] with the literal value of the
    source, whatever the inbound request was.  When [Request] accepts the
    [url], that one request is opened and it is the one built from the
    [url]; when
    [Request] refuses it (an address without a scheme, say), no request is
    constructed or opened and the error response is sent. *)
Theorem outbound_request_headers w self stream post_data st1 parsed url :
  read_request_body w self (connection stream) = (Ok post_data, st1) ->
  Json.loads (max_str_digits w) (recursion_depth w) post_data = Ok parsed ->
  getitem parsed (lit "url") = Ok url ->
  let st' := snd (do_POST w self (connection stream)) in
  (forall req,
      request_for w url = Ok req ->
      opened st' = [req]
      /\ full_url req = url
      /\ request_headers req = [(lit "User-Agent", user_agent)])
  /\ (forall e,
         request_for w url = Raise e ->
         opened st' = []
         /\ responses (sent st') = [error_response (exn_str e)])
  /\ Forall (fun req => request_headers req = [(lit "User-Agent", user_agent)])
            (opened st')
  /\ (List.length (opened st') <= 1)%nat
  /\ user_agent
     = lit "Mozilla/5.0 (Windows NT 10.0; Win64; x64) AppleWebKit/537.36 (KHTML, like Gecko) Chrome/91.0.4472.124 Safari/537.36".
Proof.
  intros Hbody Hloads Hurl st'.
  assert (Hrun : do_POST_try w self (connection stream)
                 = match request_for w url with
                   | Raise e => (Raise e, st1)
                   | Ok _ =>
                       let st2 := add_opened (outbound url) st1 in
                       match urlopen w (outbound url) with
                       | Raise e => (Raise e, st2)
                       | Ok response =>
                           match read response with
                           | Raise e => (Raise e, st2)
                           | Ok raw =>
                               match utf8_decode raw with
                               | Raise e => (Raise e, st2)
                               | Ok text =>
                                   (Ok tt,
                                    add_sent
                                      (response_events (success_response text))
                                      st2)
                               end
                           end
                       end
                   end).
  { now rewrite do_POST_try_run, Hbody, Hloads, Hurl. }
  apply read_request_body_fresh in Hbody. destruct Hbody as [Hs Ho].
  assert (Hopened : opened st'
                    = match request_for w url with
                      | Ok _ => [outbound url]
                      | Raise _ => []
                      end).
  { subst st'. rewrite do_POST_run, Hrun.
    destruct (request_for w url) as [req|e]; cbv zeta;
      [destruct (urlopen w (outbound url)) as [response|e];
       [destruct (read response) as [raw|e];
        [destruct (utf8_decode raw) as [text|e]|]|]|];
      cbn [snd opened add_sent add_opened]; now rewrite Ho. }
  split; [|split; [|split; [|split]]].
  - intros req Hreq. rewrite Hopened, Hreq.
    apply request_for_ok in Hreq. subst req. repeat split.
  - intros e Hreq. rewrite Hopened, Hreq. split; [reflexivity|].
    subst st'. rewrite Hreq in Hrun.
    destruct (do_POST_failure w self stream e st1 Hrun) as [Hpost Hresp].
    rewrite Hpost. cbn [snd]. exact Hresp.
  - rewrite Hopened. destruct (request_for w url); repeat constructor.
  - rewrite Hopened. destruct (request_for w url); cbn; lia.
  - reflexivity.
Qed.

Lemma outbound_request_headers_witness :
  opened (snd (do_POST example_world (post_of (url_body hello_url))
                       (connection (url_body hello_url))))
  = [{| full_url := VStr hello_url;
        request_headers := [(lit "User-Agent", user_agent)] |}]
  /\ opened (snd (do_POST example_world (post_of (url_body (lit "nope")))
                          (connection (url_body (lit "nope")))))
     = []
  /\ responses
       (sent (snd (do_POST example_world (post_of (url_body (lit "nope")))
                           (connection (url_body (lit "nope"))))))
     = [error_response (lit "unknown url type: 'nope'")].
Proof.
  split.
  - destruct (outbound_request_headers example_world
                (post_of (url_body hello_url))
                (url_body hello_url) (url_body hello_url)
                (advance 36 (connection (url_body hello_url)))
                (VDict [(lit "url", VStr hello_url)]) (VStr hello_url))
      as (H & _).
    + vm_compute. reflexivity.
    + vm_compute. reflexivity.
    + reflexivity.
    + destruct (H (outbound (VStr hello_url))) as (Hopened & _).
      * vm_compute. reflexivity.
      * exact Hopened.
  - destruct (outbound_request_headers example_world
                (post_of (url_body (lit "nope")))
                (url_body (lit "nope")) (url_body (lit "nope"))
                (advance 15 (connection (url_body (lit "nope"))))
                (VDict [(lit "url", VStr (lit "nope"))]) (VStr (lit "nope")))
      as (_ & H & _).
    + vm_compute. reflexivity.
    + vm_compute. reflexivity.
    + reflexivity.
    + apply (H (ValueError (lit "unknown url type: 'nope'"))).
      vm_compute. reflexivity.
Defined.

(** C10.  A POST whose body is JSON for a value that is not an object
    makes the subscript raise [TypeError]; it is answered like any other
    failure, with status 500 and [status] equal to ["error"], and no
    outbound request is made. *)
Theorem non_object_json_rejected w self stream post_data st1 parsed :
  read_request_body w self (connection stream) = (Ok post_data, st1) ->
  Json.loads (max_str_digits w) (recursion_depth w) post_data = Ok parsed ->
  is_dict parsed = false ->
  exists msg,
    let e := TypeError msg in
    let st' := add_sent (response_events (error_response (exn_str e))) st1 in
    getitem parsed (lit "url") = Raise e
    /\ do_POST w self (connection stream) = (Ok tt, st')
    /\ responses (sent st') = [error_response msg]
    /\ status (error_response msg) = 500
    /\ In (lit "status", lit "error") (error_object msg)
    /\ opened st' = [].
Proof.
  intros Hbody Hloads Hnd.
  assert (exists msg, getitem parsed (lit "url") = Raise (TypeError msg))
    as [msg Hget].
  { destruct parsed; try discriminate; cbn [getitem]; eauto. }
  exists msg. cbv zeta.
  assert (Htry : do_POST_try w self (connection stream)
                 = (Raise (TypeError msg), st1)).
  { now rewrite do_POST_try_run, Hbody, Hloads, Hget. }
  destruct (do_POST_failure w self stream _ _ Htry) as [Hrun Hresp].
  apply read_request_body_fresh in Hbody. destruct Hbody as [Hs Ho].
  repeat split; try assumption.
  cbn. auto.
Qed.

Lemma non_object_json_rejected_witness :
  responses
    (sent (snd (do_POST example_world (post_of (blit "[]"))
                        (connection (blit "[]")))))
  = [error_response (lit "list indices must be integers or slices, not str")].
Proof.
  destruct (non_object_json_rejected example_world (post_of (blit "[]"))
              (blit "[]") (blit "[]") (advance 2 (connection (blit "[]")))
              (VList []))
    as (msg & Hget & Hrun & Hresp & _).
  - vm_compute. reflexivity.
  - vm_compute. reflexivity.
  - reflexivity.
  - rewrite Hrun. cbn [snd]. rewrite Hresp.
    cbn [getitem] in Hget. injection Hget as <-. reflexivity.
Defined.

(** * Further properties of the handler *)

(** X1.  Writes to the client being taken not to fail, and the outbound
    request to come back with an answer or an exception: on any connection,
    whatever was read and sent on it before, [do_POST] returns without
    raising, and what it sends is, after what was sent before, exactly one
    response written in this order: the status line, the three cross-origin
    headers, [Content-Type: application/json], the end of the headers and
    one write of the body.  The response is the success response for some
    text or the error response for the description of some exception. *)
Theorem do_POST_always_answers w self st :
  exists r,
    fst (do_POST w self st) = Ok tt
    /\ sent (snd (do_POST w self st))
       = sent st
           ++ SendResponse (status r)
           :: map (fun h => SendHeader (fst h) (snd h))
                  (cors_headers ++ [content_type_json])
           ++ [EndHeaders; Write (body r)]
    /\ ((exists text, r = success_response text)
        \/ (exists e, r = error_response (exn_str e))).
Proof.
  pose proof (read_request_body_frame w self st) as (Hs & _ & _).
  post_stages w self st; cbn [snd] in Hs;
    match goal with
    | |- context [add_sent (response_events ?r0) _] => exists r0
    end;
    (split; [reflexivity|]);
    cbn [snd sent add_sent add_opened]; rewrite Hs;
    (split; [reflexivity | eauto]).
Qed.

(** X2.  A response with status 200 is sent only when every stage went
    through: the body was read, it was parsed, the [url] was taken,
    [Request] accepted it, the outbound request for it was answered, and
    the answer was read and decoded.  The response is then the success response for the decoded
    text, and encoding that text as UTF-8 gives back the bytes fetched. *)
Theorem success_only_after_fetch w self stream r :
  responses (sent (snd (do_POST w self (connection stream)))) = [r] ->
  status r = 200 ->
  exists post_data parsed url response raw text,
    fst (read_request_body w self (connection stream)) = Ok post_data
    /\ Json.loads (max_str_digits w) (recursion_depth w) post_data = Ok parsed
    /\ getitem parsed (lit "url") = Ok url
    /\ request_for w url = Ok (outbound url)
    /\ urlopen w (outbound url) = Ok response
    /\ read response = Ok raw
    /\ utf8_decode raw = Ok text
    /\ utf8_encode text = Ok raw
    /\ r = success_response text.
Proof.
  pose proof (read_request_body_frame w self (connection stream)) as (Hs & _ & _).
  post_stages w self (connection stream); cbn [snd] in Hs |- *;
    intros Hr Hstatus;
    try (rewrite responses_on_fresh in Hr by exact Hs;
         injection Hr as <-; discriminate Hstatus).
  rewrite responses_on_fresh in Hr by exact Hs. injection Hr as <-.
  exists post_data, parsed, url, reply, raw, text.
  pose proof (request_for_ok _ _ _ Hreq) as ->.
  repeat split; try assumption.
  eapply (utf8_encode_decode _ raw raw 0%nat text text 0%nat (le_n _)), Hdec.
Qed.

Lemma success_only_after_fetch_witness :
  exists text,
    utf8_decode (blit "Hello, world!") = Ok text
    /\ utf8_encode text = Ok (blit "Hello, world!").
Proof.
  destruct (success_only_after_fetch example_world (post_of (url_body hello_url))
              (url_body hello_url) (success_response (lit "Hello, world!")))
    as (post_data & parsed & url & response & raw & text
        & Hbody & Hloads & Hurl & _ & Hopen & Hread & Hdec & Henc & Hr).
  - vm_compute. reflexivity.
  - reflexivity.
  - exists text.
    assert (Hp : post_data = url_body hello_url).
    { vm_compute in Hbody. apply Ok_inj in Hbody. rewrite <- Hbody.
      vm_compute. reflexivity. }
    subst post_data.
    assert (Hv : parsed = VDict [(lit "url", VStr hello_url)]).
    { apply Ok_inj. rewrite <- Hloads. vm_compute. reflexivity. }
    subst parsed.
    assert (Hu : url = VStr hello_url).
    { apply Ok_inj. rewrite <- Hurl. vm_compute. reflexivity. }
    subst url.
    assert (Hresp : response = {| read := Ok (blit "Hello, world!") |}).
    { apply Ok_inj. rewrite <- Hopen. vm_compute. reflexivity. }
    subst response. cbn [read] in Hread. apply Ok_inj in Hread. subst raw.
    split; assumption.
Defined.

(** X3.  On any connection, [do_POST] opens no outbound request when its
    first three statements give no [url] or when [Request] refuses the
    [url] they give, and exactly one, the request built for that address,
    when [Request] accepts it: a request that fails is not made again. *)
Theorem one_request_only_for_a_url w self st :
  opened (snd (do_POST w self st))
  = opened st ++ match requested_url w self st with
                 | Some url =>
                     match request_for w url with
                     | Ok req => [req]
                     | Raise _ => []
                     end
                 | None => []
                 end.
Proof.
  pose proof (read_request_body_frame w self st) as (_ & Ho & _).
  unfold requested_url.
  post_stages w self st; cbn [snd] in Ho;
    try (pose proof (request_for_ok _ _ _ Hreq) as ->);
    cbn [snd opened add_sent add_opened]; rewrite Ho;
    try reflexivity; now rewrite app_nil_r.
Qed.

(** X4.  [do_POST] reads from the request stream in its second statement
    only: whatever happens later, the stream is left where that read left
    it, which is the stream as it was less some bytes at its head. *)
Theorem request_stream_left w self st :
  rfile (snd (do_POST w self st)) = rfile (snd (read_request_body w self st))
  /\ exists k, rfile (snd (do_POST w self st)) = skipn k (rfile st).
Proof.
  assert (H1 : rfile (snd (do_POST w self st))
               = rfile (snd (read_request_body w self st))).
  { post_stages w self st; reflexivity. }
  split; [exact H1|].
  rewrite H1. apply read_request_body_frame.
Qed.

(** X5.  Every byte of the body of a response to a POST is below 128:
    the JSON text is ASCII whatever the text fetched or the description of
    the failure holds, so that encoding it never fails. *)
Theorem response_body_ascii w self stream :
  Forall (fun r => Forall (fun b => Byte.to_N b < 128) (body r))
         (responses (sent (snd (do_POST w self (connection stream))))).
Proof.
  pose proof (read_request_body_frame w self (connection stream)) as (Hs & _ & _).
  post_stages w self (connection stream); cbn [snd] in Hs |- *;
    rewrite responses_on_fresh by exact Hs;
    (constructor; [|constructor]);
    apply ascii_bytes_ascii, dumps_ascii.
Qed.

(** X6.  The request shows in the answer through the [url] taken from it
    only: two POSTs from which the same [url] is taken, whatever else their
    headers and bodies hold, are answered by the same response and make the
    same outbound request. *)
Theorem only_url_matters w self1 stream1 self2 stream2 url :
  requested_url w self1 (connection stream1) = Some url ->
  requested_url w self2 (connection stream2) = Some url ->
  responses (sent (snd (do_POST w self1 (connection stream1))))
  = responses (sent (snd (do_POST w self2 (connection stream2))))
  /\ opened (snd (do_POST w self1 (connection stream1)))
     = opened (snd (do_POST w self2 (connection stream2))).
Proof.
  assert (H : forall self stream,
             requested_url w self (connection stream) = Some url ->
             responses (sent (snd (do_POST w self (connection stream))))
             = match request_for w url with
               | Raise e => [error_response (exn_str e)]
               | Ok _ =>
                   match urlopen w (outbound url) with
                   | Raise e => [error_response (exn_str e)]
                   | Ok reply =>
                       match read reply with
                       | Raise e => [error_response (exn_str e)]
                       | Ok raw =>
                           match utf8_decode raw with
                           | Raise e => [error_response (exn_str e)]
                           | Ok text => [success_response text]
                           end
                       end
                   end
               end
             /\ opened (snd (do_POST w self (connection stream)))
                = match request_for w url with
                  | Raise _ => []
                  | Ok _ => [outbound url]
                  end).
  { intros self stream Hreq.
    pose proof (read_request_body_frame w self (connection stream))
      as (Hs & Ho & _).
    unfold requested_url in Hreq.
    rewrite do_POST_stages. cbv zeta.
    destruct (read_request_body w self (connection stream))
      as [[post_data|e] st1]; [|discriminate Hreq].
    cbn [snd] in Hs, Ho.
    destruct (Json.loads _ _ post_data) as [parsed|e]; [|discriminate Hreq].
    destruct (getitem parsed (lit "url")) as [u|e]; [|discriminate Hreq].
    injection Hreq as ->.
    assert (Hs2 : sent (add_opened (outbound url) st1) = []) by exact Hs.
    destruct (request_for w url) as [req|e];
      [destruct (urlopen w (outbound url)) as [reply|e];
       [destruct (read reply) as [raw|e];
        [destruct (utf8_decode raw) as [text|e]|]|]|];
      cbn [snd]; (split; [now apply responses_on_fresh|]);
      cbn [opened add_sent add_opened]; now rewrite Ho. }
  intros H1 H2.
  destruct (H _ _ H1) as [-> ->]. destruct (H _ _ H2) as [-> ->].
  split; reflexivity.
Qed.

Lemma only_url_matters_witness :
  let other := ascii_bytes (Json.dumps [(lit "id", lit "7"); (lit "url", hello_url)]) in
  responses
    (sent (snd (do_POST example_world (post_of (url_body hello_url))
                        (connection (url_body hello_url)))))
  = responses
      (sent (snd (do_POST example_world (post (Some (lit " +4_7 ")))
                          (connection other)))).
Proof.
  intros other.
  apply (only_url_matters example_world (post_of (url_body hello_url))
           (url_body hello_url) (post (Some (lit " +4_7 "))) other
           (VStr hello_url)).
  - vm_compute. reflexivity.
  - vm_compute. reflexivity.
Defined.

(** X7.  When the value of the [Content-Length] header is a string of at
    most 640 decimal digits, leading zeros allowed, that stands for a
    number below 2^63-33 and a byte string of that length can be
    allocated, the handler reads that many bytes from the head of the
    request stream (all of it when it holds fewer). *)
Theorem digits_content_length_read w self st v :
  get_header (headers self) (lit "Content-Length") = Some v ->
  valid_content_length v = true ->
  (List.length v <= 640)%nat ->
  (decimal_value v < 2 ^ 63 - 33)%Z ->
  can_allocate w (Z.to_N (decimal_value v)) = true ->
  read_request_body w self st
  = (Ok (firstn (Z.to_nat (decimal_value v)) (rfile st)),
     advance (Z.to_nat (decimal_value v)) st).
Proof.
  intros Hget Hv Hlen Hmax Hmem.
  rewrite read_request_body_run, Hget. cbn [int].
  rewrite int_of_digits by exact Hv.
  replace (640 <? N.of_nat (List.length v)) with false
    by (symmetry; apply N.ltb_ge; lia).
  cbn [andb]. apply rfile_read_in_range; [|exact Hmem].
  split; [apply decimal_value_nonneg | exact Hmax].
Qed.

Lemma digits_content_length_read_witness :
  fst (read_request_body example_world (post (Some (lit "0036")))
         (connection (url_body hello_url ++ blit "more")))
  = Ok (url_body hello_url).
Proof.
  rewrite (digits_content_length_read example_world (post (Some (lit "0036")))
             (connection (url_body hello_url ++ blit "more")) (lit "0036")).
  - vm_compute. reflexivity.
  - reflexivity.
  - reflexivity.
  - cbn. lia.
  - vm_compute. reflexivity.
  - reflexivity.
Defined.

(** X8.  A [Content-Length] of more than 640 digits and more digits than
    the limit of [int()] allows (when there is one) is refused whatever its
    value, be it all leading zeros: the POST is answered by the error
    response with the message of [int()], nothing is read from the request
    stream and no outbound request is made. *)
Theorem long_content_length_refused w self stream v :
  get_header (headers self) (lit "Content-Length") = Some v ->
  valid_content_length v = true ->
  640 < N.of_nat (List.length v) ->
  0 < max_str_digits w < N.of_nat (List.length v) ->
  responses (sent (snd (do_POST w self (connection stream))))
  = [error_response
       (exn_str (digits_limit_error (max_str_digits w)
                                    (N.of_nat (List.length v))))]
  /\ rfile (snd (do_POST w self (connection stream))) = stream
  /\ opened (snd (do_POST w self (connection stream))) = [].
Proof.
  intros Hget Hv Hlong [Hpos Hlimit].
  assert (Hbody : read_request_body w self (connection stream)
                  = (Raise (digits_limit_error (max_str_digits w)
                                               (N.of_nat (List.length v))),
                     connection stream)).
  { rewrite read_request_body_run, Hget. cbn [int].
    rewrite int_of_digits by exact Hv.
    replace (640 <? N.of_nat (List.length v)) with true
      by (symmetry; apply N.ltb_lt; lia).
    replace (0 <? max_str_digits w) with true
      by (symmetry; apply N.ltb_lt; lia).
    replace (max_str_digits w <? N.of_nat (List.length v)) with true
      by (symmetry; apply N.ltb_lt; lia).
    reflexivity. }
  rewrite do_POST_stages, Hbody. cbv zeta. cbn [snd].
  split; [now apply responses_on_fresh|]. split; reflexivity.
Qed.

Lemma long_content_length_refused_witness :
  responses
    (sent (snd (do_POST example_world (post (Some (repeat 48 4301)))
                        (connection []))))
  = [error_response
       (lit "Exceeds the limit (4300 digits) for integer string conversion: value has 4301 digits; use sys.set_int_max_str_digits() to increase the limit")].
Proof.
  destruct (long_content_length_refused example_world
              (post (Some (repeat 48 4301))) [] (repeat 48 4301))
    as (H & _).
  - reflexivity.
  - vm_compute. reflexivity.
  - vm_compute. reflexivity.
  - split; vm_compute; reflexivity.
  - rewrite H. vm_compute. reflexivity.
Defined.

(** X9.  [int()] takes white space around the digits and a plus sign
    before them: a POST whose [Content-Length] value is such a string is
    handled exactly as the POST with the digits alone. *)
Theorem lenient_content_length w self st before sign v after :
  forallb is_space before = true ->
  sign = [] \/ sign = [43] ->
  valid_content_length v = true ->
  forallb is_space after = true ->
  (List.length v <= 640)%nat ->
  get_header (headers self) (lit "Content-Length")
  = Some (before ++ sign ++ v ++ after) ->
  do_POST w self st = do_POST w (post (Some v)) st.
Proof.
  intros Hb Hsign Hv Ha Hlen Hget.
  apply do_POST_by_length. rewrite Hget, get_header_post. cbn [int].
  destruct (int_lenient (max_str_digits w) before v after Hb Hv Ha Hlen)
    as [H0 H1].
  destruct (int_lenient (max_str_digits w) [] v [] eq_refl Hv eq_refl Hlen)
    as [H2 _].
  cbn [app int] in H0, H1, H2. rewrite app_nil_r in H2. rewrite H2.
  destruct Hsign as [-> | ->]; cbn [app]; assumption.
Qed.

Lemma lenient_content_length_witness :
  responses
    (sent (snd (do_POST example_world (post (Some (lit " +36 ")))
                        (connection (url_body hello_url)))))
  = [success_response (lit "Hello, world!")].
Proof.
  rewrite (lenient_content_length example_world (post (Some (lit " +36 ")))
             (connection (url_body hello_url))
             (lit " ") (lit "+") (lit "36") (lit " ")).
  - vm_compute. reflexivity.
  - reflexivity.
  - right. reflexivity.
  - reflexivity.
  - reflexivity.
  - cbn. lia.
  - reflexivity.
Defined.

(** X10.  A POST whose body is the text [json.dumps] writes for an object
    with string members (texts without surrogates), sent with its length
    as [Content-Length] on a stream that may go on after the body, the body
    being short enough to be allocated: the body and nothing after it is
    read, and the address requested is the value of the last [url] member,
    the other members being ignored.  When [Request] accepts that address,
    exactly one outbound request is opened, for it; when that request is
    answered with the UTF-8 encoding of [text], the response is the success
    response for [text]; when [urlopen] raises, it is the error response
    for that exception.  When [Request] refuses the address, no request is
    opened and the response is the error response for its exception. *)
Theorem dumped_request_served w items u rest :
  Forall (fun kv => scalar_text (fst kv) /\ scalar_text (snd kv)) items ->
  last_member (lit "url") items = Some u ->
  (0 < recursion_depth w)%nat ->
  (Z.of_nat (List.length (Json.dumps items)) < 2 ^ 63 - 33)%Z ->
  can_allocate w (N.of_nat (List.length (Json.dumps items))) = true ->
  let data := ascii_bytes (Json.dumps items) in
  let st' := snd (do_POST w (post_of data) (connection (data ++ rest))) in
  rfile st' = rest
  /\ requested_url w (post_of data) (connection (data ++ rest))
     = Some (VStr u)
  /\ (forall req,
         request_for w (VStr u) = Ok req ->
         opened st' = [req]
         /\ full_url req = VStr u
         /\ (forall reply raw text,
                urlopen w req = Ok reply ->
                read reply = Ok raw ->
                scalar_text text ->
                utf8_encode text = Ok raw ->
                responses (sent st') = [success_response text])
         /\ (forall e,
                urlopen w req = Raise e ->
                responses (sent st') = [error_response (exn_str e)]))
  /\ (forall e,
         request_for w (VStr u) = Raise e ->
         opened st' = []
         /\ responses (sent st') = [error_response (exn_str e)]).
Proof.
  intros Hitems Hlast Hdepth Hlen Hmem data st'.
  assert (Hdata : List.length data = List.length (Json.dumps items)).
  { subst data. unfold ascii_bytes. apply length_map. }
  assert (Hbody : read_request_body w (post_of data) (connection (data ++ rest))
                  = (Ok data,
                     advance (List.length data) (connection (data ++ rest)))).
  { apply read_counted_body_post; rewrite Hdata; assumption. }
  assert (Hloads : Json.loads (max_str_digits w) (recursion_depth w) data
                   = Ok (VDict (store_items items []))).
  { destruct (recursion_depth w) as [|depth] eqn:Hd; [lia|].
    subst data. now apply loads_dumps. }
  assert (Hurl : getitem (VDict (store_items items [])) (lit "url") = Ok (VStr u)).
  { cbn [getitem]. now rewrite dict_get_store, Hlast. }
  assert (Hrun : do_POST w (post_of data) (connection (data ++ rest))
                 = let st1 := advance (List.length data)
                                      (connection (data ++ rest)) in
                   match request_for w (VStr u) with
                   | Raise e =>
                       (Ok tt, add_sent (response_events (error_response (exn_str e))) st1)
                   | Ok _ =>
                       let st2 := add_opened (outbound (VStr u)) st1 in
                       match urlopen w (outbound (VStr u)) with
                       | Raise e =>
                           (Ok tt, add_sent (response_events (error_response (exn_str e))) st2)
                       | Ok reply =>
                           match read reply with
                           | Raise e =>
                               (Ok tt, add_sent (response_events (error_response (exn_str e))) st2)
                           | Ok raw =>
                               match utf8_decode raw with
                               | Raise e =>
                                   (Ok tt, add_sent (response_events (error_response (exn_str e))) st2)
                               | Ok text =>
                                   (Ok tt, add_sent (response_events (success_response text)) st2)
                               end
                           end
                       end
                   end).
  { rewrite do_POST_stages, Hbody, Hloads, Hurl. reflexivity. }
  assert (Hrest : skipn (List.length data) (data ++ rest) = rest).
  { rewrite skipn_app, skipn_all, Nat.sub_diag. reflexivity. }
  subst st'. rewrite Hrun. cbv zeta.
  split; [|split; [|split]].
  - destruct (request_for w (VStr u)) as [req|e];
      [destruct (urlopen w _) as [reply|e];
       [destruct (read reply) as [raw|e];
        [destruct (utf8_decode raw) as [text|e]|]|]|];
      cbn [snd rfile add_sent add_opened advance connection]; exact Hrest.
  - unfold requested_url. now rewrite Hbody, Hloads, Hurl.
  - intros req Hreq. rewrite Hreq.
    apply request_for_ok in Hreq. subst req.
    split; [|split; [|split]].
    + destruct (urlopen w _) as [reply|e];
        [destruct (read reply) as [raw|e];
         [destruct (utf8_decode raw) as [text|e]|]|]; reflexivity.
    + reflexivity.
    + intros reply raw text Hopen Hread Htext Henc.
      assert (Hdec : utf8_decode raw = Ok text)
        by exact (utf8_decode_encode text Htext text 0 raw 0 raw Henc).
      rewrite Hopen, Hread, Hdec. cbn [snd]. now apply responses_on_fresh.
    + intros e Hopen. rewrite Hopen. cbn [snd]. now apply responses_on_fresh.
  - intros e Hreq. rewrite Hreq. cbn [snd]. split; [reflexivity|].
    now apply responses_on_fresh.
Qed.

Lemma dumped_request_served_witness :
  let items := [(lit "url", closed_port_url); (lit "note", lit "x");
                (lit "url", hello_url)] in
  let data := ascii_bytes (Json.dumps items) in
  responses
    (sent (snd (do_POST example_world (post_of data)
                        (connection (data ++ blit "tail")))))
  = [success_response (lit "Hello, world!")].
Proof.
  intros items data.
  destruct (dumped_request_served example_world items hello_url (blit "tail"))
    as (_ & _ & H & _).
  - repeat constructor.
  - reflexivity.
  - cbn. lia.
  - vm_compute. reflexivity.
  - vm_compute. reflexivity.
  - destruct (H (outbound (VStr hello_url))) as (_ & _ & Hok & _).
    + vm_compute. reflexivity.
    + apply (Hok {| read := Ok (blit "Hello, world!") |} (blit "Hello, world!")
               (lit "Hello, world!")).
      * reflexivity.
      * reflexivity.
      * repeat constructor.
      * vm_compute. reflexivity.
Defined.

(** X11.  When no [url] can be taken from the request (the
    [Content-Length] header, the read, the parse or the subscript fails)
    and the header value is Latin-1 text, the POST is answered by one error
    response whose message is Latin-1 text, and whose body [json.loads]
    reads back as the object with the members [status], with value
    [error], and [message], with exactly that message. *)
Theorem malformed_input_error_readable w self stream :
  (forall v, get_header (headers self) (lit "Content-Length") = Some v ->
             latin1_text v) ->
  requested_url w self (connection stream) = None ->
  exists message,
    responses (sent (snd (do_POST w self (connection stream))))
    = [error_response message]
    /\ latin1_text message
    /\ forall msd depth,
         Json.loads msd (S depth) (body (error_response message))
         = Ok (as_dict (error_object message)).
Proof.
  intros Hheader Hnone.
  assert (Hshape : exists e,
             responses (sent (snd (do_POST w self (connection stream))))
             = [error_response (exn_str e)]
             /\ latin1_text (exn_str e)).
  { pose proof (read_request_body_frame w self (connection stream))
      as (Hs & _ & _).
    unfold requested_url in Hnone.
    rewrite do_POST_stages. cbv zeta.
    destruct (read_request_body w self (connection stream))
      as [[post_data|e] st1] eqn:Hbody; cbn [snd] in Hs.
    - pose proof (loads_raises_ascii (max_str_digits w) (recursion_depth w) post_data)
        as Hl.
      destruct (Json.loads _ _ post_data) as [parsed|e].
      + destruct (getitem parsed (lit "url")) as [url|e] eqn:Hurl;
          [discriminate Hnone|].
        exists e. cbn [snd]. split; [now apply responses_on_fresh|].
        eapply ascii_latin1, getitem_url_raises_ascii, Hurl.
      + exists e. cbn [snd]. split; [now apply responses_on_fresh|].
        apply ascii_latin1, Hl.
    - exists e. cbn [snd]. split; [now apply responses_on_fresh|].
      rewrite read_request_body_run in Hbody.
      destruct (int _ _) as [n|e0] eqn:Hint.
      + eapply ascii_latin1, rfile_read_raises_ascii, Hbody.
      + inversion Hbody; subst. eapply int_raises_latin1; [|exact Hint].
        exact Hheader. }
  destruct Hshape as (e & Hr & Hm).
  exists (exn_str e). split; [exact Hr|]. split; [exact Hm|].
  intros msd depth. apply error_object_read, latin1_scalar, Hm.
Qed.

Lemma malformed_input_error_readable_witness :
  exists message,
    responses
      (sent (snd (do_POST example_world (post (Some (lit "12a")))
                          (connection (url_body hello_url)))))
    = [error_response message]
    /\ Json.loads 4300 1 (body (error_response message))
       = Ok (as_dict (error_object message)).
Proof.
  destruct (malformed_input_error_readable example_world
              (post (Some (lit "12a"))) (url_body hello_url))
    as (message & Hr & _ & Hl).
  - intros v Hv. vm_compute in Hv. apply (f_equal (fun o => match o with Some s => s | None => [] end)) in Hv.
    subst v. repeat constructor.
  - vm_compute. reflexivity.
  - exists message. split; [exact Hr | apply Hl].
Defined.
